(** * Verification of the static-analysis pipeline of [flatten]

    This development embeds, as Rocq functions, the two components of the
    repository that carry its correctness story:

    - the context chunker [chunkCodebase] of [src/mcp/openaiClient.ts], and
    - the project analyzer [analyzeProject] with its file traverser
      [listFilesRecursively] of [src/codeAnalyzer/projectAnalyzer.ts],
      together with the parser registry of
      [src/codeAnalyzer/languageParsers/ParserRegistry.ts].

    The chunker is embedded twice: once as a pure function over immutable
    records (module-level definitions below), and once over an explicit
    object store ([Module Store]) in which arrays and objects are mutable
    and aliased as in JavaScript, so that the absence of mutation of the
    input can be stated and proved.

    Around them it embeds what the chunks go through on their way to the
    text-generation service and back, all of [src/mcp/openaiClient.ts]:
    the clean-up of code bodies ([optimizeCode], [extractEssentialCode])
    and the selection of the fields sent, the extraction and validation of
    the answer ([validateResponseStructure] and its helpers), and the
    sequence of queries of [analyzeChunkedCodebase], the service being an
    oracle. *)

From Stdlib Require Import ZArith Lia List String Ascii DecimalString Permutation.
From stdpp Require Import base list strings.
Import ListNotations.
Local Open Scope string_scope.
Local Open Scope list_scope.
Local Open Scope Z_scope.

(** * Part I: the embedding *)

(** ** Data model ([src/codeAnalyzer/types.ts])

    A JavaScript string is modelled as a [string] whose characters stand for
    UTF-16 code units below 256; optional keys ([body?], [type?], ...) are
    [option]s, [None] meaning that the key is absent from the object. *)

(** The interface [Parameter]. *)
Record ParameterT := mkParameter {
  p_name : string;
  p_type : string
}.

Record Location := mkLocation {
  l_file : string;
  l_startLine : Z;
  l_endLine : Z
}.

Record FunctionAnalysis := mkFunctionAnalysis {
  f_name : string;
  f_type : option string;
  f_parameters : list ParameterT;
  f_returnType : string;
  f_body : option string;
  f_codeSnippet : option string;
  f_documentation : string;
  f_location : Location
}.

Record ClassProperty := mkClassProperty {
  cp_name : string;
  cp_type : string;
  cp_documentation : string
}.

Record ClassMethod := mkClassMethod {
  m_name : string;
  m_type : option string;
  m_parameters : list ParameterT;
  m_returnType : string;
  m_body : option string;
  m_codeSnippet : option string;
  m_documentation : string;
  m_location : option Location
}.

(** [c_note] is the key [note] that [chunkCodebase] adds to the partial
    records of a large class; parser output never carries it. *)
Record ClassAnalysis := mkClassAnalysis {
  c_name : string;
  c_type : option string;
  c_methods : list ClassMethod;
  c_properties : list ClassProperty;
  c_documentation : string;
  c_location : Location;
  c_codeSnippet : option string;
  c_note : option string
}.

Record AnalysisResult := mkAnalysisResult {
  functions : list FunctionAnalysis;
  classes : list ClassAnalysis
}.

(** ** [JSON.stringify] on the data model *)

Definition dquote : string := String (ascii_of_nat 34) EmptyString.
Definition backslash : string := String (ascii_of_nat 92) EmptyString.

Definition hex_digit (n : nat) : ascii :=
  match String.get n "0123456789abcdef" with
  | Some c => c
  | None => "0"%char
  end.

(** QuoteJSONString: the two-character escapes, [\u00xx] for the other
    control characters, every other code unit verbatim. *)
Definition escape_char (c : ascii) : string :=
  let n := nat_of_ascii c in
  if (n =? 8)%nat then backslash +:+ "b"
  else if (n =? 9)%nat then backslash +:+ "t"
  else if (n =? 10)%nat then backslash +:+ "n"
  else if (n =? 12)%nat then backslash +:+ "f"
  else if (n =? 13)%nat then backslash +:+ "r"
  else if (n =? 34)%nat then backslash +:+ dquote
  else if (n =? 92)%nat then backslash +:+ backslash
  else if (n <? 32)%nat then
    backslash +:+ "u00" +:+
      String (hex_digit (n / 16)) (String (hex_digit (n mod 16)) EmptyString)
  else String c EmptyString.

Fixpoint escape (s : string) : string :=
  match s with
  | EmptyString => EmptyString
  | String c rest => escape_char c +:+ escape rest
  end.

Definition json_string (s : string) : string := dquote +:+ escape s +:+ dquote.

Definition json_number (z : Z) : string := NilZero.string_of_int (Z.to_int z).

Fixpoint join_comma (l : list string) : string :=
  match l with
  | [] => EmptyString
  | [x] => x
  | x :: rest => x +:+ "," +:+ join_comma rest
  end.

Definition json_array (elems : list string) : string :=
  "[" +:+ join_comma elems +:+ "]".

(** A key whose value is [undefined] (here: [None]) is left out. *)
Definition json_object (fields : list (string * option string)) : string :=
  "{" +:+
  join_comma
    (omap (fun kv => match kv.2 with
                     | Some v => Some (json_string kv.1 +:+ ":" +:+ v)
                     | None => None
                     end) fields)
  +:+ "}".

Definition stringify_Parameter (p : ParameterT) : string :=
  json_object [("name", Some (json_string (p_name p)));
               ("type", Some (json_string (p_type p)))].

Definition stringify_Location (l : Location) : string :=
  json_object [("file", Some (json_string (l_file l)));
               ("startLine", Some (json_number (l_startLine l)));
               ("endLine", Some (json_number (l_endLine l)))].

Definition stringify_function (f : FunctionAnalysis) : string :=
  json_object
    [("name", Some (json_string (f_name f)));
     ("type", json_string <$> f_type f);
     ("parameters", Some (json_array (map stringify_Parameter (f_parameters f))));
     ("returnType", Some (json_string (f_returnType f)));
     ("body", json_string <$> f_body f);
     ("codeSnippet", json_string <$> f_codeSnippet f);
     ("documentation", Some (json_string (f_documentation f)));
     ("location", Some (stringify_Location (f_location f)))].

Definition stringify_property (p : ClassProperty) : string :=
  json_object [("name", Some (json_string (cp_name p)));
               ("type", Some (json_string (cp_type p)));
               ("documentation", Some (json_string (cp_documentation p)))].

Definition stringify_method (m : ClassMethod) : string :=
  json_object
    [("name", Some (json_string (m_name m)));
     ("type", json_string <$> m_type m);
     ("parameters", Some (json_array (map stringify_Parameter (m_parameters m))));
     ("returnType", Some (json_string (m_returnType m)));
     ("body", json_string <$> m_body m);
     ("codeSnippet", json_string <$> m_codeSnippet m);
     ("documentation", Some (json_string (m_documentation m)));
     ("location", stringify_Location <$> m_location m)].

Definition stringify_class (c : ClassAnalysis) : string :=
  json_object
    [("name", Some (json_string (c_name c)));
     ("type", json_string <$> c_type c);
     ("methods", Some (json_array (map stringify_method (c_methods c))));
     ("properties", Some (json_array (map stringify_property (c_properties c))));
     ("documentation", Some (json_string (c_documentation c)));
     ("location", Some (stringify_Location (c_location c)));
     ("codeSnippet", json_string <$> c_codeSnippet c);
     ("note", json_string <$> c_note c)].

Definition stringify_result (r : AnalysisResult) : string :=
  json_object
    [("functions", Some (json_array (map stringify_function (functions r))));
     ("classes", Some (json_array (map stringify_class (classes r))))].

(** ** The chunker ([chunkCodebase], openaiClient.ts 416-533) *)

(** [estimateTokens = (str) => Math.ceil(str.length / 4)] *)
Definition estimateTokens (str : string) : Z :=
  (Z.of_nat (String.length str) + 3) / 4.

(** The three loop variables of a packing loop: the chunks already closed
    ([functionChunks], [classChunks], [methodChunks]), the running chunk
    ([currentChunk], [currentMethods]) and its running size. *)
Record packing (A : Type) := mkPacking {
  closed : list (list A);
  currentChunk : list A;
  currentSize : Z
}.
Arguments mkPacking {A} _ _ _.
Arguments closed {A} _.
Arguments currentChunk {A} _.
Arguments currentSize {A} _.

Definition emptyPacking {A : Type} : packing A := mkPacking [] [] 0.

(** [if (currentChunk.length > 0) chunks.push(currentChunk)] after a loop. *)
Definition flush {A : Type} (st : packing A) : list (list A) :=
  if (0 <? length (currentChunk st))%nat
  then closed st ++ [currentChunk st]
  else closed st.

Definition truncated_body : string := "/* Body too large, truncated */".

(** [{ ...func, body: "/* Body too large, truncated */" }] *)
Definition funcWithoutBody (func : FunctionAnalysis) : FunctionAnalysis :=
  {| f_name := f_name func;
     f_type := f_type func;
     f_parameters := f_parameters func;
     f_returnType := f_returnType func;
     f_body := Some truncated_body;
     f_codeSnippet := f_codeSnippet func;
     f_documentation := f_documentation func;
     f_location := f_location func |}.

Definition funcTokens (func : FunctionAnalysis) : Z :=
  estimateTokens (stringify_function func).

(** One iteration of [for (const func of context.functions)]. *)
Definition packFunction (maxChunkSize : Z)
    (st : packing FunctionAnalysis) (func : FunctionAnalysis)
  : packing FunctionAnalysis :=
  if funcTokens func >? maxChunkSize then
    mkPacking (closed st) (currentChunk st ++ [funcWithoutBody func]) (currentSize st)
  else
    let st :=
      if (currentSize st + funcTokens func >? maxChunkSize)
         && (0 <? length (currentChunk st))%nat
      then mkPacking (closed st ++ [currentChunk st]) [] 0
      else st in
    mkPacking (closed st) (currentChunk st ++ [func]) (currentSize st + funcTokens func).

Definition functionChunks (maxChunkSize : Z) (funcs : list FunctionAnalysis)
  : list (list FunctionAnalysis) :=
  flush (fold_left (packFunction maxChunkSize) funcs emptyPacking).

Definition methodTokens (method : ClassMethod) : Z :=
  estimateTokens (stringify_method method).

(** One iteration of [for (const method of cls.methods || [])]: the running
    group is closed whenever the next method would overflow it, also when
    the running group is still empty. *)
Definition packMethod (maxChunkSize : Z)
    (st : packing ClassMethod) (method : ClassMethod) : packing ClassMethod :=
  let st :=
    if currentSize st + methodTokens method >? maxChunkSize
    then mkPacking (closed st ++ [currentChunk st]) [] 0
    else st in
  mkPacking (closed st) (currentChunk st ++ [method]) (currentSize st + methodTokens method).

Definition methodChunks (maxChunkSize : Z) (methods : list ClassMethod)
  : list (list ClassMethod) :=
  flush (fold_left (packMethod maxChunkSize) methods emptyPacking).

Definition decimal (n : nat) : string := json_number (Z.of_nat n).

(** [`Part ${idx + 1}/${methodChunks.length} of large class`] *)
Definition partNote (idx total : nat) : string :=
  "Part " +:+ decimal (idx + 1) +:+ "/" +:+ decimal total +:+ " of large class".

(** [{ ...cls, methods, note: ... }] *)
Definition partialClass (cls : ClassAnalysis) (total idx : nat)
    (methods : list ClassMethod) : ClassAnalysis :=
  {| c_name := c_name cls;
     c_type := c_type cls;
     c_methods := methods;
     c_properties := c_properties cls;
     c_documentation := c_documentation cls;
     c_location := c_location cls;
     c_codeSnippet := c_codeSnippet cls;
     c_note := Some (partNote idx total) |}.

(** [methodChunks.forEach((methods, idx) => currentChunk.push(partialClass))] *)
Definition partialClasses (maxChunkSize : Z) (cls : ClassAnalysis)
  : list ClassAnalysis :=
  let groups := methodChunks maxChunkSize (c_methods cls) in
  imap (partialClass cls (length groups)) groups.

Definition clsTokens (cls : ClassAnalysis) : Z :=
  estimateTokens (stringify_class cls).

(** One iteration of [for (const cls of context.classes)]. *)
Definition packClass (maxChunkSize : Z)
    (st : packing ClassAnalysis) (cls : ClassAnalysis) : packing ClassAnalysis :=
  if clsTokens cls >? maxChunkSize then
    mkPacking (closed st) (currentChunk st ++ partialClasses maxChunkSize cls)
              (currentSize st)
  else
    let st :=
      if (currentSize st + clsTokens cls >? maxChunkSize)
         && (0 <? length (currentChunk st))%nat
      then mkPacking (closed st ++ [currentChunk st]) [] 0
      else st in
    mkPacking (closed st) (currentChunk st ++ [cls]) (currentSize st + clsTokens cls).

Definition classChunks (maxChunkSize : Z) (clss : list ClassAnalysis)
  : list (list ClassAnalysis) :=
  flush (fold_left (packClass maxChunkSize) clss emptyPacking).

(** [functionChunks.map(funcs => ({ ...context, functions: funcs }))] *)
Definition functionPass (context : AnalysisResult) (maxChunkSize : Z)
  : list AnalysisResult :=
  map (fun funcs => {| functions := funcs; classes := classes context |})
      (functionChunks maxChunkSize (functions context)).

(** [classChunks.map(classes => ({ ...context, classes }))] *)
Definition classPass (context : AnalysisResult) (maxChunkSize : Z)
  : list AnalysisResult :=
  map (fun clss => {| functions := functions context; classes := clss |})
      (classChunks maxChunkSize (classes context)).

Definition chunkCodebase (context : AnalysisResult) (maxChunkSize : Z)
  : list AnalysisResult :=
  let chunks := functionPass context maxChunkSize ++ classPass context maxChunkSize in
  if (0 <? length chunks)%nat then chunks else [context].

Definition defaultMaxChunkSize : Z := 32000.

(** ** What each entity contributes to the packing *)

(** An oversized function is replaced by its body-less copy. *)
Definition reduceFunction (maxChunkSize : Z) (func : FunctionAnalysis)
  : FunctionAnalysis :=
  if funcTokens func >? maxChunkSize then funcWithoutBody func else func.

(** An oversized class is replaced by its partial records. *)
Definition expandClass (maxChunkSize : Z) (cls : ClassAnalysis)
  : list ClassAnalysis :=
  if clsTokens cls >? maxChunkSize then partialClasses maxChunkSize cls else [cls].

(** The entities held by a packing state, closed chunks first. *)
Definition contents {A : Type} (st : packing A) : list A :=
  concat (closed st) ++ currentChunk st.

(** What an entity leaves in the output of a greedy loop. *)
Definition emitOf {A : Type} (tokens : A -> Z) (decompose : A -> list A)
    (maxChunkSize : Z) (x : A) : list A :=
  if tokens x >? maxChunkSize then decompose x else [x].

(** ** Quantities of the size analysis *)

Definition totalTokens {A : Type} (tokens : A -> Z) (l : list A) : Z :=
  fold_right (fun x acc => tokens x + acc) 0 l.

(** The part of a run of entities that the running size accounts for: an
    entity that is oversized on its own is pushed without being counted. *)
Definition countedTokens {A : Type} (tokens : A -> Z) (maxChunkSize : Z)
    (l : list A) : Z :=
  totalTokens (fun x => if tokens x >? maxChunkSize then 0 else tokens x) l.

(** [g] is a run of consecutive elements of [l]. *)
Definition segment_of {A : Type} (l g : list A) : Prop :=
  exists pre post, l = pre ++ g ++ post.

(** The common shape of the function loop and of the class loop. *)
Definition greedyStep {A : Type} (tokens : A -> Z) (decompose : A -> list A)
    (maxChunkSize : Z) (st : packing A) (x : A) : packing A :=
  if tokens x >? maxChunkSize then
    mkPacking (closed st) (currentChunk st ++ decompose x) (currentSize st)
  else
    let st :=
      if (currentSize st + tokens x >? maxChunkSize)
         && (0 <? length (currentChunk st))%nat
      then mkPacking (closed st ++ [currentChunk st]) [] 0
      else st in
    mkPacking (closed st) (currentChunk st ++ [x]) (currentSize st + tokens x).

(** [chunk] comes from a run [g] of consecutive inputs whose counted tokens
    fit the budget. *)
Definition bounded_chunk_of {A : Type} (tokens : A -> Z) (decompose : A -> list A)
    (maxChunkSize : Z) (inputs chunk : list A) : Prop :=
  exists g, segment_of inputs g
            /\ chunk = flat_map (emitOf tokens decompose maxChunkSize) g
            /\ countedTokens tokens maxChunkSize g <= maxChunkSize.

(** A method group respects the budget, or is one method that alone
    exceeds it. *)
Definition group_within (maxChunkSize : Z) (g : list ClassMethod) : Prop :=
  totalTokens methodTokens g <= maxChunkSize
  \/ exists m, g = [m] /\ methodTokens m > maxChunkSize.

(** [Math.ceil(a / b)] for a positive [b]. *)
Definition ceil_div (a b : Z) : Z := (a + b - 1) / b.

(** ** The file traverser ([listFilesRecursively], projectAnalyzer.ts 14-37)

    The disk is a tree of readable files and directories; a directory
    holds its entries in the order [fs.readdirSync] returns them. *)

#[warnings="-register-all"] Inductive node : Type :=
| File (content : string)
| Dir (entries : list (string * node)).

Definition IGNORED_DIRS : list string :=
  ["node_modules"; ".git"; "dist"; ".idea"; ".vscode"].

(** [IGNORED_DIRS.has(file)] *)
Definition IGNORED_DIRS_has (file : string) : bool :=
  existsb (String.eqb file) IGNORED_DIRS.

(** Whether a path ends with the separator. *)
Fixpoint endsWithSeparator (path : string) : bool :=
  match path with
  | EmptyString => false
  | String c rest =>
      match rest with
      | EmptyString => Ascii.eqb c "/"
      | String _ _ => endsWithSeparator rest
      end
  end.

(** What [path.join(dirPath, file)] puts before [file]: nothing for the
    current directory, [dirPath] with one separator at its end otherwise. *)
Definition dirPrefix (dirPath : string) : string :=
  if String.eqb dirPath EmptyString || String.eqb dirPath "." || String.eqb dirPath "./"
  then EmptyString
  else if endsWithSeparator dirPath then dirPath
  else dirPath +:+ "/".

(** [path.join(dirPath, file)] under POSIX, for a [dirPath] as
    [path.normalize] and [path.join] return them and a [file] as
    [fs.readdirSync] lists them (not empty, neither [.] nor [..], without
    separator): the normalization of [dirPath + '/' + file] has nothing to
    remove then but a leading [./] and a doubled separator.  The traverser
    calls it on no other arguments: [analyzeProject] passes it the result
    of [path.normalize], and it passes itself results of [path.join]. *)
Definition path_join (dirPath file : string) : string :=
  dirPrefix dirPath +:+ file.

(** What the body of [list.forEach] appends to [results] for the entry
    [n] found at [filePath] once its name has passed the ignore test:
    the recursive listing for a directory, the path itself otherwise. *)
Fixpoint filesAt (filePath : string) (n : node) {struct n} : list string :=
  match n with
  | File _ => [filePath]
  | Dir entries =>
      (fix forEach (entries : list (string * node)) : list string :=
         match entries with
         | [] => []
         | (file, child) :: rest =>
             (if IGNORED_DIRS_has file then []
              else filesAt (path_join filePath file) child)
             ++ forEach rest
         end) entries
  end.

(** [listFilesRecursively(dirPath)], where [entries] is what
    [fs.readdirSync(dirPath)] lists, each name with the node that
    [fs.statSync] finds under it. *)
Definition listFilesRecursively (dirPath : string)
    (entries : list (string * node)) : list string :=
  flat_map (fun entry =>
              if IGNORED_DIRS_has entry.1 then []
              else filesAt (path_join dirPath entry.1) entry.2) entries.

(** ** Positions of files in a tree *)

(** Positions in a tree: the names from the root down to a file. *)
Fixpoint allFilesAt (n : node) {struct n} : list (list string) :=
  match n with
  | File _ => [[]]
  | Dir entries =>
      (fix forEach (entries : list (string * node)) : list (list string) :=
         match entries with
         | [] => []
         | (file, child) :: rest =>
             map (cons file) (allFilesAt child) ++ forEach rest
         end) entries
  end.

(** Every file of a directory, in depth-first order, nothing pruned. *)
Definition allFiles (entries : list (string * node)) : list (list string) :=
  flat_map (fun entry => map (cons entry.1) (allFilesAt entry.2)) entries.

(** The path of a position below [dirPath]. *)
Definition pathOf (dirPath : string) (position : list string) : string :=
  fold_left path_join position dirPath.

(** The names of a position that leave a trace in its path: an empty name
    adds nothing, and neither does [.] as long as nothing stands before
    it. *)
Fixpoint effective (atStart : bool) (position : list string) : list string :=
  match position with
  | [] => []
  | name :: rest =>
      if String.eqb name EmptyString then effective atStart rest
      else if atStart && String.eqb name "." then effective atStart rest
      else name :: effective false rest
  end.

(** The names, each followed by a separator. *)
Fixpoint slashed (names : list string) : string :=
  match names with
  | [] => EmptyString
  | name :: rest => name +:+ "/" +:+ slashed rest
  end.

(** No name on the way to the file, nor the file's own name, is ignored. *)
Definition unignored (position : list string) : bool :=
  forallb (fun name => negb (IGNORED_DIRS_has name)) position.

(** No directory on the way to the file has an ignored name. *)
Definition below_no_ignored_dir (position : list string) : bool :=
  unignored (removelast position).

(** An entry name holds no path separator. *)
Fixpoint separator_free (name : string) : bool :=
  match name with
  | EmptyString => true
  | String c rest => negb (Ascii.eqb c "/") && separator_free rest
  end.

(** ** Parsers and their registry (languageParsers/*.ts) *)

(** A call returns a value or throws an error with a message. *)
Inductive outcome (A : Type) : Type :=
| Returned (value : A)
| Thrown (message : string).
Arguments Returned {A} _.
Arguments Thrown {A} _.

(** [{ functions?: FunctionAnalysis[]; classes?: ClassAnalysis[] }] *)
Record ParseResult := mkParseResult {
  pr_functions : option (list FunctionAnalysis);
  pr_classes : option (list ClassAnalysis)
}.

Record ILanguageParser := mkParser {
  parserName : string;
  canHandle : string -> bool;
  parseFile : string -> outcome ParseResult
}.

Definition isPrefixOf (p l : list ascii) : bool :=
  (length p <=? length l)%nat && forallb (fun ab => Ascii.eqb ab.1 ab.2) (combine p l).

(** [str.endsWith(suffix)] *)
Definition endsWith (str suffix : string) : bool :=
  isPrefixOf (rev (list_ascii_of_string suffix)) (rev (list_ascii_of_string str)).

(** [ParserRegistry.getParserForFile]: the first parser that can handle
    the path. *)
Definition getParserForFile (parsers : list ILanguageParser) (filePath : string)
  : option ILanguageParser :=
  List.find (fun parser => canHandle parser filePath) parsers.

(** [ParserRegistry.registerParser] *)
Definition registerParser (parsers : list ILanguageParser) (parser : ILanguageParser)
  : list ILanguageParser :=
  parsers ++ [parser].

Section Registry.
Variable tsParseFile babelParseFile : string -> outcome ParseResult.
(** [fs.readFileSync] followed by [yaml.load]: succeeds or throws. *)
Variable yamlLoad : string -> outcome unit.

Definition TypeScriptParser : ILanguageParser :=
  mkParser "TypeScriptParser"
           (fun filePath => endsWith filePath ".ts" || endsWith filePath ".tsx")
           tsParseFile.

Definition BabelParser : ILanguageParser :=
  mkParser "BabelParser"
           (fun filePath => endsWith filePath ".js" || endsWith filePath ".jsx")
           babelParseFile.

Definition YAMLParser : ILanguageParser :=
  mkParser "YAMLParser"
           (fun filePath => endsWith filePath ".yml" || endsWith filePath ".yaml")
           (fun filePath =>
              match yamlLoad filePath with
              | Returned _ => Returned (mkParseResult (Some []) (Some []))
              | Thrown err => Thrown err
              end).

(** The initial value of [ParserRegistry.parsers]. *)
Definition defaultParsers : list ILanguageParser :=
  [TypeScriptParser; BabelParser; YAMLParser].
End Registry.

(** ** The project analyzer ([analyzeProject], projectAnalyzer.ts 46-143) *)

(** [String.prototype.trim] on code units below 256. *)
Definition isWhiteSpace (c : ascii) : bool :=
  let n := nat_of_ascii c in
  ((n =? 9) || (n =? 10) || (n =? 11) || (n =? 12) || (n =? 13)
   || (n =? 32) || (n =? 160))%nat.

Fixpoint trimStart (s : string) : string :=
  match s with
  | EmptyString => EmptyString
  | String c rest => if isWhiteSpace c then trimStart rest else s
  end.

Fixpoint trimEnd (s : string) : string :=
  match s with
  | EmptyString => EmptyString
  | String c rest =>
      match trimEnd rest with
      | EmptyString => if isWhiteSpace c then EmptyString else String c EmptyString
      | kept => String c kept
      end
  end.

Definition trim (s : string) : string := trimEnd (trimStart s).

(** The calls of [logger.warn] and [logger.error]; the calls of
    [logger.info] are not recorded. *)
Inductive LogEntry : Type :=
| ErrorFolderDoesNotExist (resolvedPath : string)
| WarnNoParserFound (file : string)
| ErrorAnalyzingFile (file : string) (err : string).

(** [const codeFiles = files.filter(file => file.endsWith('.ts') ||
    file.endsWith('.js'))] *)
Definition codeFiles (files : list string) : list string :=
  List.filter (fun file => endsWith file ".ts" || endsWith file ".js") files.

Definition emptyResult : AnalysisResult := mkAnalysisResult [] [].

(** [if (result.functions) analysisResult.functions.push(...result.functions);
     if (result.classes) analysisResult.classes.push(...result.classes)] *)
Definition pushResult (analysisResult : AnalysisResult) (result : ParseResult)
  : AnalysisResult :=
  {| functions := functions analysisResult ++ default [] (pr_functions result);
     classes := classes analysisResult ++ default [] (pr_classes result) |}.

Section Analyzer.
(** The state of the world at the time of the call: what
    [path.normalize] computes, what lies on the disk at a path, what the
    parsing libraries make of a file, and the parsers registered. *)
Variable path_normalize : string -> string.
Variable disk : string -> option node.
Variable parsers : list ILanguageParser.

(** One iteration of [for (const file of codeFiles)], with its
    [try]/[catch]. *)
Definition analyzeFile (st : AnalysisResult * list LogEntry) (file : string)
  : AnalysisResult * list LogEntry :=
  match getParserForFile parsers file with
  | None => (st.1, st.2 ++ [WarnNoParserFound file])
  | Some parser =>
      match parseFile parser file with
      | Returned result => (pushResult st.1 result, st.2)
      | Thrown err => (st.1, st.2 ++ [ErrorAnalyzingFile file err])
      end
  end.

Definition analyzeFiles (files : list string) : AnalysisResult * list LogEntry :=
  fold_left analyzeFile (codeFiles files) (emptyResult, []).

(** The value or error of the call, with the log it leaves. *)
Definition analyzeProject (folder : string)
  : outcome AnalysisResult * list LogEntry :=
  let folder := trim folder in
  let resolvedPath := path_normalize folder in
  match disk resolvedPath with
  | None =>
      (Thrown ("Folder does not exist: " +:+ resolvedPath),
       [ErrorFolderDoesNotExist resolvedPath])
  | Some (File _) =>
      (* [fs.readdirSync] throws on a path that is not a directory *)
      (Thrown ("ENOTDIR: not a directory, scandir '" +:+ resolvedPath +:+ "'"), [])
  | Some (Dir entries) =>
      let files := listFilesRecursively resolvedPath entries in
      let st := analyzeFiles files in
      (Returned st.1, st.2)
  end.

(** What a file adds to the aggregate. *)
Definition contribution (file : string) : ParseResult :=
  match getParserForFile parsers file with
  | Some parser =>
      match parseFile parser file with
      | Returned result => result
      | Thrown _ => mkParseResult None None
      end
  | None => mkParseResult None None
  end.

(** The [{file, error}] pairs of the files that failed to parse. *)
Definition parseFailures (files : list string) : list (string * string) :=
  omap (fun file =>
          match getParserForFile parsers file with
          | Some parser =>
              match parseFile parser file with
              | Returned _ => None
              | Thrown err => Some (file, err)
              end
          | None => None
          end) (codeFiles files).
End Analyzer.

(** ** What a run of the analyzer amounts to *)

(** The log entry, if any, that one iteration of the loop leaves. *)
Definition fileLog (parsers : list ILanguageParser) (file : string) : list LogEntry :=
  match getParserForFile parsers file with
  | None => [WarnNoParserFound file]
  | Some parser =>
      match parseFile parser file with
      | Returned _ => []
      | Thrown err => [ErrorAnalyzingFile file err]
      end
  end.

(** The same parser, returning nothing where it would throw. *)
Definition quiet (parser : ILanguageParser) : ILanguageParser :=
  mkParser (parserName parser) (canHandle parser)
           (fun filePath =>
              match parseFile parser filePath with
              | Returned result => Returned result
              | Thrown _ => Returned (mkParseResult None None)
              end).

(** What the default registry does with a path that ends with [.ts] or
    [.js]. *)
Definition parseByExtension (tsParseFile babelParseFile : string -> outcome ParseResult)
    (file : string) : outcome ParseResult :=
  if endsWith file ".ts" then tsParseFile file else babelParseFile file.

(** A path that some parser of the registry can handle. *)
Definition recognized (parsers : list ILanguageParser) (file : string) : bool :=
  match getParserForFile parsers file with
  | Some _ => true
  | None => false
  end.

Definition outcome_functions (o : outcome ParseResult) : list FunctionAnalysis :=
  match o with
  | Returned result => default [] (pr_functions result)
  | Thrown _ => []
  end.

Definition outcome_classes (o : outcome ParseResult) : list ClassAnalysis :=
  match o with
  | Returned result => default [] (pr_classes result)
  | Thrown _ => []
  end.

Definition outcome_log (file : string) (o : outcome ParseResult) : list LogEntry :=
  match o with
  | Returned _ => []
  | Thrown err => [ErrorAnalyzingFile file err]
  end.

(** ** The chunker over a store of mutable objects

    JavaScript values are references into a store of arrays and records, so
    that sharing and mutation are explicit: [alloc] is an array or object
    literal, [push] is [Array.prototype.push], and every read goes through
    the store.  A computation takes a store and gives back its result, a
    value or a thrown error, together with the store it leaves. *)

Module Store.

Definition loc := nat.

Inductive value : Type :=
| VUndefined
| VNumber (z : Z)
| VString (s : string)
| VRef (l : loc).

Inductive object : Type :=
| OArray (elems : list value)
| ORecord (fields : list (string * value)).

Definition store := list object.

Definition M (A : Type) : Type := store -> outcome A * store.

Definition ret {A : Type} (a : A) : M A := fun s => (Returned a, s).

Definition throw {A : Type} (message : string) : M A := fun s => (Thrown message, s).

Definition bind {A B : Type} (m : M A) (k : A -> M B) : M B :=
  fun s =>
    match m s with
    | (Returned a, s') => k a s'
    | (Thrown message, s') => (Thrown message, s')
    end.

Notation "x <- m ;; k" := (bind m (fun x => k))
  (at level 100, m at level 99, right associativity).
Notation "m ;;; k" := (bind m (fun _ => k))
  (at level 100, right associativity).

(** An array or object literal: a new object at a new location. *)
Definition alloc (o : object) : M value :=
  fun s => (Returned (VRef (length s)), s ++ [o]).

Definition load (l : loc) : M object :=
  fun s =>
    match s !! l with
    | Some o => (Returned o, s)
    | None => (Thrown "ReferenceError: no object at this location", s)
    end.

(** [arr.push(v)]: the one operation that writes into an existing object. *)
Definition push (arr v : value) : M unit :=
  fun s =>
    match arr with
    | VRef l =>
        match s !! l with
        | Some (OArray elems) => (Returned tt, <[l := OArray (elems ++ [v])]> s)
        | _ => (Thrown "TypeError: push is not a function", s)
        end
    | _ => (Thrown "TypeError: push is not a function", s)
    end.

Definition lookupField (fields : list (string * value)) (key : string) : value :=
  match List.find (fun kv => String.eqb kv.1 key) fields with
  | Some kv => kv.2
  | None => VUndefined
  end.

(** The key keeps its place when it is already there, and is added last
    otherwise, as in [{ ...obj, key: v }]. *)
Fixpoint setField (fields : list (string * value)) (key : string) (v : value)
  : list (string * value) :=
  match fields with
  | [] => [(key, v)]
  | (k, old) :: rest =>
      if String.eqb k key then (k, v) :: rest
      else (k, old) :: setField rest key v
  end.

(** [v.key] for one of the keys [functions], [classes], [methods], [name]. *)
Definition getField (v : value) (key : string) : M value :=
  match v with
  | VUndefined => throw "TypeError: Cannot read properties of undefined"
  | VRef l =>
      o <- load l ;;
      match o with
      | ORecord fields => ret (lookupField fields key)
      | OArray _ => ret VUndefined
      end
  | _ => ret VUndefined
  end.

(** The own enumerable properties that a spread [...v] copies. *)
Definition ownFields (v : value) : M (list (string * value)) :=
  match v with
  | VRef l =>
      o <- load l ;;
      match o with
      | ORecord fields => ret fields
      | OArray elems => ret (imap (fun i x => (decimal i, x)) elems)
      end
  | VString s =>
      ret (imap (fun i c => (decimal i, VString (String c EmptyString)))
                (list_ascii_of_string s))
  | _ => ret []
  end.

Definition truthy (v : value) : bool :=
  match v with
  | VUndefined => false
  | VNumber z => negb (z =? 0)
  | VString s => negb (String.eqb s EmptyString)
  | VRef _ => true
  end.

(** [Array.isArray(v)] *)
Definition isArray (v : value) : M bool :=
  match v with
  | VRef l =>
      o <- load l ;;
      ret (match o with OArray _ => true | ORecord _ => false end)
  | _ => ret false
  end.

(** The values that [for (const x of v)] and [v.forEach] go through.  They
    are read when the loop starts: no loop of [chunkCodebase] pushes onto
    the array it iterates over. *)
Definition iterate (v : value) : M (list value) :=
  match v with
  | VRef l =>
      o <- load l ;;
      match o with
      | OArray elems => ret elems
      | ORecord _ => throw "TypeError: object is not iterable"
      end
  | VString s =>
      ret (map (fun c => VString (String c EmptyString)) (list_ascii_of_string s))
  | _ => throw "TypeError: value is not iterable"
  end.

(** [arr.length] of an array. *)
Definition arrayLength (arr : value) : M nat :=
  elems <- iterate arr ;; ret (length elems).

(** [[...arr]] *)
Definition copyArray (arr : value) : M value :=
  elems <- iterate arr ;; alloc (OArray elems).

Fixpoint collect {A : Type} (l : list (outcome A)) : outcome (list A) :=
  match l with
  | [] => Returned []
  | Returned a :: rest =>
      match collect rest with
      | Returned others => Returned (a :: others)
      | Thrown message => Thrown message
      end
  | Thrown message :: _ => Thrown message
  end.

(** [JSON.stringify(v)]; [None] is the result [undefined].  A nesting
    deeper than the number of objects of the store goes through some
    object twice: the structure is circular and [JSON.stringify] throws. *)
Fixpoint serialize (fuel : nat) (s : store) (v : value) : outcome (option string) :=
  match v with
  | VUndefined => Returned None
  | VNumber z => Returned (Some (json_number z))
  | VString str => Returned (Some (json_string str))
  | VRef l =>
      match fuel with
      | O => Thrown "TypeError: Converting circular structure to JSON"
      | S fuel =>
          match s !! l with
          | None => Thrown "ReferenceError: no object at this location"
          | Some (OArray elems) =>
              match collect (map (serialize fuel s) elems) with
              | Returned parts =>
                  Returned (Some (json_array (map (default "null") parts)))
              | Thrown message => Thrown message
              end
          | Some (ORecord fields) =>
              match collect (map (fun kv => serialize fuel s kv.2) fields) with
              | Returned parts =>
                  Returned (Some (json_object (combine (map fst fields) parts)))
              | Thrown message => Thrown message
              end
          end
      end
  end.

(** [estimateTokens(JSON.stringify(v))] *)
Definition stringifyTokens (v : value) : M Z :=
  fun s =>
    match serialize (S (length s)) s v with
    | Returned (Some str) => (Returned (estimateTokens str), s)
    | Returned None =>
        (Thrown "TypeError: Cannot read properties of undefined (reading 'length')", s)
    | Thrown message => (Thrown message, s)
    end.

Fixpoint forEach {A S : Type} (l : list A) (body : S -> A -> M S) (st : S) : M S :=
  match l with
  | [] => ret st
  | x :: rest => st' <- body st x ;; forEach rest body st'
  end.

Fixpoint mapM {A B : Type} (f : A -> M B) (l : list A) : M (list B) :=
  match l with
  | [] => ret []
  | x :: rest => y <- f x ;; ys <- mapM f rest ;; ret (y :: ys)
  end.

(** [if (size + tokens > maxChunkSize && currentChunk.length > 0)
      { chunks.push([...currentChunk]); currentChunk = []; currentSize = 0 }] *)
Definition closeIfFull (maxChunkSize : Z) (chunkList : value) (tokens : Z)
    (st : value * Z) : M (value * Z) :=
  len <- arrayLength st.1 ;;
  if (st.2 + tokens >? maxChunkSize) && (0 <? len)%nat then
    copy <- copyArray st.1 ;;
    push chunkList copy ;;;
    fresh <- alloc (OArray []) ;;
    ret (fresh, 0)
  else ret st.

(** One iteration of [for (const func of context.functions)]; the state is
    the pair of the variables [currentChunk] and [currentSize]. *)
Definition packFunction (maxChunkSize : Z) (functionChunks : value)
    (st : value * Z) (func : value) : M (value * Z) :=
  funcTokens <- stringifyTokens func ;;
  getField func "name" ;;;
  if funcTokens >? maxChunkSize then
    fields <- ownFields func ;;
    funcWithoutBody <- alloc (ORecord (setField fields "body" (VString truncated_body))) ;;
    stringifyTokens funcWithoutBody ;;;
    push st.1 funcWithoutBody ;;;
    ret st
  else
    st <- closeIfFull maxChunkSize functionChunks funcTokens st ;;
    push st.1 func ;;;
    ret (st.1, st.2 + funcTokens).

(** [if (currentChunk.length > 0) chunkList.push(currentChunk)] *)
Definition flushInto (chunkList currentChunk : value) : M unit :=
  len <- arrayLength currentChunk ;;
  if (0 <? len)%nat then push chunkList currentChunk else ret tt.

(** One iteration of [for (const method of cls.methods || [])]. *)
Definition packMethod (maxChunkSize : Z) (methodChunks : value)
    (st : value * Z) (method : value) : M (value * Z) :=
  methodTokens <- stringifyTokens method ;;
  st <- (if st.2 + methodTokens >? maxChunkSize then
           copy <- copyArray st.1 ;;
           push methodChunks copy ;;;
           fresh <- alloc (OArray []) ;;
           ret (fresh, 0)
         else ret st) ;;
  push st.1 method ;;;
  ret (st.1, st.2 + methodTokens).

(** The branch [if (clsTokens > maxChunkSize)] of the class loop. *)
Definition splitClass (maxChunkSize : Z) (currentChunk cls : value) : M unit :=
  methodChunks <- alloc (OArray []) ;;
  currentMethods <- alloc (OArray []) ;;
  methods <- getField cls "methods" ;;
  methods <- (if truthy methods then ret methods else alloc (OArray [])) ;;
  methodList <- iterate methods ;;
  st <- forEach methodList (packMethod maxChunkSize methodChunks) (currentMethods, 0) ;;
  flushInto methodChunks st.1 ;;;
  groups <- iterate methodChunks ;;
  forEach (imap (fun idx methods => (idx, methods)) groups)
          (fun (_ : unit) part =>
             fields <- ownFields cls ;;
             partialClass <-
               alloc (ORecord
                        (setField (setField fields "methods" part.2) "note"
                                  (VString (partNote part.1 (length groups))))) ;;
             push currentChunk partialClass)
          tt.

(** One iteration of [for (const cls of context.classes)]. *)
Definition packClass (maxChunkSize : Z) (classChunks : value)
    (st : value * Z) (cls : value) : M (value * Z) :=
  clsTokens <- stringifyTokens cls ;;
  getField cls "name" ;;;
  if clsTokens >? maxChunkSize then
    splitClass maxChunkSize st.1 cls ;;;
    ret st
  else
    st <- closeIfFull maxChunkSize classChunks clsTokens st ;;
    push st.1 cls ;;;
    ret (st.1, st.2 + clsTokens).

(** [chunks.push(...chunkList.map(list => ({ ...context, [key]: list })))] *)
Definition pushChunks (chunks context : value) (key : string) (chunkList : value)
  : M unit :=
  lists <- iterate chunkList ;;
  made <- mapM (fun list =>
                  fields <- ownFields context ;;
                  alloc (ORecord (setField fields key list))) lists ;;
  forEach made (fun (_ : unit) chunk => push chunks chunk) tt.

(** [if (context[key] && Array.isArray(context[key])) { ... }] with the
    loop body [step]. *)
Definition pass (step : value -> value * Z -> value -> M (value * Z))
    (chunks context : value) (key : string) : M unit :=
  entities <- getField context key ;;
  isArr <- isArray entities ;;
  if truthy entities && isArr then
    chunkList <- alloc (OArray []) ;;
    currentChunk <- alloc (OArray []) ;;
    entityList <- iterate entities ;;
    st <- forEach entityList (step chunkList) (currentChunk, 0) ;;
    flushInto chunkList st.1 ;;;
    pushChunks chunks context key chunkList
  else ret tt.

Definition chunkCodebase (context : value) (maxChunkSize : Z) : M value :=
  chunks <- alloc (OArray []) ;;
  pass (packFunction maxChunkSize) chunks context "functions" ;;;
  pass (packClass maxChunkSize) chunks context "classes" ;;;
  chunkList <- iterate chunks ;;
  forEach chunkList (fun (_ : unit) chunk => stringifyTokens chunk ;;; ret tt) tt ;;;
  if (0 <? length chunkList)%nat then ret chunks else alloc (OArray [context]).

End Store.

(** ** Frame conditions on store computations

    [n] is the number of objects in the store when [chunkCodebase] is
    called: the locations below [n] hold the caller's objects. *)

(** The caller's objects are the same in [s'] as in [s]. *)
Definition preserves (n : nat) (s s' : Store.store) : Prop :=
  take n s' = take n s /\ (length s <= length s')%nat.

(** From any store that has the caller's objects, [m] leaves them as they
    are, whether it returns or throws, and what it returns satisfies [Q]. *)
Definition framed {A : Type} (n : nat) (m : Store.M A) (Q : A -> Prop) : Prop :=
  forall s, (n <= length s)%nat ->
            preserves n s (m s).2 /\ forall a, (m s).1 = Returned a -> Q a.

(** A reference to an object created during the call. *)
Definition fresh (n : nat) (v : Store.value) : Prop :=
  exists l, v = Store.VRef l /\ (n <= l)%nat.

(** A computation that only reads the store. *)
Definition readonly {A : Type} (m : Store.M A) : Prop :=
  forall s, (m s).2 = s.

(** ** The data model laid out in the store

    An [AnalysisResult] as the parsers build it: one object per entity,
    one array per list, nested objects and arrays held by reference. *)

Module Encode.
Import Store.

Definition optional (key : string) (o : option string) : list (string * value) :=
  match o with
  | Some str => [(key, VString str)]
  | None => []
  end.

Definition encodeParameter (p : ParameterT) : M value :=
  alloc (ORecord [("name", VString (p_name p)); ("type", VString (p_type p))]).

Definition encodeLocation (l : Location) : M value :=
  alloc (ORecord [("file", VString (l_file l));
                  ("startLine", VNumber (l_startLine l));
                  ("endLine", VNumber (l_endLine l))]).

Definition encodeFunction (f : FunctionAnalysis) : M value :=
  params <- mapM encodeParameter (f_parameters f) ;;
  parameters <- alloc (OArray params) ;;
  location <- encodeLocation (f_location f) ;;
  alloc (ORecord ([("name", VString (f_name f))]
                  ++ optional "type" (f_type f)
                  ++ [("parameters", parameters);
                      ("returnType", VString (f_returnType f))]
                  ++ optional "body" (f_body f)
                  ++ optional "codeSnippet" (f_codeSnippet f)
                  ++ [("documentation", VString (f_documentation f));
                      ("location", location)])).

Definition encodeProperty (p : ClassProperty) : M value :=
  alloc (ORecord [("name", VString (cp_name p));
                  ("type", VString (cp_type p));
                  ("documentation", VString (cp_documentation p))]).

Definition encodeMethod (m : ClassMethod) : M value :=
  params <- mapM encodeParameter (m_parameters m) ;;
  parameters <- alloc (OArray params) ;;
  location <- match m_location m with
              | Some l => l' <- encodeLocation l ;; ret [("location", l')]
              | None => ret []
              end ;;
  alloc (ORecord ([("name", VString (m_name m))]
                  ++ optional "type" (m_type m)
                  ++ [("parameters", parameters);
                      ("returnType", VString (m_returnType m))]
                  ++ optional "body" (m_body m)
                  ++ optional "codeSnippet" (m_codeSnippet m)
                  ++ [("documentation", VString (m_documentation m))]
                  ++ location)).

Definition encodeClass (c : ClassAnalysis) : M value :=
  ms <- mapM encodeMethod (c_methods c) ;;
  methods <- alloc (OArray ms) ;;
  ps <- mapM encodeProperty (c_properties c) ;;
  properties <- alloc (OArray ps) ;;
  location <- encodeLocation (c_location c) ;;
  alloc (ORecord ([("name", VString (c_name c))]
                  ++ optional "type" (c_type c)
                  ++ [("methods", methods);
                      ("properties", properties);
                      ("documentation", VString (c_documentation c));
                      ("location", location)]
                  ++ optional "codeSnippet" (c_codeSnippet c)
                  ++ optional "note" (c_note c))).

Definition encodeResult (r : AnalysisResult) : M value :=
  fs <- mapM encodeFunction (functions r) ;;
  functions <- alloc (OArray fs) ;;
  cs <- mapM encodeClass (classes r) ;;
  classes <- alloc (OArray cs) ;;
  alloc (ORecord [("functions", functions); ("classes", classes)]).

(** The serializations of the chunks that the store-level chunker returns
    for the encoding of [r]. *)
Definition chunkSerializations (r : AnalysisResult) (maxChunkSize : Z)
  : outcome (list (outcome (option string))) :=
  let run := (context <- encodeResult r ;;
              chunks <- Store.chunkCodebase context maxChunkSize ;;
              iterate chunks) [] in
  match run.1 with
  | Returned chunks => Returned (map (serialize (S (length run.2)) run.2) chunks)
  | Thrown message => Thrown message
  end.

End Encode.

(** ** Sample entities used in the concrete evaluations below *)

Definition sample_location : Location := mkLocation "a.ts" 1 3.

Definition sample_function : FunctionAnalysis :=
  mkFunctionAnalysis "f" None [mkParameter "a" "any"] "void"
                     (Some "{ return 1; }") None EmptyString sample_location.

Definition big_function : FunctionAnalysis :=
  mkFunctionAnalysis "big" None [] "number"
    (Some "{ let total = 0; for (const x of xs) { total += x; } return total; }")
    None EmptyString sample_location.

Definition sample_method : ClassMethod :=
  mkClassMethod "m" None [] "void" (Some "{}") None EmptyString None.

Definition sample_class : ClassAnalysis :=
  mkClassAnalysis "C" None [sample_method; sample_method; sample_method] []
                  EmptyString sample_location None None.

(** A class of 58 methods of 21 tokens each. *)
Definition padded_method : ClassMethod :=
  mkClassMethod "m" None [] "void" (Some "{  }") None EmptyString None.

Definition wide_class : ClassAnalysis :=
  mkClassAnalysis "C" None (List.repeat padded_method 58) []
                  EmptyString sample_location None None.

Definition sample_result : AnalysisResult :=
  mkAnalysisResult [sample_function] [sample_class].

Definition exact_result : AnalysisResult :=
  mkAnalysisResult [sample_function] [].

Definition two_function_result : AnalysisResult :=
  mkAnalysisResult [sample_function; big_function; sample_function]
                   [sample_class; sample_class].

(** Sample worlds for the concrete evaluations. *)
Definition parseFoo (filePath : string) : outcome ParseResult :=
  Returned (mkParseResult (Some [sample_function]) (Some [])).

Definition parseFails (filePath : string) : outcome ParseResult :=
  Thrown "SyntaxError: Unexpected token".

Definition parseNothing (filePath : string) : outcome ParseResult :=
  Returned (mkParseResult (Some []) (Some [])).

Definition loadsFine (filePath : string) : outcome unit := Returned tt.

Definition sample_disk (tree : node) (filePath : string) : option node :=
  if String.eqb filePath "/p" then Some tree else None.

Definition same_path (filePath : string) : string := filePath.

(** A directory whose only file does not parse. *)
Definition broken_entries : list (string * node) := [("b.ts", File "function (")].

(** A string of white space only. *)
Fixpoint allWhiteSpace (s : string) : bool :=
  match s with
  | EmptyString => true
  | String c rest => isWhiteSpace c && allWhiteSpace rest
  end.

(** ** Documentation comments ([extractDocumentation], babelParser.ts) *)

Inductive CommentType : Type := CommentBlock | CommentLine.

(** A comment node of the Babel AST. *)
Record Comment := mkComment {
  comment_type : CommentType;
  comment_value : string
}.

Definition isCommentBlock (c : Comment) : bool :=
  match comment_type c with
  | CommentBlock => true
  | CommentLine => false
  end.

(** [extractDocumentation(path)], given [path.node.leadingComments];
    [None] stands for a node without that key. *)
Definition extractDocumentation (leadingComments : option (list Comment)) : string :=
  match leadingComments with
  | None => EmptyString
  | Some comments =>
      match last comments with
      | None => EmptyString
      | Some docBlock =>
          if isCommentBlock docBlock then trim (comment_value docBlock)
          else EmptyString
      end
  end.

(** The first and the last character of a string. *)
Definition firstChar (s : string) : option ascii :=
  match s with
  | EmptyString => None
  | String c _ => Some c
  end.

Fixpoint lastChar (s : string) : option ascii :=
  match s with
  | EmptyString => None
  | String c rest =>
      match lastChar rest with
      | None => Some c
      | Some d => Some d
      end
  end.

(** Neither the first nor the last character is white space. *)
Definition trimmed (s : string) : Prop :=
  (forall c, firstChar s = Some c -> isWhiteSpace c = false)
  /\ (forall c, lastChar s = Some c -> isWhiteSpace c = false).




(** The summed length of the parts of a list of strings. *)
Definition totalLength (l : list string) : nat :=
  fold_right (fun part acc => (String.length part + acc)%nat) 0%nat l.

(** A function as the Babel parser builds it: a [codeSnippet], no [body]. *)
Definition babel_function : FunctionAnalysis :=
  mkFunctionAnalysis "sum" (Some "function") [mkParameter "xs" "any"] "any"
    None (Some "function sum(xs) { return xs.reduce((a, b) => a + b, 0); }")
    EmptyString sample_location.


(** ** Responses of the text-generation service
    ([validateResponseStructure] and [sendQuery], openaiClient.ts)

    A response is what [JSON.parse] returns: a tree of JSON values.  The
    result of reading a property is a value or [undefined], here [None].
    A number stands for its integer value, the code testing numbers for
    nothing but being zero; an object is the list of its keys with their
    values, the first entry of a key being the one that counts. *)

#[warnings="-register-all"] Inductive json : Type :=
| JNull
| JBool (b : bool)
| JNumber (z : Z)
| JString (s : string)
| JArray (elems : list json)
| JObject (fields : list (string * json)).

(** [v[key]] for the keys that the code reads: none of them is an index,
    [length] or a name inherited from a prototype. *)
Definition property (v : json) (key : string) : option json :=
  match v with
  | JObject fields => snd <$> List.find (fun kv => String.eqb kv.1 key) fields
  | _ => None
  end.

(** [key in v], for the same keys. *)
Definition hasProperty (key : string) (v : json) : bool :=
  match v with
  | JObject fields => existsb (fun kv => String.eqb kv.1 key) fields
  | _ => false
  end.

(** The truth value of [v] in a condition. *)
Definition isTruthy (v : option json) : bool :=
  match v with
  | None => false
  | Some JNull => false
  | Some (JBool b) => b
  | Some (JNumber z) => negb (z =? 0)
  | Some (JString s) => negb (String.eqb s EmptyString)
  | Some (JArray _) => true
  | Some (JObject _) => true
  end.

(** [typeof v === 'object'] *)
Definition typeofObject (v : json) : bool :=
  match v with
  | JNull | JArray _ | JObject _ => true
  | _ => false
  end.

(** [Array.isArray(v)] *)
Definition isJsonArray (v : option json) : bool :=
  match v with
  | Some (JArray _) => true
  | _ => false
  end.

(** The negation of the guard [!v || typeof v !== 'object']. *)
Definition objectLike (v : json) : bool :=
  isTruthy (Some v) && typeofObject v.

Definition validateComponent (component : json) : bool :=
  if negb (objectLike component) then false
  else forallb (fun field => isTruthy (property component field))
               ["type"; "name"; "description"].

Definition validateFunction (func : json) : bool :=
  if negb (objectLike func) then false
  else if negb (forallb (fun field => hasProperty field func)
                        ["name"; "description"; "parameters"; "returnType"])
  then false
  else isJsonArray (property func "parameters").

Definition validateClass (cls : json) : bool :=
  if negb (objectLike cls) then false
  else if negb (forallb (fun field => hasProperty field cls)
                        ["name"; "methods"; "properties"])
  then false
  else if negb (isJsonArray (property cls "methods")) then false
  else isJsonArray (property cls "properties").

Definition validateModule (module : json) : bool :=
  if negb (objectLike module) then false
  else if negb (forallb (fun field => isTruthy (property module field))
                        ["name"; "description"])
  then false
  else if isTruthy (property module "imports")
          && negb (isJsonArray (property module "imports")) then false
  else if isTruthy (property module "exports")
          && negb (isJsonArray (property module "exports")) then false
  else if isTruthy (property module "dependencies")
          && negb (isJsonArray (property module "dependencies")) then false
  else true.

(** One of the three blocks [if (functions) { ... }]: [None] when the block
    returns [false], otherwise whether it sets [hasValidContent]. *)
Definition checkContent (validate : json -> bool) (v : option json) : option bool :=
  if isTruthy v then
    match v with
    | Some (JArray items) =>
        if forallb validate items then Some (0 <? length items)%nat else None
    | _ => None
    end
  else Some false.

Definition validateResponseStructure (response : json) (responseFormat : option json)
  : bool :=
  if negb (objectLike response) then false
  else if isTruthy responseFormat then true
  else if isTruthy (property response "components")
          && isJsonArray (property response "components")
  then
    match property response "components" with
    | Some (JArray components) => forallb validateComponent components
    | _ => false
    end
  else
    match property response "analysis" with
    | Some analysis =>
        if isTruthy (Some analysis) && typeofObject analysis then
          match checkContent validateFunction (property analysis "functions") with
          | None => false
          | Some hasFunctions =>
              match checkContent validateClass (property analysis "classes") with
              | None => false
              | Some hasClasses =>
                  match checkContent validateModule (property analysis "modules") with
                  | None => false
                  | Some hasModules => hasFunctions || hasClasses || hasModules
                  end
              end
          end
        else false
    | None => false
    end.

(** [s.indexOf(c)] and [s.lastIndexOf(c)] for a character, [None] for -1. *)
Fixpoint indexOf (c : ascii) (s : string) : option nat :=
  match s with
  | EmptyString => None
  | String d rest => if Ascii.eqb d c then Some 0%nat else S <$> indexOf c rest
  end.

Fixpoint lastIndexOf (c : ascii) (s : string) : option nat :=
  match s with
  | EmptyString => None
  | String d rest =>
      match lastIndexOf c rest with
      | Some i => Some (S i)
      | None => if Ascii.eqb d c then Some 0%nat else None
      end
  end.

Definition indexOrMinusOne (i : option nat) : Z :=
  match i with
  | Some n => Z.of_nat n
  | None => -1
  end.

(** [s.slice(start, end)] *)
Definition slice (s : string) (start finish : Z) : string :=
  let len := Z.of_nat (String.length s) in
  let from := if start <? 0 then Z.max (len + start) 0 else Z.min start len in
  let to := if finish <? 0 then Z.max (len + finish) 0 else Z.min finish len in
  String.substring (Z.to_nat from) (Z.to_nat (Z.max (to - from) 0)) s.

(** The text handed to [JSON.parse]: from the first opening brace to the
    last closing brace. *)
Definition extractJson (response : string) : string :=
  let jsonStart := indexOrMinusOne (indexOf "{" response) in
  let jsonEnd := indexOrMinusOne (lastIndexOf "}" response) + 1 in
  slice response jsonStart jsonEnd.

Section Interpretation.
(** What [JSON.parse] makes of a text: a value, or a [SyntaxError] with
    its message. *)
Variable JSON_parse : string -> outcome json.

(** What [sendQuery] does with [completion.choices[0].message?.content]. *)
Definition interpretResponse (content : option string) (responseFormat : option json)
  : outcome (option json) :=
  match content with
  | None => Thrown "No response received from OpenAI"
  | Some response =>
      if String.eqb response EmptyString then Thrown "No response received from OpenAI"
      else
        match JSON_parse (extractJson response) with
        | Thrown message =>
            Thrown ("Failed to parse OpenAI response as JSON: " +:+ message)
        | Returned parsedResponse =>
            if negb (validateResponseStructure parsedResponse responseFormat) then
              Thrown ("Failed to parse OpenAI response as JSON: "
                      +:+ "Invalid response structure")
            else if isTruthy responseFormat then Returned (Some parsedResponse)
            else if isTruthy (property parsedResponse "analysis")
            then Returned (property parsedResponse "analysis")
            else Returned (property parsedResponse "components")
        end
  end.
End Interpretation.

(** A block [if (v) { ... }] of the analysis passes: [v] is falsy, or an
    array of valid items. *)
Definition contentOk (validate : json -> bool) (v : option json) : Prop :=
  isTruthy v = false
  \/ exists items, v = Some (JArray items) /\ forallb validate items = true.

Definition nonEmptyArray (v : option json) : Prop :=
  exists item items, v = Some (JArray (item :: items)).

(** An answer with valid [components] and an [analysis] that is a string. *)
Definition mixed_answer : json :=
  JObject [("components",
            JArray [JObject [("type", JString "class"); ("name", JString "C");
                             ("description", JString "a class")]]);
           ("analysis", JString "see components")].


(** ** The code sent to the service ([optimizeCode] and
    [extractEssentialCode], openaiClient.ts 262-286) *)

(** [s.replace(re, '')] for a global regular expression [re] that looks
    neither behind nor matches the empty text: [matchLength s] is the
    length of the match of [re] that starts at the head of [s], and [skip]
    counts the characters of the current match still to be dropped. *)
Fixpoint removeMatches (matchLength : string -> option nat) (skip : nat) (s : string)
  : string :=
  match s with
  | EmptyString => EmptyString
  | String c rest =>
      match skip with
      | S k => removeMatches matchLength k rest
      | O =>
          match matchLength s with
          | Some (S k) => removeMatches matchLength k rest
          | _ => String c (removeMatches matchLength O rest)
          end
      end
  end.

(** What follows [p] in [s], when [s] starts with [p]. *)
Fixpoint stripPrefix (p s : string) : option string :=
  match p, s with
  | EmptyString, _ => Some s
  | String a p', String b s' => if Ascii.eqb a b then stripPrefix p' s' else None
  | String _ _, EmptyString => None
  end.

(** [s.indexOf(t)], [None] for -1. *)
Fixpoint indexOfText (t s : string) : option nat :=
  match stripPrefix t s with
  | Some _ => Some 0%nat
  | None =>
      match s with
      | EmptyString => None
      | String _ rest => S <$> indexOfText t rest
      end
  end.

(** [/\/\*[\s\S]*?\*\//]: an opening mark and all up to the next closing
    mark. *)
Definition blockCommentLength (s : string) : option nat :=
  match stripPrefix "/*" s with
  | Some rest => (fun k => 2 + k + 2)%nat <$> indexOfText "*/" rest
  | None => None
  end.

Definition isLineTerminator (c : ascii) : bool :=
  let n := nat_of_ascii c in ((n =? 10) || (n =? 13))%nat.

(** The length of the longest match of [.*] *)
Fixpoint restOfLine (s : string) : nat :=
  match s with
  | EmptyString => 0%nat
  | String c rest => if isLineTerminator c then 0%nat else S (restOfLine rest)
  end.

(** [/\/\/.*/] *)
Definition lineCommentLength (s : string) : option nat :=
  match stripPrefix "//" s with
  | Some rest => Some (2 + restOfLine rest)%nat
  | None => None
  end.

(** [\([^)]*\);?] *)
Definition consoleArguments (s : string) : option nat :=
  match stripPrefix "(" s with
  | Some args =>
      match indexOf ")" args with
      | Some k =>
          match String.get (S k) args with
          | Some ";"%char => Some (1 + k + 2)%nat
          | _ => Some (1 + k + 1)%nat
          end
      | None => None
      end
  | None => None
  end.

(** The first alternative of [levels] that lets the rest match. *)
Fixpoint consoleLevel (levels : list string) (s : string) : option nat :=
  match levels with
  | [] => None
  | level :: others =>
      match
        match stripPrefix level s with
        | Some rest => (fun n => String.length level + n)%nat <$> consoleArguments rest
        | None => None
        end
      with
      | Some n => Some n
      | None => consoleLevel others s
      end
  end.

(** [/console\.(log|warn|error|info|debug)\([^)]*\);?/] *)
Definition consoleLength (s : string) : option nat :=
  match stripPrefix "console." s with
  | Some rest =>
      (fun n => 8 + n)%nat <$> consoleLevel ["log"; "warn"; "error"; "info"; "debug"] rest
  | None => None
  end.

(** [s.replace(/\s+/g, ' ')]; [inRun] tells that the previous character
    was white space. *)
Fixpoint normalizeWhitespace (inRun : bool) (s : string) : string :=
  match s with
  | EmptyString => EmptyString
  | String c rest =>
      if isWhiteSpace c then
        if inRun then normalizeWhitespace true rest
        else String " " (normalizeWhitespace true rest)
      else String c (normalizeWhitespace false rest)
  end.

Definition optimizeCode (code : string) : string :=
  if String.eqb code EmptyString then EmptyString
  else
    trim (normalizeWhitespace false
            (removeMatches consoleLength 0
               (removeMatches lineCommentLength 0
                  (removeMatches blockCommentLength 0 code)))).

(** [s.split(sep)] for a separator of one character. *)
Fixpoint split (sep : ascii) (s : string) : list string :=
  match s with
  | EmptyString => [EmptyString]
  | String c rest =>
      if Ascii.eqb c sep then EmptyString :: split sep rest
      else
        match split sep rest with
        | line :: lines => String c line :: lines
        | [] => [String c EmptyString]
        end
  end.

(** [l.slice(-n)] *)
Definition lastItems {A : Type} (n : nat) (l : list A) : list A :=
  drop (length l - n) l.

Definition implementationMark : string :=
  String (ascii_of_nat 10)
    ("  // ... implementation ..." +:+ String (ascii_of_nat 10) EmptyString).

Definition extractEssentialCode (body : string) : string :=
  let cleanBody := optimizeCode body in
  if (500 <? String.length cleanBody)%nat then
    let lines := split (ascii_of_nat 10) cleanBody in
    let firstLines := String.concat (String (ascii_of_nat 10) EmptyString) (take 3 lines) in
    let lastLines :=
      String.concat (String (ascii_of_nat 10) EmptyString) (lastItems 2 lines) in
    firstLines +:+ implementationMark +:+ lastLines
  else cleanBody.

(** The characters of a text. *)
Fixpoint occurs (c : ascii) (s : string) : Prop :=
  match s with
  | EmptyString => False
  | String d rest => d = c \/ occurs c rest
  end.

(** No white space follows white space. *)
Fixpoint singleSpaced (s : string) : Prop :=
  match s with
  | EmptyString => True
  | String c rest =>
      match rest with
      | EmptyString => True
      | String d _ => ~ (isWhiteSpace c = true /\ isWhiteSpace d = true)
      end
      /\ singleSpaced rest
  end.

(** A body of [n] letters. *)
Fixpoint letters (n : nat) : string :=
  match n with
  | O => EmptyString
  | S k => String "a" (letters k)
  end.


(** ** The chunked analysis ([analyzeChunkedCodebase], openaiClient.ts
    538-656)

    The service is an oracle: the answer to a call is a function of the
    number of calls made before and of the query, so that the same query
    may be answered differently when sent again. *)

(** The three prompt texts. *)
Inductive Prompt : Type := OverviewPrompt | ComponentPrompt | DependencyPrompt.

Record Query := mkQuery {
  q_prompt : Prompt;
  q_context : AnalysisResult;
  q_responseFormat : option json
}.

Record ChunkedAnalysis := mkChunkedAnalysis {
  overview : option json;
  components : list (option json);
  dependencies : option json
}.

(** [l.flat()] *)
Definition flat (l : list (option json)) : list (option json) :=
  concat (map (fun v => match v with
                        | Some (JArray elems) => map Some elems
                        | _ => [v]
                        end) l).

Section ChunkedAnalysis.
Variable JSON_parse : string -> outcome json.
(** The call of [openai.chat.completions.create] after [n] earlier calls:
    the content of the first choice, or the failure of the call. *)
Variable complete : nat -> Query -> outcome (option string).
(** The fields of the two schema literals, of which the code uses nothing
    but that they are objects. *)
Variables overviewSchema dependencySchema : list (string * json).

(** What [sendQuery] returns to the call that follows [n] earlier calls. *)
Definition answer (n : nat) (query : Query) : outcome (option json) :=
  match complete n query with
  | Thrown message => Thrown message
  | Returned content => interpretResponse JSON_parse content (q_responseFormat query)
  end.

(** [sendQuery], with the queries sent so far. *)
Definition sendQuery (query : Query) (sent : list Query)
  : outcome (option json) * list Query :=
  (answer (length sent) query, sent ++ [query]).

Definition overviewQuery (context : AnalysisResult) : Query :=
  mkQuery OverviewPrompt context (Some (JObject overviewSchema)).

Definition componentQuery (chunk : AnalysisResult) : Query :=
  mkQuery ComponentPrompt chunk None.

Definition dependencyQuery (context : AnalysisResult) : Query :=
  mkQuery DependencyPrompt context (Some (JObject dependencySchema)).

(** The loop over the chunks. *)
Fixpoint analyzeChunks (chunks : list AnalysisResult)
    (componentAnalyses : list (option json)) (sent : list Query)
  : outcome (list (option json)) * list Query :=
  match chunks with
  | [] => (Returned componentAnalyses, sent)
  | chunk :: rest =>
      match sendQuery (componentQuery chunk) sent with
      | (Thrown message, sent') => (Thrown message, sent')
      | (Returned chunkAnalysis, sent') =>
          analyzeChunks rest (componentAnalyses ++ [chunkAnalysis]) sent'
      end
  end.

Definition analyzeChunkedCodebase (context : AnalysisResult)
  : outcome ChunkedAnalysis * list Query :=
  match sendQuery (overviewQuery context) [] with
  | (Thrown message, sent) => (Thrown message, sent)
  | (Returned overview, sent) =>
      let chunks := chunkCodebase context defaultMaxChunkSize in
      match analyzeChunks chunks [] sent with
      | (Thrown message, sent) => (Thrown message, sent)
      | (Returned componentAnalyses, sent) =>
          let components := flat componentAnalyses in
          match sendQuery (dependencyQuery context) sent with
          | (Thrown message, sent) => (Thrown message, sent)
          | (Returned dependencies, sent) =>
              (Returned (mkChunkedAnalysis overview components dependencies), sent)
          end
      end
  end.

(** The queries of a run in which no call fails. *)
Definition allQueries (context : AnalysisResult) : list Query :=
  overviewQuery context
  :: map componentQuery (chunkCodebase context defaultMaxChunkSize)
  ++ [dependencyQuery context].
End ChunkedAnalysis.

(** A service that answers every call with the same text. *)
Definition constantService (content : string) (n : nat) (query : Query)
  : outcome (option string) :=
  Returned (Some content).

(** A parser that knows one text. *)
Definition parseAs (parsed : json) (text : string) : outcome json :=
  Returned parsed.

(** An answer accepted for its [analysis]. *)
Definition analysis_answer : json :=
  JObject [("analysis",
            JObject [("functions",
                      JArray [JObject [("name", JString "f");
                                       ("description", JString "a function");
                                       ("parameters", JArray []);
                                       ("returnType", JString "void")]])])].

(** What the analysis of [sample_result] returns when every call is
    answered with [analysis_answer]. *)
Definition sample_analysis : ChunkedAnalysis :=
  mkChunkedAnalysis (Some analysis_answer)
    [property analysis_answer "analysis"; property analysis_answer "analysis"]
    (Some analysis_answer).


(** ** The context sent to the service ([sendQuery], openaiClient.ts
    287-325)

    The records that [sendQuery] builds from a context before it is
    serialized; the key [_meta] that it adds holds the time of the call and
    two constants. *)

Record OptimizedFunction := mkOptimizedFunction {
  of_name : string;
  of_parameters : list ParameterT;
  of_returnType : string;
  of_body : string;
  of_documentation : string;
  of_location : Location
}.

Record OptimizedMethod := mkOptimizedMethod {
  om_name : string;
  om_parameters : list ParameterT;
  om_returnType : string;
  om_body : string;
  om_documentation : string
}.

Record OptimizedClass := mkOptimizedClass {
  oc_name : string;
  oc_methods : list OptimizedMethod;
  oc_properties : list ClassProperty;
  oc_documentation : string;
  oc_location : Location
}.

Record OptimizedContext := mkOptimizedContext {
  o_functions : list OptimizedFunction;
  o_classes : list OptimizedClass
}.

Section ContextOptimization.
Variable path_basename : string -> string.

Definition optimizeLocation (location : Location) : Location :=
  {| l_file := path_basename (l_file location);
     l_startLine := l_startLine location;
     l_endLine := l_endLine location |}.

(** [body || ''] *)
Definition bodyOrEmpty (body : option string) : string :=
  match body with
  | Some text => text
  | None => EmptyString
  end.

Definition optimizeFunction (func : FunctionAnalysis) : OptimizedFunction :=
  {| of_name := f_name func;
     of_parameters := f_parameters func;
     of_returnType := f_returnType func;
     of_body := extractEssentialCode (bodyOrEmpty (f_body func));
     of_documentation := f_documentation func;
     of_location := optimizeLocation (f_location func) |}.

Definition optimizeMethod (method : ClassMethod) : OptimizedMethod :=
  {| om_name := m_name method;
     om_parameters := m_parameters method;
     om_returnType := m_returnType method;
     om_body := extractEssentialCode (bodyOrEmpty (m_body method));
     om_documentation := m_documentation method |}.

Definition optimizeClass (cls : ClassAnalysis) : OptimizedClass :=
  {| oc_name := c_name cls;
     oc_methods := map optimizeMethod (c_methods cls);
     oc_properties := c_properties cls;
     oc_documentation := c_documentation cls;
     oc_location := optimizeLocation (c_location cls) |}.

Definition optimizeContext (context : AnalysisResult) : OptimizedContext :=
  {| o_functions := map optimizeFunction (functions context);
     o_classes := map optimizeClass (classes context) |}.
End ContextOptimization.

(** The record that the visitor [FunctionDeclaration] of [BabelParser]
    pushes (babelParser.ts 73-94): [parameters] holds the names of the
    parameters that are identifiers, and [codeSnippet] the text of the
    declaration. *)
Definition functionDeclaration (filePath name : string) (params : list (option string))
    (startLine endLine : Z) (documentation codeSnippet : string) : FunctionAnalysis :=
  {| f_name := name;
     f_type := Some "function";
     f_parameters :=
       map (fun param =>
              mkParameter (match param with
                           | Some paramName => paramName
                           | None => "unknown"
                           end) "any") params;
     f_returnType := "any";
     f_body := None;
     f_codeSnippet := Some codeSnippet;
     f_documentation := documentation;
     f_location := mkLocation filePath startLine endLine |}.


(** A class without methods. *)
Definition bare_class : ClassAnalysis :=
  mkClassAnalysis "K" None [] [mkClassProperty "size" "number" EmptyString]
                  EmptyString sample_location None None.

(** * Part II: properties *)

(** ** Generic facts on packing loops *)

Section PackingLoop.
Context {A B : Type}.
Variable step : packing B -> A -> packing B.
Variable emit : A -> list B.
Hypothesis step_contents :
  forall st x, contents (step st x) = contents st ++ emit x.

Lemma fold_contents (l : list A) (st : packing B) :
  contents (fold_left step l st) = contents st ++ flat_map emit l.
Proof using step_contents.
  revert st. induction l as [|x l IH]; intros st; simpl.
  - now rewrite app_nil_r.
  - rewrite IH, step_contents, <- app_assoc. reflexivity.
Qed.
End PackingLoop.

Lemma flush_concat {A : Type} (st : packing A) :
  concat (flush st) = contents st.
Proof.
  unfold flush, contents. destruct (currentChunk st) as [|x cur]; simpl.
  - now rewrite app_nil_r.
  - rewrite concat_app. simpl. now rewrite app_nil_r.
Qed.

Lemma close_contents {A : Type} (st : packing A) (b : bool) :
  contents (if b then mkPacking (closed st ++ [currentChunk st]) [] 0 else st)
  = contents st.
Proof.
  destruct b; [|reflexivity]. unfold contents; simpl.
  rewrite concat_app. simpl. now rewrite !app_nil_r.
Qed.

Lemma packFunction_contents (maxChunkSize : Z) st func :
  contents (packFunction maxChunkSize st func)
  = contents st ++ [reduceFunction maxChunkSize func].
Proof.
  unfold packFunction, reduceFunction.
  destruct (funcTokens func >? maxChunkSize).
  - unfold contents; simpl. now rewrite app_assoc.
  - set (b := (_ && _)%bool).
    change (contents (mkPacking ?c (?cur ++ ?x) ?s))
      with (concat c ++ cur ++ x).
    rewrite app_assoc. f_equal. apply (close_contents st b).
Qed.

Lemma packMethod_contents (maxChunkSize : Z) st method :
  contents (packMethod maxChunkSize st method) = contents st ++ [method].
Proof.
  unfold packMethod. set (b := (_ >? _)).
  change (contents (mkPacking ?c (?cur ++ ?x) ?s)) with (concat c ++ cur ++ x).
  rewrite app_assoc. f_equal. apply (close_contents st b).
Qed.

Lemma packClass_contents (maxChunkSize : Z) st cls :
  contents (packClass maxChunkSize st cls)
  = contents st ++ expandClass maxChunkSize cls.
Proof.
  unfold packClass, expandClass.
  destruct (clsTokens cls >? maxChunkSize).
  - unfold contents; simpl. now rewrite app_assoc.
  - set (b := (_ && _)%bool).
    change (contents (mkPacking ?c (?cur ++ ?x) ?s)) with (concat c ++ cur ++ x).
    rewrite app_assoc. f_equal. apply (close_contents st b).
Qed.

Lemma flat_map_singleton {A B : Type} (f : A -> B) (l : list A) :
  flat_map (fun x => [f x]) l = map f l.
Proof. induction l; simpl; congruence. Qed.

Lemma functionChunks_concat (maxChunkSize : Z) funcs :
  concat (functionChunks maxChunkSize funcs)
  = map (reduceFunction maxChunkSize) funcs.
Proof.
  unfold functionChunks. rewrite flush_concat.
  rewrite (fold_contents _ (fun f => [reduceFunction maxChunkSize f])).
  - apply flat_map_singleton.
  - apply packFunction_contents.
Qed.

Lemma methodChunks_concat (maxChunkSize : Z) methods :
  concat (methodChunks maxChunkSize methods) = methods.
Proof.
  unfold methodChunks. rewrite flush_concat.
  rewrite (fold_contents _ (fun m => [m])).
  - simpl. rewrite flat_map_singleton. apply map_id.
  - apply packMethod_contents.
Qed.

Lemma classChunks_concat (maxChunkSize : Z) clss :
  concat (classChunks maxChunkSize clss)
  = flat_map (expandClass maxChunkSize) clss.
Proof.
  unfold classChunks. rewrite flush_concat.
  rewrite (fold_contents _ (expandClass maxChunkSize)).
  - reflexivity.
  - apply packClass_contents.
Qed.

(** ** Coverage and order of the two passes *)

Lemma functionPass_functions context (maxChunkSize : Z) :
  map functions (functionPass context maxChunkSize)
  = functionChunks maxChunkSize (functions context).
Proof.
  unfold functionPass. rewrite map_map. simpl. apply map_id.
Qed.

Lemma classPass_classes context (maxChunkSize : Z) :
  map classes (classPass context maxChunkSize)
  = classChunks maxChunkSize (classes context).
Proof.
  unfold classPass. rewrite map_map. simpl. apply map_id.
Qed.

Lemma chunkCodebase_cases context (maxChunkSize : Z) :
  (functionPass context maxChunkSize ++ classPass context maxChunkSize <> []
   /\ chunkCodebase context maxChunkSize
      = functionPass context maxChunkSize ++ classPass context maxChunkSize)
  \/ (functionPass context maxChunkSize = []
      /\ classPass context maxChunkSize = []
      /\ chunkCodebase context maxChunkSize = [context]).
Proof.
  unfold chunkCodebase.
  destruct (functionPass context maxChunkSize ++ classPass context maxChunkSize)
    as [|ch chunks] eqn:E; simpl.
  - right. apply app_eq_nil in E. tauto.
  - left. split; [discriminate | reflexivity].
Qed.

Lemma functionChunks_nonempty (maxChunkSize : Z) funcs :
  funcs <> [] -> functionChunks maxChunkSize funcs <> [].
Proof.
  intros Hne Hnil.
  pose proof (functionChunks_concat maxChunkSize funcs) as H.
  rewrite Hnil in H. simpl in H.
  destruct funcs; [congruence | discriminate].
Qed.

Lemma methodChunks_nonempty (maxChunkSize : Z) (methods : list ClassMethod) :
  methods <> [] -> methodChunks maxChunkSize methods <> [].
Proof.
  intros Hne Hnil.
  pose proof (methodChunks_concat maxChunkSize methods) as H.
  rewrite Hnil in H. simpl in H. now apply Hne.
Qed.

Lemma expandClass_nonempty (maxChunkSize : Z) (cls : ClassAnalysis) :
  (clsTokens cls > maxChunkSize -> c_methods cls <> []) ->
  expandClass maxChunkSize cls <> [].
Proof.
  intros Hmethods. unfold expandClass.
  destruct (Z.gtb_spec (clsTokens cls) maxChunkSize) as [Hbig|_]; [|discriminate].
  unfold partialClasses. intros Hnil. apply (f_equal (@length ClassAnalysis)) in Hnil.
  rewrite length_imap in Hnil. simpl in Hnil.
  apply (methodChunks_nonempty maxChunkSize (c_methods cls)); [apply Hmethods; lia|].
  now apply length_zero_iff_nil.
Qed.

Lemma partialClasses_methods (maxChunkSize : Z) (cls : ClassAnalysis) :
  map c_methods (partialClasses maxChunkSize cls)
  = methodChunks maxChunkSize (c_methods cls).
Proof.
  unfold partialClasses.
  change (map c_methods ?l) with (c_methods <$> l).
  rewrite fmap_imap.
  rewrite (imap_ext _ (const id)); [|reflexivity].
  rewrite imap_const. apply list_fmap_id.
Qed.

Lemma expandClass_methods (maxChunkSize : Z) (cls : ClassAnalysis) :
  concat (map c_methods (expandClass maxChunkSize cls)) = c_methods cls.
Proof.
  unfold expandClass. destruct (clsTokens cls >? maxChunkSize).
  - rewrite partialClasses_methods. apply methodChunks_concat.
  - simpl. apply app_nil_r.
Qed.

(** C3, as the code has it: [chunkCodebase] never returns an empty
    sequence; its output is the chunks of the function pass followed by the
    chunks of the class pass (or the input alone when both passes are
    empty); the functions of the function-pass chunks, concatenated in
    order, are the input functions in their order with every oversized one
    replaced by its body-less copy, so that no function is dropped or
    repeated there; when every oversized class has a method, the classes
    of the class-pass chunks, concatenated in order, are the input classes
    in their order with every oversized one replaced by its partial
    records, every class leaving a record at least and the methods of its
    records being its methods, each once and in order, so that no class and
    no method is dropped or repeated there; every function-pass chunk
    carries the whole list of classes besides, and every class-pass chunk
    the whole list of functions. *)
Theorem chunkCodebase_cover (context : AnalysisResult) (maxChunkSize : Z) :
  chunkCodebase context maxChunkSize <> []
  /\ (chunkCodebase context maxChunkSize
        = functionPass context maxChunkSize ++ classPass context maxChunkSize
      \/ (functionPass context maxChunkSize = []
          /\ classPass context maxChunkSize = []
          /\ chunkCodebase context maxChunkSize = [context]))
  /\ concat (map functions (functionPass context maxChunkSize))
     = map (reduceFunction maxChunkSize) (functions context)
  /\ (Forall (fun cls => clsTokens cls > maxChunkSize -> c_methods cls <> [])
             (classes context) ->
      concat (map classes (classPass context maxChunkSize))
      = flat_map (expandClass maxChunkSize) (classes context)
      /\ Forall (fun cls =>
                   expandClass maxChunkSize cls <> []
                   /\ concat (map c_methods (expandClass maxChunkSize cls))
                      = c_methods cls)
                (classes context))
  /\ Forall (fun chunk => classes chunk = classes context)
            (functionPass context maxChunkSize)
  /\ Forall (fun chunk => functions chunk = functions context)
            (classPass context maxChunkSize).
Proof.
  split; [|split; [|split; [|split; [|split]]]].
  - destruct (chunkCodebase_cases context maxChunkSize) as [[Hne ->]|(_ & _ & ->)];
      [assumption | discriminate].
  - destruct (chunkCodebase_cases context maxChunkSize) as [[_ H]|H]; tauto.
  - rewrite functionPass_functions. apply functionChunks_concat.
  - intros Hmethods. split.
    + rewrite classPass_classes. apply classChunks_concat.
    + eapply Forall_impl; [exact Hmethods|]. intros cls Hcls. split.
      * now apply expandClass_nonempty.
      * apply expandClass_methods.
  - unfold functionPass. apply Forall_map. apply Forall_forall. reflexivity.
  - unfold classPass. apply Forall_map. apply Forall_forall. reflexivity.
Qed.

Lemma chunkCodebase_cover_witness :
  concat (map classes (classPass sample_result 30))
  = flat_map (expandClass 30) (classes sample_result)
  /\ Forall (fun cls =>
               expandClass 30 cls <> []
               /\ concat (map c_methods (expandClass 30 cls)) = c_methods cls)
            (classes sample_result).
Proof.
  destruct (chunkCodebase_cover sample_result 30) as (_ & _ & _ & Hclasses & _).
  apply Hclasses. repeat constructor. discriminate.
Defined.

(** C3, as stated, fails: with one small function and one small class and
    the default budget, nothing is oversized, yet the functions of all
    emitted chunks, concatenated, list the function twice (the class-pass
    chunk carries the whole functions list again). *)
Lemma concat_of_all_chunks_repeats_functions :
  funcTokens sample_function <= defaultMaxChunkSize
  /\ clsTokens sample_class <= defaultMaxChunkSize
  /\ concat (map functions (chunkCodebase sample_result defaultMaxChunkSize))
     = [sample_function; sample_function]
  /\ concat (map functions (chunkCodebase sample_result defaultMaxChunkSize))
     <> map (reduceFunction defaultMaxChunkSize) (functions sample_result).
Proof.
  assert (E : concat (map functions (chunkCodebase sample_result defaultMaxChunkSize))
              = [sample_function; sample_function]) by (vm_compute; reflexivity).
  split; [|split; [|split]].
  - vm_compute; discriminate.
  - vm_compute; discriminate.
  - exact E.
  - rewrite E. vm_compute. discriminate.
Qed.

(** C10: when both lists are non-empty, the output is the function-pass
    chunks followed by the class-pass chunks; every function-pass chunk
    carries the complete original classes list and every class-pass chunk
    carries the complete original functions list, the other list being the
    packed subset. *)
Theorem chunks_carry_the_other_list (context : AnalysisResult) (maxChunkSize : Z) :
  functions context <> [] ->
  classes context <> [] ->
  exists fchunks cchunks,
    chunkCodebase context maxChunkSize = fchunks ++ cchunks
    /\ fchunks <> []
    /\ map functions fchunks = functionChunks maxChunkSize (functions context)
    /\ Forall (fun chunk => classes chunk = classes context) fchunks
    /\ map classes cchunks = classChunks maxChunkSize (classes context)
    /\ Forall (fun chunk => functions chunk = functions context) cchunks.
Proof.
  intros Hf _.
  exists (functionPass context maxChunkSize), (classPass context maxChunkSize).
  assert (Hne : functionPass context maxChunkSize <> []).
  { intros Hnil. apply (functionChunks_nonempty maxChunkSize _ Hf).
    rewrite <- functionPass_functions, Hnil. reflexivity. }
  repeat split.
  - destruct (chunkCodebase_cases context maxChunkSize) as [[_ H]|(H & _)];
      [exact H | contradiction].
  - exact Hne.
  - apply functionPass_functions.
  - unfold functionPass. apply Forall_map. apply Forall_forall. reflexivity.
  - apply classPass_classes.
  - unfold classPass. apply Forall_map. apply Forall_forall. reflexivity.
Qed.

Lemma chunks_carry_the_other_list_witness :
  exists fchunks cchunks,
    chunkCodebase sample_result 50 = fchunks ++ cchunks
    /\ fchunks <> []
    /\ map functions fchunks = functionChunks 50 (functions sample_result)
    /\ Forall (fun chunk => classes chunk = classes sample_result) fchunks
    /\ map classes cchunks = classChunks 50 (classes sample_result)
    /\ Forall (fun chunk => functions chunk = functions sample_result) cchunks.
Proof.
  apply (chunks_carry_the_other_list sample_result 50); discriminate.
Defined.

(** ** Oversized functions *)

Lemma estimateTokens_nonneg (str : string) : 0 <= estimateTokens str.
Proof. unfold estimateTokens. apply Z.div_pos; lia. Qed.

(** C6, as the code has it: a function whose own estimate exceeds the
    budget is pushed onto the running chunk as a copy whose body is the
    placeholder [/* Body too large, truncated */] and whose other fields
    are those of the function; no chunk is closed and the running size is
    left as it was, whatever the overflow; in the output the copy stands at
    the position of the function. *)
Theorem oversized_function_truncated (maxChunkSize : Z)
    (st : packing FunctionAnalysis) (func : FunctionAnalysis) :
  funcTokens func > maxChunkSize ->
  packFunction maxChunkSize st func
    = mkPacking (closed st) (currentChunk st ++ [funcWithoutBody func]) (currentSize st)
  /\ f_body (funcWithoutBody func) = Some "/* Body too large, truncated */"
  /\ f_name (funcWithoutBody func) = f_name func
  /\ f_type (funcWithoutBody func) = f_type func
  /\ f_parameters (funcWithoutBody func) = f_parameters func
  /\ f_returnType (funcWithoutBody func) = f_returnType func
  /\ f_codeSnippet (funcWithoutBody func) = f_codeSnippet func
  /\ f_documentation (funcWithoutBody func) = f_documentation func
  /\ f_location (funcWithoutBody func) = f_location func
  /\ forall (funcs : list FunctionAnalysis) (i : nat),
       funcs !! i = Some func ->
       (concat (functionChunks maxChunkSize funcs)) !! i = Some (funcWithoutBody func).
Proof.
  intros Hbig.
  assert (Hgt : (funcTokens func >? maxChunkSize) = true) by (apply Z.gtb_lt; lia).
  split; [unfold packFunction; now rewrite Hgt|].
  do 8 (split; [reflexivity|]).
  intros funcs i Hi.
  rewrite functionChunks_concat, list_lookup_fmap, Hi. simpl.
  unfold reduceFunction. now rewrite Hgt.
Qed.

Lemma oversized_function_truncated_witness :
  packFunction 10 emptyPacking big_function
    = mkPacking [] [funcWithoutBody big_function] 0
  /\ (concat (functionChunks 10 [sample_function; big_function])) !! 1%nat
     = Some (funcWithoutBody big_function).
Proof.
  destruct (oversized_function_truncated 10 emptyPacking big_function)
    as (Hstep & _ & _ & _ & _ & _ & _ & _ & _ & Hout).
  - vm_compute. reflexivity.
  - split; [exact Hstep|]. apply Hout. reflexivity.
Defined.

(** C6, as stated, fails on the placeholder: the body put in place of an
    oversized function's body is not the string
    [body too large, truncated]. *)
Lemma truncation_placeholder_differs :
  funcTokens big_function > 10
  /\ exists reduced,
       currentChunk (packFunction 10 emptyPacking big_function) = [reduced]
       /\ f_body reduced <> Some "body too large, truncated".
Proof.
  split; [vm_compute; reflexivity|].
  exists (funcWithoutBody big_function). split; [vm_compute; reflexivity|].
  vm_compute. discriminate.
Qed.

(** ** The running-size bound of a greedy packing loop *)

Lemma totalTokens_app {A : Type} (tokens : A -> Z) (l1 l2 : list A) :
  totalTokens tokens (l1 ++ l2) = totalTokens tokens l1 + totalTokens tokens l2.
Proof. induction l1 as [|x l1 IH]; simpl; [reflexivity | rewrite IH; lia]. Qed.

Lemma countedTokens_app {A : Type} (tokens : A -> Z) (maxChunkSize : Z) l1 l2 :
  countedTokens tokens maxChunkSize (l1 ++ l2)
  = countedTokens tokens maxChunkSize l1 + countedTokens tokens maxChunkSize l2.
Proof. apply totalTokens_app. Qed.

Lemma segment_of_snoc {A : Type} (l g : list A) (x : A) :
  segment_of l g -> segment_of (l ++ [x]) g.
Proof.
  intros (pre & post & ->). exists pre, (post ++ [x]).
  now rewrite <- !app_assoc.
Qed.

Section GreedyBound.
Context {A : Type}.
Variable tokens : A -> Z.
Variable decompose : A -> list A.
Variable maxChunkSize : Z.
Hypothesis max_nonneg : 0 <= maxChunkSize.

Let emit := emitOf tokens decompose maxChunkSize.
Let bounded_chunk := bounded_chunk_of tokens decompose maxChunkSize.

(** The loop invariant: closed chunks are bounded, and the running chunk
    is the image of a suffix of the processed inputs whose counted tokens
    are the running size. *)
Let greedy_inv (processed : list A) (st : packing A) : Prop :=
  Forall (bounded_chunk processed) (closed st)
  /\ exists pre g,
       processed = pre ++ g
       /\ currentChunk st = flat_map emit g
       /\ currentSize st = countedTokens tokens maxChunkSize g
       /\ currentSize st <= maxChunkSize
       /\ (currentChunk st = [] -> currentSize st = 0).

Lemma bounded_chunk_snoc processed chunk x :
  bounded_chunk processed chunk -> bounded_chunk (processed ++ [x]) chunk.
Proof.
  intros (g & Hseg & Hch & Hb). exists g.
  split; [now apply segment_of_snoc | tauto].
Qed.

Lemma emit_snoc g x :
  flat_map emit (g ++ [x]) = flat_map emit g ++ emit x.
Proof. rewrite flat_map_app. simpl. now rewrite app_nil_r. Qed.

Lemma counted_snoc g x :
  countedTokens tokens maxChunkSize (g ++ [x])
  = countedTokens tokens maxChunkSize g
    + (if tokens x >? maxChunkSize then 0 else tokens x).
Proof. rewrite countedTokens_app. unfold countedTokens at 2. simpl. lia. Qed.

Lemma greedy_inv_step processed st x :
  greedy_inv processed st ->
  greedy_inv (processed ++ [x]) (greedyStep tokens decompose maxChunkSize st x).
Proof using max_nonneg.
  intros (Hclosed & pre & g & Hp & Hcur & Hsize & Hle & Hnil).
  assert (Hclosed' : Forall (bounded_chunk (processed ++ [x])) (closed st)).
  { eapply Forall_impl; [exact Hclosed|].
    intros ch. apply bounded_chunk_snoc. }
  pose proof (emit_snoc g x) as Hemit.
  pose proof (counted_snoc g x) as Hcount.
  unfold emit at 3 in Hemit. unfold emitOf in Hemit.
  unfold greedyStep.
  destruct (tokens x >? maxChunkSize) eqn:Hbig.
  - (* oversized: pushed uncounted *)
    split; [exact Hclosed'|]. exists pre, (g ++ [x]). simpl.
    rewrite Hemit, Hcount, Hp, Hcur, <- app_assoc.
    refine (conj _ (conj _ (conj _ (conj _ _)))); simpl; try reflexivity; try lia.
    intros Hempty. apply app_eq_nil in Hempty as [Hempty _].
    rewrite <- Hcur in Hempty. apply Hnil in Hempty. lia.
  - assert (Hfit : tokens x <= maxChunkSize).
    { destruct (Z.gtb_spec (tokens x) maxChunkSize); [discriminate | lia]. }
    destruct (currentSize st + tokens x >? maxChunkSize) eqn:Hover; simpl.
    + destruct (0 <? length (currentChunk st))%nat eqn:Hlen; simpl.
      * (* the running chunk is closed, a new one starts with [x] *)
        split.
        -- apply Forall_app. split; [exact Hclosed'|].
           constructor; [|constructor].
           exists g. split; [|split; [exact Hcur | lia]].
           exists pre, [x]. now rewrite Hp, <- app_assoc.
        -- exists processed, [x].
           pose proof (emit_snoc [] x) as E1.
           pose proof (counted_snoc [] x) as E2.
           unfold emit at 3 in E1. unfold emitOf in E1.
           rewrite Hbig in E1, E2. simpl app in E1, E2.
           rewrite E1, E2. unfold countedTokens. simpl.
           refine (conj _ (conj _ (conj _ (conj _ _)))); simpl; try reflexivity; try lia. discriminate.
      * (* overflow on an empty running chunk cannot happen *)
        assert (Hempty : currentChunk st = []).
        { destruct (currentChunk st); [reflexivity|].
          simpl in Hlen. discriminate. }
        apply Hnil in Hempty.
        destruct (Z.gtb_spec (currentSize st + tokens x) maxChunkSize);
          [lia | discriminate].
    + split; [exact Hclosed'|]. exists pre, (g ++ [x]).
      rewrite Hemit, Hcount, Hp, Hcur, <- app_assoc, Hsize.
      destruct (Z.gtb_spec (countedTokens tokens maxChunkSize g + tokens x)
                           maxChunkSize) as [Hgt|Hngt];
        [rewrite Hsize in Hover;
         destruct (Z.gtb_spec (countedTokens tokens maxChunkSize g + tokens x)
                              maxChunkSize); [discriminate | lia]|].
      refine (conj _ (conj _ (conj _ (conj _ _)))); simpl; try reflexivity; try lia.
      intros Hempty. apply app_eq_nil in Hempty as [_ Hempty]. discriminate.
Qed.

Lemma greedy_inv_fold (l : list A) processed st :
  greedy_inv processed st ->
  greedy_inv (processed ++ l) (fold_left (greedyStep tokens decompose maxChunkSize) l st).
Proof using max_nonneg.
  revert processed st. induction l as [|x l IH]; intros processed st Hinv; simpl.
  - now rewrite app_nil_r.
  - replace (processed ++ x :: l) with ((processed ++ [x]) ++ l)
      by now rewrite <- app_assoc.
    apply IH. now apply greedy_inv_step.
Qed.

Lemma greedy_flush_bounded (l : list A) :
  Forall (bounded_chunk l)
         (flush (fold_left (greedyStep tokens decompose maxChunkSize) l emptyPacking)).
Proof using max_nonneg.
  assert (H0 : greedy_inv [] (@emptyPacking A)).
  { split; [constructor|]. exists [], []. simpl.
    refine (conj _ (conj _ (conj _ (conj _ _)))); simpl;
      try reflexivity; try lia. }
  apply (greedy_inv_fold l) in H0. simpl in H0.
  destruct H0 as (Hclosed & pre & g & Hp & Hcur & Hsize & Hle & _).
  unfold flush. destruct (0 <? length (currentChunk _))%nat; [|exact Hclosed].
  apply Forall_app. split; [exact Hclosed|].
  constructor; [|constructor].
  exists g. split; [|split; [exact Hcur | lia]].
  exists pre, []. now rewrite app_nil_r.
Qed.
End GreedyBound.

Lemma packFunction_greedy (maxChunkSize : Z) :
  packFunction maxChunkSize
  = greedyStep funcTokens (fun func => [funcWithoutBody func]) maxChunkSize.
Proof. reflexivity. Qed.

Lemma packClass_greedy (maxChunkSize : Z) :
  packClass maxChunkSize
  = greedyStep clsTokens (partialClasses maxChunkSize) maxChunkSize.
Proof. reflexivity. Qed.

(** C2, as the code has it: for a non-negative budget, the functions of
    every function-pass chunk are the image of a run of consecutive input
    functions whose counted estimates (those of the functions that fit on
    their own) sum to at most the budget, and likewise for the classes of
    every class-pass chunk.  The bound is on this running sum, not on the
    estimate of the serialized chunk. *)
Theorem chunk_running_size_bound (context : AnalysisResult) (maxChunkSize : Z) :
  0 <= maxChunkSize ->
  Forall (fun chunk =>
            bounded_chunk_of funcTokens (fun func => [funcWithoutBody func])
                             maxChunkSize (functions context) (functions chunk))
         (functionPass context maxChunkSize)
  /\ Forall (fun chunk =>
               bounded_chunk_of clsTokens (partialClasses maxChunkSize)
                                maxChunkSize (classes context) (classes chunk))
            (classPass context maxChunkSize).
Proof.
  intros Hmax. split.
  - unfold functionPass. apply Forall_map. simpl.
    unfold functionChunks. rewrite packFunction_greedy.
    now apply greedy_flush_bounded.
  - unfold classPass. apply Forall_map. simpl.
    unfold classChunks. rewrite packClass_greedy.
    now apply greedy_flush_bounded.
Qed.

Lemma chunk_running_size_bound_witness :
  Forall (fun chunk =>
            bounded_chunk_of funcTokens (fun func => [funcWithoutBody func])
                             50 (functions sample_result) (functions chunk))
         (functionPass sample_result 50)
  /\ Forall (fun chunk =>
               bounded_chunk_of clsTokens (partialClasses 50)
                                50 (classes sample_result) (classes chunk))
            (classPass sample_result 50).
Proof.
  apply (chunk_running_size_bound sample_result 50). lia.
Defined.

(** C2, as stated, fails: one function whose own estimate is exactly the
    budget, no class.  Nothing is oversized, and the only chunk emitted has
    a serialized estimate above the budget. *)
Lemma serialized_chunk_exceeds_budget :
  Forall (fun func => funcTokens func <= 42) (functions exact_result)
  /\ Forall (fun cls => clsTokens cls <= 42) (classes exact_result)
  /\ chunkCodebase exact_result 42 = [exact_result]
  /\ Exists (fun chunk => estimateTokens (stringify_result chunk) > 42)
            (chunkCodebase exact_result 42).
Proof.
  split; [|split; [|split]].
  - repeat constructor. vm_compute. discriminate.
  - constructor.
  - vm_compute. reflexivity.
  - apply Exists_cons_hd. vm_compute. reflexivity.
Qed.

(** ** Splitting of large classes *)

Section MethodGroups.
Variable maxChunkSize : Z.

Let method_inv (st : packing ClassMethod) : Prop :=
  Forall (group_within maxChunkSize) (closed st)
  /\ currentSize st = totalTokens methodTokens (currentChunk st)
  /\ group_within maxChunkSize (currentChunk st).

Lemma packMethod_inv st method :
  method_inv st -> method_inv (packMethod maxChunkSize st method).
Proof.
  intros (Hclosed & Hsize & Hcur). unfold packMethod.
  destruct (Z.gtb_spec (currentSize st + methodTokens method) maxChunkSize)
    as [Hover|Hfit]; simpl.
  - refine (conj _ (conj _ _)); simpl.
    + apply Forall_app. split; [exact Hclosed | now constructor].
    + lia.
    + destruct (Z_le_gt_dec (methodTokens method) maxChunkSize) as [Hle|Hgt].
      * left. simpl. lia.
      * right. now exists method.
  - refine (conj Hclosed (conj _ _)); simpl.
    + rewrite totalTokens_app. simpl. lia.
    + left. rewrite totalTokens_app. simpl. lia.
Qed.

Lemma methodChunks_within (methods : list ClassMethod) :
  0 <= maxChunkSize ->
  Forall (group_within maxChunkSize) (methodChunks maxChunkSize methods).
Proof.
  intros Hmax.
  assert (Hinv : method_inv (fold_left (packMethod maxChunkSize) methods emptyPacking)).
  { assert (H0 : method_inv emptyPacking).
    { refine (conj _ (conj _ _)); simpl; [constructor | reflexivity | now left]. }
    revert H0. generalize (@emptyPacking ClassMethod).
    induction methods as [|m methods IH]; intros st Hst; simpl; [exact Hst|].
    apply IH. now apply packMethod_inv. }
  destruct Hinv as (Hclosed & _ & Hcur).
  unfold methodChunks, flush.
  destruct (0 <? length (currentChunk _))%nat; [|exact Hclosed].
  apply Forall_app. split; [exact Hclosed | now constructor].
Qed.
End MethodGroups.

Lemma totalTokens_concat {A : Type} (tokens : A -> Z) (groups : list (list A)) :
  totalTokens tokens (concat groups)
  = totalTokens (totalTokens tokens) groups.
Proof.
  induction groups as [|g groups IH]; simpl; [reflexivity|].
  now rewrite totalTokens_app, IH.
Qed.

Lemma totalTokens_bound {A : Type} (tokens : A -> Z) (bound : Z) (l : list A) :
  Forall (fun x => tokens x <= bound) l ->
  totalTokens tokens l <= Z.of_nat (length l) * bound.
Proof.
  induction 1 as [|x l Hx _ IH]; simpl length; simpl totalTokens; [lia|].
  rewrite Nat2Z.inj_succ. lia.
Qed.

(** With every method fitting on its own, the number of groups is at least
    the quotient of the claim; it is not equal to it in general. *)
Lemma methodChunks_count_lower_bound (maxChunkSize : Z) (methods : list ClassMethod) :
  0 < maxChunkSize ->
  Forall (fun m => methodTokens m <= maxChunkSize) methods ->
  ceil_div (totalTokens methodTokens methods) maxChunkSize
  <= Z.of_nat (length (methodChunks maxChunkSize methods)).
Proof.
  intros Hmax Hfit.
  pose proof (methodChunks_within maxChunkSize methods ltac:(lia)) as Hw.
  pose proof (methodChunks_concat maxChunkSize methods) as Hc.
  assert (Hg : Forall (fun g => totalTokens methodTokens g <= maxChunkSize)
                      (methodChunks maxChunkSize methods)).
  { apply Forall_forall. intros g Hin.
    rewrite Forall_forall in Hw. destruct (Hw g Hin) as [Hle|(m & -> & Hgt)];
      [exact Hle|].
    rewrite Forall_forall in Hfit.
    assert (Hm : m ∈ methods).
    { rewrite <- Hc. apply list_elem_of_In, in_concat.
      exists [m]. split; [now apply list_elem_of_In | now left]. }
    specialize (Hfit m Hm). lia. }
  apply totalTokens_bound in Hg.
  rewrite <- totalTokens_concat, Hc in Hg.
  unfold ceil_div.
  apply Z.lt_succ_r, Z.div_lt_upper_bound; lia.
Qed.

(** C7, as the code has it: a class whose own estimate exceeds the budget
    is replaced by one partial record per method group, the groups being
    closed greedily whenever the next method would overflow the running
    group.  Record number [i] (from 1) of [N] keeps every field of the
    class but [methods], holds the methods of group [i], and carries the
    note [Part i/N of large class]; the methods of the records, in order,
    are the methods of the class; all records are pushed onto the running
    class chunk, no chunk being closed and the running size being left as
    it was.  For a non-negative budget each group fits the budget or is a
    single method that exceeds it alone; for a positive budget and methods
    that all fit, [N] is at least the rounded-up quotient of the combined
    method size by the budget. *)
Theorem large_class_split (maxChunkSize : Z) (st : packing ClassAnalysis)
    (cls : ClassAnalysis) :
  clsTokens cls > maxChunkSize ->
  let groups := methodChunks maxChunkSize (c_methods cls) in
  let total := length groups in
  packClass maxChunkSize st cls
    = mkPacking (closed st) (currentChunk st ++ partialClasses maxChunkSize cls)
                (currentSize st)
  /\ length (partialClasses maxChunkSize cls) = total
  /\ (forall (i : nat) (methods : list ClassMethod),
        groups !! i = Some methods ->
        exists part,
          partialClasses maxChunkSize cls !! i = Some part
          /\ c_methods part = methods
          /\ c_note part
             = Some ("Part " +:+ decimal (i + 1) +:+ "/" +:+ decimal total
                     +:+ " of large class")
          /\ c_name part = c_name cls
          /\ c_type part = c_type cls
          /\ c_properties part = c_properties cls
          /\ c_documentation part = c_documentation cls
          /\ c_location part = c_location cls
          /\ c_codeSnippet part = c_codeSnippet cls)
  /\ concat (map c_methods (partialClasses maxChunkSize cls)) = c_methods cls
  /\ (0 <= maxChunkSize -> Forall (group_within maxChunkSize) groups)
  /\ (0 < maxChunkSize ->
      Forall (fun m => methodTokens m <= maxChunkSize) (c_methods cls) ->
      ceil_div (totalTokens methodTokens (c_methods cls)) maxChunkSize
      <= Z.of_nat total).
Proof.
  intros Hbig groups total.
  assert (Hgt : (clsTokens cls >? maxChunkSize) = true) by (apply Z.gtb_lt; lia).
  split; [unfold packClass; now rewrite Hgt|].
  split; [unfold partialClasses; apply length_imap|].
  split.
  { intros i methods Hi.
    exists (partialClass cls total i methods).
    split; [|repeat split].
    unfold partialClasses. rewrite list_lookup_imap.
    fold groups. rewrite Hi. reflexivity. }
  split; [rewrite partialClasses_methods; apply methodChunks_concat|].
  split; [apply methodChunks_within|].
  apply methodChunks_count_lower_bound.
Qed.

Lemma large_class_split_witness :
  packClass 30 emptyPacking sample_class
    = mkPacking [] (partialClasses 30 sample_class) 0
  /\ length (partialClasses 30 sample_class)
     = length (methodChunks 30 (c_methods sample_class)).
Proof.
  destruct (large_class_split 30 emptyPacking sample_class) as (Hstep & Hlen & _).
  - vm_compute. reflexivity.
  - split; [exact Hstep | exact Hlen].
Defined.

(** C7, as stated, fails on the count: three methods of 20 tokens each and
    a budget of 30 give a combined method size of 60 and a quotient of 2,
    while the class is emitted as 3 partial records.  It also fails on the
    test that triggers the split: 58 methods of 21 tokens each have a
    combined size of 1218, above a budget of 1217, but the class as a whole
    is estimated at 1217 tokens and is packed whole. *)
Lemma partial_count_is_not_the_quotient :
  (totalTokens methodTokens (c_methods sample_class) > 30
   /\ clsTokens sample_class > 30
   /\ ceil_div (totalTokens methodTokens (c_methods sample_class)) 30 = 2
   /\ currentChunk (packClass 30 emptyPacking sample_class)
      = partialClasses 30 sample_class
   /\ length (partialClasses 30 sample_class) = 3%nat)
  /\ (totalTokens methodTokens (c_methods wide_class) > 1217
      /\ packClass 1217 emptyPacking wide_class = mkPacking [] [wide_class] 1217).
Proof.
  split.
  - repeat (split; [vm_compute; reflexivity|]). vm_compute. reflexivity.
  - split; [vm_compute; reflexivity|].
    unfold packClass.
    assert (E : clsTokens wide_class = 1217) by (vm_compute; reflexivity).
    rewrite E. reflexivity.
Qed.

(** ** The file traverser *)

Lemma node_nested_ind (P : node -> Prop) :
  (forall content, P (File content)) ->
  (forall entries, Forall (fun entry => P entry.2) entries -> P (Dir entries)) ->
  forall n, P n.
Proof.
  intros HFile HDir. fix IH 1. intros [content|entries].
  - apply HFile.
  - apply HDir. induction entries as [|[file child] rest IHrest].
    + constructor.
    + constructor; [apply IH | exact IHrest].
Qed.

Lemma filesAt_Dir (filePath : string) (entries : list (string * node)) :
  filesAt filePath (Dir entries) = listFilesRecursively filePath entries.
Proof.
  unfold listFilesRecursively. simpl.
  induction entries as [|[file child] rest IH]; simpl; [reflexivity|].
  now rewrite IH.
Qed.

Lemma allFilesAt_Dir (entries : list (string * node)) :
  allFilesAt (Dir entries) = allFiles entries.
Proof.
  unfold allFiles. simpl.
  induction entries as [|[file child] rest IH]; simpl; [reflexivity|].
  now rewrite IH.
Qed.

Lemma filter_unignored_cons (file : string) (positions : list (list string)) :
  List.filter unignored (map (cons file) positions)
  = if IGNORED_DIRS_has file then []
    else map (cons file) (List.filter unignored positions).
Proof.
  induction positions as [|pos positions IH]; simpl.
  - now destruct (IGNORED_DIRS_has file).
  - rewrite IH. destruct (IGNORED_DIRS_has file); simpl; [reflexivity|].
    now destruct (unignored pos).
Qed.

Lemma filesAt_positions (n : node) :
  forall filePath,
    filesAt filePath n
    = map (pathOf filePath) (List.filter unignored (allFilesAt n)).
Proof.
  induction n as [content|entries IH] using node_nested_ind; intros filePath.
  - reflexivity.
  - rewrite filesAt_Dir, allFilesAt_Dir.
    unfold listFilesRecursively, allFiles.
    induction IH as [|[file child] rest Hchild _ IHrest]; simpl; [reflexivity|].
    rewrite List.filter_app, map_app, <- IHrest, filter_unignored_cons.
    f_equal. simpl in Hchild.
    destruct (IGNORED_DIRS_has file); [reflexivity|].
    rewrite Hchild, map_map. reflexivity.
Qed.

Lemma unignored_spec (position : list string) :
  unignored position = true
  <-> Forall (fun name => ~ In name IGNORED_DIRS) position.
Proof.
  unfold unignored. rewrite forallb_forall, Forall_forall.
  split; intros H name Hin.
  - apply list_elem_of_In, H in Hin. intros Hign.
    assert (E : IGNORED_DIRS_has name = true).
    { apply existsb_exists. exists name. split; [exact Hign | apply String.eqb_refl]. }
    rewrite E in Hin. discriminate.
  - destruct (IGNORED_DIRS_has name) eqn:E; [|reflexivity].
    apply existsb_exists in E as (ign & Hign & Heq).
    apply String.eqb_eq in Heq. subst ign.
    apply list_elem_of_In in Hin. now apply H in Hin.
Qed.

Lemma append_String (c : ascii) (a b : string) :
  String c a +:+ b = String c (a +:+ b).
Proof. reflexivity. Qed.

Lemma append_Empty (b : string) : EmptyString +:+ b = b.
Proof. reflexivity. Qed.

Lemma append_Empty_r (a : string) : a +:+ EmptyString = a.
Proof. induction a as [|x a IH]; [reflexivity|]. now rewrite append_String, IH. Qed.

Lemma string_app_assoc (a b c : string) : (a +:+ b) +:+ c = a +:+ (b +:+ c).
Proof.
  induction a as [|x a IH]; [reflexivity|]. now rewrite !append_String, IH.
Qed.

Lemma string_app_inv_head (a b c : string) : a +:+ b = a +:+ c -> b = c.
Proof.
  induction a as [|x a IH]; [tauto|].
  rewrite !append_String. intros [= H]. auto.
Qed.

Lemma name_then_separator (x1 x2 s1 s2 : string) :
  separator_free x1 = true -> separator_free x2 = true ->
  (s1 = EmptyString \/ exists t, s1 = "/" +:+ t) ->
  (s2 = EmptyString \/ exists t, s2 = "/" +:+ t) ->
  x1 +:+ s1 = x2 +:+ s2 -> x1 = x2 /\ s1 = s2.
Proof.
  revert x2. induction x1 as [|c1 x1 IH]; intros [|c2 x2] H1 H2 Hs1 Hs2 E;
    rewrite ?append_String, ?append_Empty in E; simpl in H1, H2.
  - now split.
  - apply andb_true_iff in H2 as [Hc _].
    destruct Hs1 as [->|[t ->]]; [discriminate|].
    rewrite append_String in E. injection E as <- _. discriminate.
  - apply andb_true_iff in H1 as [Hc _].
    destruct Hs2 as [->|[t ->]]; [discriminate|].
    rewrite append_String in E. injection E as -> _. discriminate.
  - apply andb_true_iff in H1 as [_ H1]. apply andb_true_iff in H2 as [_ H2].
    injection E as -> E. destruct (IH x2 H1 H2 Hs1 Hs2 E) as [-> ->]. now split.
Qed.

Lemma endsWithSeparator_app (a f : string) :
  f <> EmptyString -> endsWithSeparator (a +:+ f) = endsWithSeparator f.
Proof.
  intros Hf. induction a as [|c a IH]; [reflexivity|].
  rewrite append_String. cbn [endsWithSeparator]. rewrite IH.
  destruct (a +:+ f) eqn:E; [|reflexivity].
  destruct a; [rewrite append_Empty in E; contradiction | discriminate].
Qed.

Lemma separator_free_end (f : string) :
  separator_free f = true -> endsWithSeparator f = false.
Proof.
  induction f as [|c f IH]; [reflexivity|]. simpl.
  intros [Hc Hf]%andb_true_iff. destruct f; [|auto].
  now destruct (Ascii.eqb c "/").
Qed.

Lemma dirPrefix_shape (dirPath : string) :
  dirPrefix dirPath = EmptyString
  \/ (endsWithSeparator (dirPrefix dirPath) = true
      /\ dirPrefix dirPath <> "./").
Proof.
  unfold dirPrefix.
  destruct (String.eqb_spec dirPath EmptyString) as [|H0]; [now left|].
  destruct (String.eqb_spec dirPath ".") as [|H1]; [now left|].
  destruct (String.eqb_spec dirPath "./") as [|H2]; [now left|].
  cbn [orb]. right. destruct (endsWithSeparator dirPath) eqn:E.
  - split; assumption.
  - split.
    + rewrite endsWithSeparator_app by discriminate. reflexivity.
    + intros Heq. apply H1.
      destruct dirPath as [|c [|d rest]]; rewrite ?append_String, ?append_Empty in Heq;
        try discriminate.
      * injection Heq as ->. reflexivity.
      * injection Heq as -> Heq. destruct rest; discriminate.
Qed.

Lemma append_nil_inv (a b : string) : a +:+ b = EmptyString -> a = EmptyString /\ b = EmptyString.
Proof. destruct a; [rewrite append_Empty; auto | discriminate]. Qed.

Lemma dirPrefix_join (dirPath file : string) :
  separator_free file = true ->
  dirPrefix (path_join dirPath file)
  = if String.eqb file EmptyString then dirPrefix dirPath
    else if String.eqb (dirPrefix dirPath) EmptyString && String.eqb file "."
         then EmptyString
         else dirPrefix dirPath +:+ file +:+ "/".
Proof.
  intros Hfree. unfold path_join.
  destruct (dirPrefix_shape dirPath) as [HP|[Hend Hne]];
    set (P := dirPrefix dirPath) in *; clearbody P.
  - subst P. rewrite append_Empty. cbn [String.eqb andb].
    destruct (String.eqb_spec file EmptyString) as [->|H0]; [reflexivity|].
    destruct (String.eqb_spec file ".") as [->|H1]; [reflexivity|].
    unfold dirPrefix.
    destruct (String.eqb_spec file EmptyString); [contradiction|].
    destruct (String.eqb_spec file "."); [contradiction|].
    destruct (String.eqb_spec file "./") as [->|]; [discriminate|].
    cbn [orb]. now rewrite separator_free_end.
  - destruct (String.eqb_spec file EmptyString) as [->|H0].
    + rewrite append_Empty_r. unfold dirPrefix.
      destruct (String.eqb_spec P EmptyString) as [->|]; [discriminate|].
      destruct (String.eqb_spec P ".") as [->|]; [discriminate|].
      destruct (String.eqb_spec P "./"); [contradiction|].
      cbn [orb]. now rewrite Hend.
    + assert (HP : String.eqb P EmptyString = false).
      { destruct (String.eqb_spec P EmptyString) as [->|]; [discriminate | reflexivity]. }
      rewrite HP. cbn [andb]. unfold dirPrefix.
      assert (Hend' : endsWithSeparator (P +:+ file) = false).
      { rewrite endsWithSeparator_app by assumption. now apply separator_free_end. }
      destruct (String.eqb_spec (P +:+ file) EmptyString) as [E|_].
      { apply append_nil_inv in E as [_ E]. contradiction. }
      destruct (String.eqb_spec (P +:+ file) ".") as [E|_].
      { destruct P as [|c [|d P]]; rewrite ?append_String, ?append_Empty in E;
          [discriminate | |].
        + injection E as -> E. simpl in Hend. discriminate.
        + injection E as _ E. discriminate. }
      destruct (String.eqb_spec (P +:+ file) "./") as [E|_].
      { rewrite E in Hend'. discriminate. }
      cbn [orb]. rewrite Hend'. now rewrite string_app_assoc.
Qed.

Lemma dirPrefix_pathOf (position : list string) :
  Forall (fun name => separator_free name = true) position ->
  forall dirPath,
    dirPrefix (pathOf dirPath position)
    = dirPrefix dirPath
      +:+ slashed (effective (String.eqb (dirPrefix dirPath) EmptyString) position).
Proof.
  induction 1 as [|name rest Hname _ IH]; intros dirPath.
  - simpl. now rewrite append_Empty_r.
  - change (pathOf dirPath (name :: rest)) with (pathOf (path_join dirPath name) rest).
    rewrite IH, (dirPrefix_join _ _ Hname). cbn [effective].
    destruct (String.eqb name EmptyString); [reflexivity|].
    destruct (String.eqb (dirPrefix dirPath) EmptyString && String.eqb name ".") eqn:E.
    + apply andb_true_iff in E as [E _]. apply String.eqb_eq in E.
      rewrite E. reflexivity.
    + assert (String.eqb (dirPrefix dirPath +:+ name +:+ "/") EmptyString = false) as ->.
      { destruct (String.eqb_spec (dirPrefix dirPath +:+ name +:+ "/") EmptyString)
          as [E'|]; [|reflexivity].
        apply append_nil_inv in E' as [_ E'].
        apply append_nil_inv in E' as [_ E']. discriminate. }
      cbn [slashed]. now rewrite !string_app_assoc.
Qed.

Lemma effective_In (name : string) (position : list string) :
  forall atStart, In name (effective atStart position) -> In name position.
Proof.
  induction position as [|first rest IH]; intros atStart; simpl; [tauto|].
  destruct (String.eqb first EmptyString); [eauto|].
  destruct (atStart && String.eqb first "."); [eauto|].
  simpl. intros [->|Hin]; eauto.
Qed.

Lemma effective_separator_free (position : list string) :
  Forall (fun name => separator_free name = true) position ->
  forall atStart,
    Forall (fun name => separator_free name = true) (effective atStart position).
Proof.
  intros Hfree atStart. apply Forall_forall. intros name Hin.
  apply list_elem_of_In, effective_In in Hin.
  rewrite Forall_forall in Hfree. now apply Hfree, list_elem_of_In.
Qed.

Lemma In_effective (name : string) (position : list string) :
  name <> EmptyString -> name <> "." ->
  forall atStart, In name position -> In name (effective atStart position).
Proof.
  intros H0 H1. induction position as [|first rest IH]; intros atStart; simpl; [tauto|].
  intros [->|Hin].
  - destruct (String.eqb_spec name EmptyString); [contradiction|].
    destruct (String.eqb_spec name "."); [contradiction|].
    rewrite andb_false_r. now left.
  - destruct (String.eqb first EmptyString); [eauto|].
    destruct (atStart && String.eqb first "."); [eauto|]. right. eauto.
Qed.

Lemma slashed_inj (l1 l2 : list string) :
  Forall (fun name => separator_free name = true) l1 ->
  Forall (fun name => separator_free name = true) l2 ->
  slashed l1 = slashed l2 -> l1 = l2.
Proof.
  intros H1. revert l2. induction H1 as [|x1 l1 Hx1 _ IH]; intros l2 H2 E.
  - destruct l2 as [|x2 l2]; [reflexivity|]. simpl in E.
    symmetry in E. apply append_nil_inv in E as [_ E]. discriminate.
  - destruct H2 as [|x2 l2 Hx2 H2].
    + simpl in E. apply append_nil_inv in E as [_ E]. discriminate.
    + simpl in E.
      destruct (name_then_separator x1 x2 _ _ Hx1 Hx2
                  (or_intror (ex_intro _ _ eq_refl)) (or_intror (ex_intro _ _ eq_refl)) E)
        as [-> E'].
      rewrite !append_String, !append_Empty in E'. injection E' as E'.
      f_equal. now apply IH.
Qed.

Lemma effective_pathOf (dirPath : string) (p1 p2 : list string) :
  Forall (fun name => separator_free name = true) p1 ->
  Forall (fun name => separator_free name = true) p2 ->
  pathOf dirPath p1 = pathOf dirPath p2 ->
  effective (String.eqb (dirPrefix dirPath) EmptyString) p1
  = effective (String.eqb (dirPrefix dirPath) EmptyString) p2.
Proof.
  intros H1 H2 E. apply (f_equal dirPrefix) in E.
  rewrite !dirPrefix_pathOf in E by assumption.
  apply string_app_inv_head in E.
  apply slashed_inj in E; [exact E | now apply effective_separator_free..].
Qed.

Lemma ignored_name_effective (name : string) :
  In name IGNORED_DIRS -> name <> EmptyString /\ name <> ".".
Proof.
  unfold IGNORED_DIRS. simpl.
  intros [<-|[<-|[<-|[<-|[<-|[]]]]]]; split; discriminate.
Qed.

(** [path.join] at the roots that [path.normalize] can return. *)
Lemma path_join_roots :
  path_join "." "a.ts" = "a.ts"
  /\ path_join "./" "a.ts" = "a.ts"
  /\ path_join "/" "a.ts" = "/a.ts"
  /\ path_join "/p" "a.ts" = "/p/a.ts"
  /\ path_join "/p/" "a.ts" = "/p/a.ts"
  /\ path_join ".." "a.ts" = "../a.ts"
  /\ listFilesRecursively "." [("src", Dir [("a.ts", File "x")]); ("b.js", File "y")]
     = ["src/a.ts"; "b.js"]
  /\ listFilesRecursively "/p/" [("src", Dir [("a.ts", File "x")]); ("b.js", File "y")]
     = ["/p/src/a.ts"; "/p/b.js"].
Proof. repeat split; reflexivity. Qed.

(** C8, as the code has it: the traversal result is the list of the paths
    of the files of the tree, in depth-first order, restricted to the files
    for which no name on the way from the root, the file's own name
    included, is one of the ignored names; in particular, entry names
    holding no separator, the path of a file below a directory with an
    ignored name is not in the result. *)
Theorem traversal_skips_ignored_names (dirPath : string)
    (entries : list (string * node)) :
  listFilesRecursively dirPath entries
  = map (pathOf dirPath) (List.filter unignored (allFiles entries))
  /\ (forall filePath,
        In filePath (listFilesRecursively dirPath entries) ->
        exists position,
          In position (allFiles entries)
          /\ filePath = pathOf dirPath position
          /\ Forall (fun name => ~ In name IGNORED_DIRS) position)
  /\ (Forall (Forall (fun name => separator_free name = true)) (allFiles entries) ->
      forall position,
        In position (allFiles entries) ->
        Exists (fun name => In name IGNORED_DIRS) position ->
        ~ In (pathOf dirPath position) (listFilesRecursively dirPath entries)).
Proof.
  assert (E : listFilesRecursively dirPath entries
              = map (pathOf dirPath) (List.filter unignored (allFiles entries))).
  { rewrite <- filesAt_Dir, <- allFilesAt_Dir. apply filesAt_positions. }
  assert (Hlisted : forall filePath,
             In filePath (listFilesRecursively dirPath entries) ->
             exists position,
               In position (allFiles entries)
               /\ filePath = pathOf dirPath position
               /\ Forall (fun name => ~ In name IGNORED_DIRS) position).
  { intros filePath Hin. rewrite E in Hin.
    apply in_map_iff in Hin as (position & Hpath & Hpos).
    apply filter_In in Hpos as [Hpos Hclean].
    exists position. split; [exact Hpos|]. split; [now symmetry|].
    now apply unignored_spec. }
  split; [exact E|]. split; [exact Hlisted|].
  intros Hnames position Hpos Hign Hin.
  destruct (Hlisted _ Hin) as (position' & Hpos' & Hpath & Hclean).
  rewrite Forall_forall in Hnames.
  apply effective_pathOf in Hpath;
    [|apply Hnames; now apply list_elem_of_In..].
  apply Exists_exists in Hign as (name & Hname & Hbad).
  destruct (ignored_name_effective name Hbad) as [Hfull Hproper].
  apply list_elem_of_In in Hname.
  apply (In_effective name position Hfull Hproper
           (String.eqb (dirPrefix dirPath) EmptyString)) in Hname.
  rewrite Hpath in Hname. apply effective_In, list_elem_of_In in Hname.
  rewrite Forall_forall in Hclean. exact (Hclean name Hname Hbad).
Qed.

(** C8, as stated, fails on its second half: a file whose own name is one
    of the ignored names lies below no ignored directory, yet it is not
    listed. *)
Lemma file_with_ignored_name_is_skipped :
  let entries := [("dist", File "bundle"); ("a.ts", File "code")] in
  In ["dist"] (allFiles entries)
  /\ below_no_ignored_dir ["dist"] = true
  /\ listFilesRecursively "/p" entries = ["/p/a.ts"]
  /\ listFilesRecursively "/p" entries
     <> map (pathOf "/p") (List.filter below_no_ignored_dir (allFiles entries)).
Proof.
  simpl. split; [now left|]. split; [reflexivity|]. split; [reflexivity|].
  vm_compute. discriminate.
Qed.

(** ** The project analyzer *)

Lemma analyzeFile_fold (parsers : list ILanguageParser) (files : list string) :
  forall st,
    fold_left (analyzeFile parsers) files st
    = ({| functions :=
            functions st.1
            ++ flat_map (fun file => default [] (pr_functions (contribution parsers file))) files;
          classes :=
            classes st.1
            ++ flat_map (fun file => default [] (pr_classes (contribution parsers file))) files |},
       st.2 ++ flat_map (fileLog parsers) files).
Proof.
  induction files as [|file files IH]; intros [[fs cs] log]; simpl.
  - now rewrite !app_nil_r.
  - rewrite IH. unfold analyzeFile, contribution, fileLog.
    destruct (getParserForFile parsers file) as [parser|]; simpl.
    + destruct (parseFile parser file) as [result|err]; simpl;
        unfold pushResult; simpl; now rewrite <- ?app_assoc.
    + now rewrite <- app_assoc.
Qed.

Lemma analyzeFiles_spec (parsers : list ILanguageParser) (files : list string) :
  analyzeFiles parsers files
  = ({| functions :=
          flat_map (fun file => default [] (pr_functions (contribution parsers file)))
                   (codeFiles files);
        classes :=
          flat_map (fun file => default [] (pr_classes (contribution parsers file)))
                   (codeFiles files) |},
     flat_map (fileLog parsers) (codeFiles files)).
Proof. unfold analyzeFiles. now rewrite analyzeFile_fold. Qed.

(** C1, as the code has it: [analyzeProject] throws if and only if the
    trimmed, normalized root path does not exist or is not a directory,
    with the message [Folder does not exist: <path>] when it does not
    exist; when the root is a directory the call returns, whatever the
    number of files that fail to parse, and the aggregate holds, in
    traversal order, the functions and classes of every file that parsed,
    and nothing for a file that failed. *)
Theorem analyzeProject_outcome (path_normalize : string -> string)
    (disk : string -> option node) (parsers : list ILanguageParser)
    (folder : string) :
  let resolvedPath := path_normalize (trim folder) in
  let run := analyzeProject path_normalize disk parsers folder in
  ((exists message, run.1 = Thrown message)
   <-> (disk resolvedPath = None
        \/ exists content, disk resolvedPath = Some (File content)))
  /\ (disk resolvedPath = None ->
      run.1 = Thrown ("Folder does not exist: " +:+ resolvedPath))
  /\ (forall entries,
        disk resolvedPath = Some (Dir entries) ->
        let files := codeFiles (listFilesRecursively resolvedPath entries) in
        exists result,
          run.1 = Returned result
          /\ functions result
             = flat_map (fun file => default [] (pr_functions (contribution parsers file))) files
          /\ classes result
             = flat_map (fun file => default [] (pr_classes (contribution parsers file))) files).
Proof.
  intros resolvedPath run. subst run. unfold analyzeProject. fold resolvedPath.
  destruct (disk resolvedPath) as [[content|entries]|] eqn:Hdisk; simpl.
  - split; [|split]; [|discriminate|discriminate].
    split; [intros _; right; now exists content | intros _; eauto].
  - split; [|split]; [|discriminate|].
    + split; [intros [message H]; discriminate|].
      intros [H|[content H]]; discriminate.
    + intros entries' [= <-]. rewrite analyzeFiles_spec. simpl. eauto.
  - split; [|split]; [|reflexivity|discriminate].
    split; [intros _; now left | intros _; eauto].
Qed.

(** C1, as stated, fails: a root path that exists but is a file makes the
    call throw. *)
Lemma root_that_is_a_file_throws :
  let disk := sample_disk (File "export const x = 1;") in
  disk (same_path (trim " /p ")) <> None
  /\ exists message,
       (analyzeProject same_path disk
                       (defaultParsers parseFoo parseFoo loadsFine) " /p ").1
       = Thrown message.
Proof.
  split; [vm_compute; discriminate|].
  eexists. vm_compute. reflexivity.
Qed.

(** ** Dispatch by extension *)

Lemma isPrefixOf_cons (x y : ascii) (p l : list ascii) :
  isPrefixOf (x :: p) (y :: l) = Ascii.eqb x y && isPrefixOf p l.
Proof.
  unfold isPrefixOf. simpl.
  destruct (length p <=? length l)%nat, (Ascii.eqb x y); reflexivity.
Qed.

Lemma isPrefixOf_nil_r (x : ascii) (p : list ascii) : isPrefixOf (x :: p) [] = false.
Proof. reflexivity. Qed.

Lemma isPrefixOf_spec (p l : list ascii) :
  isPrefixOf p l = true <-> exists rest, l = p ++ rest.
Proof.
  revert l. induction p as [|x p IH]; intros l.
  - split; [intros _; now exists l | reflexivity].
  - destruct l as [|y l].
    + rewrite isPrefixOf_nil_r. split; [discriminate | intros [rest H]; discriminate].
    + rewrite isPrefixOf_cons, andb_true_iff, IH. split.
      * intros [Hxy [rest ->]]. apply Ascii.eqb_eq in Hxy. subst y. now exists rest.
      * intros [rest [= <- ->]]. split; [apply Ascii.eqb_refl | now exists rest].
Qed.

Lemma list_ascii_of_string_app (s1 s2 : string) :
  list_ascii_of_string (s1 +:+ s2)
  = list_ascii_of_string s1 ++ list_ascii_of_string s2.
Proof. induction s1 as [|c s1 IH]; simpl; [reflexivity | now rewrite IH]. Qed.

(** [endsWith] is the suffix test of [String.prototype.endsWith]. *)
Lemma endsWith_spec (str suffix : string) :
  endsWith str suffix = true <-> exists front, str = front +:+ suffix.
Proof.
  unfold endsWith. rewrite isPrefixOf_spec. split.
  - intros [rest H]. exists (string_of_list_ascii (rev rest)).
    rewrite <- (string_of_list_ascii_of_string str).
    rewrite <- (string_of_list_ascii_of_string (_ +:+ suffix)).
    f_equal. rewrite list_ascii_of_string_app, list_ascii_of_string_of_list_ascii.
    rewrite <- (rev_involutive (list_ascii_of_string str)), H, rev_app_distr.
    now rewrite rev_involutive.
  - intros [front ->]. exists (rev (list_ascii_of_string front)).
    now rewrite list_ascii_of_string_app, rev_app_distr.
Qed.

Lemma endsWith_js_not_ts (file : string) :
  endsWith file ".js" = true ->
  endsWith file ".ts" = false /\ endsWith file ".tsx" = false.
Proof.
  unfold endsWith. simpl rev.
  destruct (rev (list_ascii_of_string file)) as [|a [|b [|c l]]];
    rewrite ?isPrefixOf_cons, ?isPrefixOf_nil_r, ?andb_false_r;
    try discriminate.
  intros H. apply andb_true_iff in H as [Ha H].
  apply andb_true_iff in H as [Hb _].
  apply Ascii.eqb_eq in Ha, Hb. subst a b. split; reflexivity.
Qed.

Lemma getParserForFile_default (tsParseFile babelParseFile : string -> outcome ParseResult)
    (yamlLoad : string -> outcome unit) (file : string) :
  (endsWith file ".ts" = true ->
   getParserForFile (defaultParsers tsParseFile babelParseFile yamlLoad) file
   = Some (TypeScriptParser tsParseFile))
  /\ (endsWith file ".js" = true ->
      getParserForFile (defaultParsers tsParseFile babelParseFile yamlLoad) file
      = Some (BabelParser babelParseFile)).
Proof.
  unfold getParserForFile, defaultParsers. simpl. split; intros H.
  - now rewrite H.
  - destruct (endsWith_js_not_ts file H) as [-> ->]. now rewrite H.
Qed.

Lemma codeFile_dispatch (tsParseFile babelParseFile : string -> outcome ParseResult)
    (yamlLoad : string -> outcome unit) (files : list string) (file : string) :
  In file (codeFiles files) ->
  exists parser,
    getParserForFile (defaultParsers tsParseFile babelParseFile yamlLoad) file
    = Some parser
    /\ parseFile parser file = parseByExtension tsParseFile babelParseFile file.
Proof.
  intros Hin. apply filter_In in Hin as [_ Hext].
  pose proof (getParserForFile_default tsParseFile babelParseFile yamlLoad file)
    as [Hts Hjs].
  unfold parseByExtension.
  destruct (endsWith file ".ts") eqn:E.
  - exists (TypeScriptParser tsParseFile). split; [now apply Hts | reflexivity].
  - simpl in Hext. exists (BabelParser babelParseFile).
    split; [now apply Hjs | reflexivity].
Qed.

Lemma flat_map_ext_in {A B : Type} (f g : A -> list B) (l : list A) :
  (forall x, In x l -> f x = g x) -> flat_map f l = flat_map g l.
Proof.
  induction l as [|x l IH]; intros H; simpl; [reflexivity|].
  rewrite (H x (or_introl eq_refl)), IH; [reflexivity|].
  intros y Hy. apply H. now right.
Qed.

(** C4, as the code has it: [analyzeProject] keeps exactly the traversed
    files whose path ends with [.ts] or [.js]; with the registry as it is
    initialised, a [.ts] file goes to the TypeScript parser and a [.js]
    file to the Babel parser; every other file, whether or not a parser of
    the registry can handle it, adds nothing to the aggregate and leaves no
    warning or error: the log holds one error per code file that failed to
    parse and nothing else. *)
Theorem analyzeProject_dispatch
    (tsParseFile babelParseFile : string -> outcome ParseResult)
    (yamlLoad : string -> outcome unit) (files : list string) :
  let parsers := defaultParsers tsParseFile babelParseFile yamlLoad in
  let parse := parseByExtension tsParseFile babelParseFile in
  (forall file,
     In file (codeFiles files)
     <-> In file files /\ (endsWith file ".ts" = true \/ endsWith file ".js" = true))
  /\ (forall file,
        endsWith file ".ts" = true ->
        getParserForFile parsers file = Some (TypeScriptParser tsParseFile))
  /\ (forall file,
        endsWith file ".js" = true ->
        getParserForFile parsers file = Some (BabelParser babelParseFile))
  /\ functions (analyzeFiles parsers files).1
     = flat_map (fun file => outcome_functions (parse file)) (codeFiles files)
  /\ classes (analyzeFiles parsers files).1
     = flat_map (fun file => outcome_classes (parse file)) (codeFiles files)
  /\ (analyzeFiles parsers files).2
     = flat_map (fun file => outcome_log file (parse file)) (codeFiles files).
Proof.
  intros parsers parse.
  split; [|split; [|split]].
  - intros file. unfold codeFiles. rewrite filter_In, orb_true_iff. reflexivity.
  - intros file. apply getParserForFile_default.
  - intros file. apply getParserForFile_default.
  - subst parsers parse. rewrite analyzeFiles_spec. simpl.
    split; [|split]; apply flat_map_ext_in; intros file Hin;
      destruct (codeFile_dispatch tsParseFile babelParseFile yamlLoad files file Hin)
        as (parser & Hget & Hparse);
      unfold contribution, fileLog; rewrite Hget, Hparse;
      now destruct (parseByExtension tsParseFile babelParseFile file).
Qed.

(** C4, as stated, fails: the registry recognises [.tsx], [.jsx], [.yml]
    and [.yaml] files, but none of them passes the filter, so none is
    dispatched: a tree holding only such files yields the empty aggregate
    although every parser would return a function. *)
Lemma recognized_files_are_filtered_out :
  let parsers := defaultParsers parseFoo parseFoo loadsFine in
  let files := ["/p/view.tsx"; "/p/app.jsx"; "/p/ci.yml"; "/p/conf.yaml"] in
  let tree := Dir [("view.tsx", File "x"); ("app.jsx", File "x");
                   ("ci.yml", File "x"); ("conf.yaml", File "x")] in
  listFilesRecursively "/p" [("view.tsx", File "x"); ("app.jsx", File "x");
                             ("ci.yml", File "x"); ("conf.yaml", File "x")] = files
  /\ List.filter (recognized parsers) files = files
  /\ codeFiles files = []
  /\ codeFiles files <> List.filter (recognized parsers) files
  /\ analyzeProject same_path (sample_disk tree) parsers "/p"
     = (Returned emptyResult, []).
Proof.
  vm_compute. repeat split; try reflexivity. discriminate.
Qed.

(** ** Parse failures *)

Lemma getParserForFile_quiet (parsers : list ILanguageParser) (file : string) :
  getParserForFile (map quiet parsers) file
  = quiet <$> getParserForFile parsers file.
Proof.
  unfold getParserForFile.
  induction parsers as [|parser parsers IH]; simpl; [reflexivity|].
  destruct (canHandle parser file); [reflexivity | exact IH].
Qed.

Lemma contribution_quiet (parsers : list ILanguageParser) (file : string) :
  contribution (map quiet parsers) file = contribution parsers file.
Proof.
  unfold contribution. rewrite getParserForFile_quiet.
  destruct (getParserForFile parsers file) as [parser|]; simpl; [|reflexivity].
  now destruct (parseFile parser file).
Qed.

Lemma analyzeFiles_quiet (parsers : list ILanguageParser) (files : list string) :
  (analyzeFiles (map quiet parsers) files).1 = (analyzeFiles parsers files).1.
Proof.
  rewrite !analyzeFiles_spec. simpl.
  f_equal; apply flat_map_ext_in; intros file _; now rewrite contribution_quiet.
Qed.

Lemma parseFailures_logged (parsers : list ILanguageParser) (files : list string)
    (file err : string) :
  In (file, err) (parseFailures parsers files)
  <-> In (ErrorAnalyzingFile file err) (analyzeFiles parsers files).2.
Proof.
  rewrite analyzeFiles_spec. unfold parseFailures. simpl.
  induction (codeFiles files) as [|f l IH]; simpl; [reflexivity|].
  rewrite in_app_iff, <- IH. unfold fileLog.
  destruct (getParserForFile parsers f) as [parser|]; simpl.
  - destruct (parseFile parser f) as [result|e]; simpl; [tauto|].
    split.
    + intros [H|H]; [left; left | now right]. congruence.
    + intros [[H|[]]|H]; [left | now right]. congruence.
  - split; [now right|]. intros [[H|[]]|H]; [discriminate | exact H].
Qed.

(** C5, as the code has it: a file that fails to parse leaves one
    error-level log entry with its path and the error, and the loop goes
    on; the value returned to the caller is the aggregate alone, the same
    value that is returned when the failing files parse to nothing. *)
Theorem parse_failures_only_logged (path_normalize : string -> string)
    (disk : string -> option node) (parsers : list ILanguageParser)
    (folder : string) :
  let resolvedPath := path_normalize (trim folder) in
  (analyzeProject path_normalize disk parsers folder).1
  = (analyzeProject path_normalize disk (map quiet parsers) folder).1
  /\ forall entries,
       disk resolvedPath = Some (Dir entries) ->
       forall file err,
         In (file, err)
            (parseFailures parsers (listFilesRecursively resolvedPath entries))
         <-> In (ErrorAnalyzingFile file err)
                (analyzeProject path_normalize disk parsers folder).2.
Proof.
  intros resolvedPath. unfold analyzeProject. fold resolvedPath.
  destruct (disk resolvedPath) as [[content|entries]|]; simpl.
  - split; [reflexivity | discriminate].
  - split; [now rewrite analyzeFiles_quiet|].
    intros entries' [= <-] file err. apply parseFailures_logged.
  - split; [reflexivity | discriminate].
Qed.

(** C5, as stated, fails: the failures cannot be read off the value handed
    to the caller.  One tree, one file; it fails to parse in one world and
    parses to nothing in the other; the returned values are the same. *)
Lemma failures_absent_from_returned_value :
  ~ exists extract : outcome AnalysisResult -> list (string * string),
      forall (parsers : list ILanguageParser) (entries : list (string * node)),
        extract (analyzeProject same_path (sample_disk (Dir entries)) parsers "/p").1
        = parseFailures parsers (listFilesRecursively "/p" entries).
Proof.
  intros [extract H].
  pose proof (H (defaultParsers parseFails parseFails loadsFine) broken_entries) as H1.
  pose proof (H (defaultParsers parseNothing parseNothing loadsFine) broken_entries) as H2.
  vm_compute in H1, H2. rewrite H1 in H2. discriminate.
Qed.

(** ** The chunker does not write into the caller's objects *)

Section StoreFrame.
Import Store.
Variable n : nat.

Lemma preserves_refl (s : store) : preserves n s s.
Proof. split; [reflexivity | lia]. Qed.

Lemma preserves_trans (s1 s2 s3 : store) :
  preserves n s1 s2 -> preserves n s2 s3 -> preserves n s1 s3.
Proof. intros [E1 L1] [E2 L2]. split; [congruence | lia]. Qed.

Lemma framed_ret {A : Type} (a : A) (Q : A -> Prop) : Q a -> framed n (ret a) Q.
Proof.
  intros HQ s _. split; [apply preserves_refl|].
  intros a' [= <-]. exact HQ.
Qed.

Lemma framed_throw {A : Type} (message : string) (Q : A -> Prop) :
  framed n (throw message) Q.
Proof. intros s _. split; [apply preserves_refl | discriminate]. Qed.

Lemma framed_bind {A B : Type} (m : M A) (k : A -> M B)
    (P : A -> Prop) (Q : B -> Prop) :
  framed n m P ->
  (forall a, P a -> framed n (k a) Q) ->
  framed n (bind m k) Q.
Proof.
  intros Hm Hk s Hs. unfold bind.
  destruct (Hm s Hs) as [Hpres HP].
  destruct (m s) as [[a|message] s1]; simpl in *.
  - assert (Hs1 : (n <= length s1)%nat) by (destruct Hpres; lia).
    destruct (Hk a (HP a eq_refl) s1 Hs1) as [Hpres' HQ].
    split; [eapply preserves_trans; eassumption | exact HQ].
  - split; [exact Hpres | discriminate].
Qed.

Lemma framed_weaken {A : Type} (m : M A) (P Q : A -> Prop) :
  framed n m P -> (forall a, P a -> Q a) -> framed n m Q.
Proof.
  intros Hm HPQ s Hs. destruct (Hm s Hs) as [Hpres HP].
  split; [exact Hpres | intros a Ha; apply HPQ, HP, Ha].
Qed.

Lemma framed_readonly {A : Type} (m : M A) :
  readonly m -> framed n m (fun _ => True).
Proof.
  intros Hro s _. rewrite Hro. split; [apply preserves_refl | trivial].
Qed.

Lemma framed_alloc (o : object) : framed n (alloc o) (fresh n).
Proof.
  intros s Hs. unfold alloc; simpl. split.
  - split; [now rewrite take_app_le | rewrite length_app; lia].
  - intros a [= <-]. now exists (length s).
Qed.

Lemma framed_push (arr v : value) :
  fresh n arr -> framed n (push arr v) (fun _ => True).
Proof.
  intros (l & -> & Hl) s Hs. unfold push.
  repeat case_match; (split; [|trivial]); try apply preserves_refl.
  split; [now apply take_insert_ge|].
  apply Nat.eq_le_incl. symmetry. apply length_insert.
Qed.

Lemma readonly_ret {A : Type} (a : A) : readonly (ret a).
Proof. intros s. reflexivity. Qed.

Lemma readonly_throw {A : Type} (message : string) : readonly (@throw A message).
Proof. intros s. reflexivity. Qed.

Lemma readonly_bind {A B : Type} (m : M A) (k : A -> M B) :
  readonly m -> (forall a, readonly (k a)) -> readonly (bind m k).
Proof.
  intros Hm Hk s. unfold bind. specialize (Hm s).
  destruct (m s) as [[a|message] s1]; simpl in *; subst s1; [apply Hk | reflexivity].
Qed.

Lemma readonly_load (l : loc) : readonly (load l).
Proof. intros s. unfold load. now case_match. Qed.

Lemma readonly_getField (v : value) (key : string) : readonly (getField v key).
Proof.
  destruct v; simpl; try apply readonly_ret; try apply readonly_throw.
  apply readonly_bind; [apply readonly_load|].
  intros [elems|fields]; apply readonly_ret.
Qed.

Lemma readonly_ownFields (v : value) : readonly (ownFields v).
Proof.
  destruct v; simpl; try apply readonly_ret.
  apply readonly_bind; [apply readonly_load|].
  intros [elems|fields]; apply readonly_ret.
Qed.

Lemma readonly_isArray (v : value) : readonly (isArray v).
Proof.
  destruct v; simpl; try apply readonly_ret.
  apply readonly_bind; [apply readonly_load | intros o; apply readonly_ret].
Qed.

Lemma readonly_iterate (v : value) : readonly (iterate v).
Proof.
  destruct v; simpl; try apply readonly_ret; try apply readonly_throw.
  apply readonly_bind; [apply readonly_load|].
  intros [elems|fields]; [apply readonly_ret | apply readonly_throw].
Qed.

Lemma readonly_arrayLength (v : value) : readonly (arrayLength v).
Proof.
  apply readonly_bind; [apply readonly_iterate | intros; apply readonly_ret].
Qed.

Lemma readonly_stringifyTokens (v : value) : readonly (stringifyTokens v).
Proof.
  intros s. unfold stringifyTokens.
  now destruct (serialize (S (length s)) s v) as [[str|]|message].
Qed.

Lemma framed_forEach {A S : Type} (l : list A) (body : S -> A -> M S)
    (I : S -> Prop) :
  (forall st x, I st -> framed n (body st x) I) ->
  forall st, I st -> framed n (forEach l body st) I.
Proof.
  intros Hbody. induction l as [|x l IH]; intros st Hst; simpl.
  - now apply framed_ret.
  - eapply framed_bind; [now apply Hbody | exact IH].
Qed.

Lemma framed_mapM {A B : Type} (f : A -> M B) (Q : B -> Prop) (l : list A) :
  (forall x, framed n (f x) Q) -> framed n (mapM f l) (Forall Q).
Proof.
  intros Hf. induction l as [|x l IH]; simpl.
  - apply framed_ret. constructor.
  - eapply framed_bind; [apply Hf|]. intros y Hy.
    eapply framed_bind; [exact IH|]. intros ys Hys.
    apply framed_ret. now constructor.
Qed.

(** One step of a sequence: a read, an allocation, or a push onto an
    array created during the call. *)
Ltac frame_read :=
  eapply framed_bind;
  [apply framed_readonly;
   first [apply readonly_getField | apply readonly_ownFields
         | apply readonly_isArray | apply readonly_iterate
         | apply readonly_arrayLength | apply readonly_stringifyTokens]
  | intros ? _].

Tactic Notation "frame_alloc" ident(v) ident(H) :=
  eapply framed_bind; [apply framed_alloc | intros v H].

Ltac frame_push :=
  eapply framed_bind; [apply framed_push; assumption | intros _ _].

Lemma framed_copyArray (arr : value) : framed n (copyArray arr) (fresh n).
Proof. unfold copyArray. frame_read. apply framed_alloc. Qed.

Lemma framed_closeIfFull (maxChunkSize : Z) (chunkList : value) (tokens : Z)
    (st : value * Z) :
  fresh n chunkList -> fresh n st.1 ->
  framed n (closeIfFull maxChunkSize chunkList tokens st) (fun st' => fresh n st'.1).
Proof.
  intros HchunkList Hcur. unfold closeIfFull. frame_read.
  destruct (_ && _).
  - eapply framed_bind; [apply framed_copyArray | intros copy _].
    frame_push. frame_alloc v Hv. now apply framed_ret.
  - now apply framed_ret.
Qed.

Lemma framed_packFunction (maxChunkSize : Z) (functionChunks : value)
    (st : value * Z) (func : value) :
  fresh n functionChunks -> fresh n st.1 ->
  framed n (Store.packFunction maxChunkSize functionChunks st func)
         (fun st' => fresh n st'.1).
Proof.
  intros Hchunks Hcur. unfold Store.packFunction. frame_read. frame_read.
  destruct (_ >? _).
  - frame_read. frame_alloc v Hv. frame_read. frame_push. now apply framed_ret.
  - eapply framed_bind; [now apply framed_closeIfFull | intros st' Hst'].
    frame_push. now apply framed_ret.
Qed.

Lemma framed_flushInto (chunkList currentChunk : value) :
  fresh n chunkList -> framed n (flushInto chunkList currentChunk) (fun _ => True).
Proof.
  intros Hchunks. unfold flushInto. frame_read.
  destruct (0 <? _)%nat; [now apply framed_push | now apply framed_ret].
Qed.

Lemma framed_packMethod (maxChunkSize : Z) (methodChunks : value)
    (st : value * Z) (method : value) :
  fresh n methodChunks -> fresh n st.1 ->
  framed n (Store.packMethod maxChunkSize methodChunks st method)
         (fun st' => fresh n st'.1).
Proof.
  intros Hchunks Hcur. unfold Store.packMethod. frame_read.
  eapply framed_bind with (P := fun st' => fresh n st'.1).
  - destruct (_ >? _).
    + eapply framed_bind; [apply framed_copyArray | intros copy _].
      frame_push. frame_alloc v Hv. now apply framed_ret.
    + now apply framed_ret.
  - intros st' Hst'. frame_push. now apply framed_ret.
Qed.

Lemma framed_splitClass (maxChunkSize : Z) (currentChunk cls : value) :
  fresh n currentChunk ->
  framed n (splitClass maxChunkSize currentChunk cls) (fun _ => True).
Proof.
  intros Hcur. unfold splitClass.
  frame_alloc methodChunks HmethodChunks.
  frame_alloc currentMethods HcurrentMethods.
  frame_read.
  eapply framed_bind with (P := fun _ => True).
  { destruct (truthy _); [now apply framed_ret|].
    eapply framed_weaken; [apply framed_alloc | trivial]. }
  intros methods _. frame_read.
  eapply framed_bind.
  { apply (framed_forEach _ _ (fun st => fresh n st.1)); [|exact HcurrentMethods].
    intros st x Hst. now apply framed_packMethod. }
  intros st Hst.
  eapply framed_bind; [now apply framed_flushInto | intros _ _].
  frame_read.
  apply (framed_forEach _ _ (fun _ => True)); [|trivial].
  intros [] part _. frame_read. frame_alloc v Hv. now apply framed_push.
Qed.

Lemma framed_packClass (maxChunkSize : Z) (classChunks : value)
    (st : value * Z) (cls : value) :
  fresh n classChunks -> fresh n st.1 ->
  framed n (Store.packClass maxChunkSize classChunks st cls)
         (fun st' => fresh n st'.1).
Proof.
  intros Hchunks Hcur. unfold Store.packClass. frame_read. frame_read.
  destruct (_ >? _).
  - eapply framed_bind; [now apply framed_splitClass | intros _ _].
    now apply framed_ret.
  - eapply framed_bind; [now apply framed_closeIfFull | intros st' Hst'].
    frame_push. now apply framed_ret.
Qed.

Lemma framed_pushChunks (chunks context : value) (key : string) (chunkList : value) :
  fresh n chunks ->
  framed n (pushChunks chunks context key chunkList) (fun _ => True).
Proof.
  intros Hchunks. unfold pushChunks. frame_read.
  eapply framed_bind.
  { apply (framed_mapM _ (fresh n)). intros list. frame_read. apply framed_alloc. }
  intros made _.
  apply (framed_forEach _ _ (fun _ => True)); [|trivial].
  intros [] chunk _. now apply framed_push.
Qed.

Lemma framed_pass (step : value -> value * Z -> value -> M (value * Z))
    (chunks context : value) (key : string) :
  (forall chunkList st x,
     fresh n chunkList -> fresh n st.1 ->
     framed n (step chunkList st x) (fun st' => fresh n st'.1)) ->
  fresh n chunks ->
  framed n (pass step chunks context key) (fun _ => True).
Proof.
  intros Hstep Hchunks. unfold pass. frame_read. frame_read.
  destruct (_ && _); [|now apply framed_ret].
  frame_alloc chunkList HchunkList.
  frame_alloc currentChunk HcurrentChunk.
  frame_read.
  eapply framed_bind.
  { apply (framed_forEach _ _ (fun st => fresh n st.1)); [|exact HcurrentChunk].
    intros st x Hst. now apply Hstep. }
  intros st Hst.
  eapply framed_bind; [now apply framed_flushInto | intros _ _].
  now apply framed_pushChunks.
Qed.

Lemma framed_chunkCodebase (context : value) (maxChunkSize : Z) :
  framed n (Store.chunkCodebase context maxChunkSize) (fun _ => True).
Proof.
  unfold Store.chunkCodebase.
  frame_alloc chunks Hchunks.
  eapply framed_bind.
  { apply framed_pass; [|exact Hchunks].
    intros chunkList st x. apply framed_packFunction. }
  intros _ _.
  eapply framed_bind.
  { apply framed_pass; [|exact Hchunks].
    intros chunkList st x. apply framed_packClass. }
  intros _ _. frame_read.
  eapply framed_bind.
  { apply (framed_forEach _ _ (fun _ => True)); [|trivial].
    intros [] chunk _. frame_read. now apply framed_ret. }
  intros _ _.
  destruct (0 <? _)%nat; [now apply framed_ret|].
  eapply framed_weaken; [apply framed_alloc | trivial].
Qed.

End StoreFrame.

(** C9: whatever the store, the context and the budget, and whether the
    call returns or throws, every object that exists when [chunkCodebase]
    is called is the same object afterwards: the context, its functions and
    classes arrays and every entity in them are left as they were, the
    chunker writing only into arrays and objects that it has created. *)
Theorem chunkCodebase_leaves_input_unchanged (s : Store.store)
    (context : Store.value) (maxChunkSize : Z) :
  let s' := (Store.chunkCodebase context maxChunkSize s).2 in
  (exists created, s' = s ++ created)
  /\ forall (l : Store.loc) (o : Store.object), s !! l = Some o -> s' !! l = Some o.
Proof.
  intros s'.
  destruct (framed_chunkCodebase (length s) context maxChunkSize s (le_n _))
    as [[Htake Hlen] _].
  fold s' in Htake, Hlen. rewrite firstn_all in Htake.
  assert (E : s' = s ++ drop (length s) s').
  { rewrite <- Htake at 1. symmetry. apply take_drop. }
  split; [now exists (drop (length s) s')|].
  intros l o Hl. rewrite E. now apply lookup_app_l_Some.
Qed.

(** The store-level chunker and the chunker on records agree on the
    samples, chunk by chunk, up to serialization; the budgets exercise the
    truncation of a function, the splitting of a class, the closing of
    chunks and the empty input. *)
Example store_chunker_agrees_30 :
  Encode.chunkSerializations two_function_result 30
  = Returned (map (fun chunk => Returned (Some (stringify_result chunk)))
                  (chunkCodebase two_function_result 30)).
Proof. vm_compute. reflexivity. Qed.

Example store_chunker_agrees_50 :
  Encode.chunkSerializations two_function_result 50
  = Returned (map (fun chunk => Returned (Some (stringify_result chunk)))
                  (chunkCodebase two_function_result 50)).
Proof. vm_compute. reflexivity. Qed.

Example store_chunker_agrees_100 :
  Encode.chunkSerializations two_function_result 100
  = Returned (map (fun chunk => Returned (Some (stringify_result chunk)))
                  (chunkCodebase two_function_result 100)).
Proof. vm_compute. reflexivity. Qed.

Example store_chunker_agrees_empty :
  Encode.chunkSerializations emptyResult 30
  = Returned (map (fun chunk => Returned (Some (stringify_result chunk)))
                  (chunkCodebase emptyResult 30)).
Proof. vm_compute. reflexivity. Qed.

(** * Part III: further properties of the code *)

(** ** The parser registry *)

Lemma find_app {A} (f : A -> bool) l1 l2 :
  List.find f (l1 ++ l2) = match List.find f l1 with Some x => Some x | None => List.find f l2 end.
Proof. induction l1 as [|x l1 IH]; simpl; [reflexivity|]. destruct (f x); auto. Qed.

(** X1: A parser registered later never takes a file from a parser registered
    before it: the file goes to the parser it went to before, and to the new
    parser only when no earlier one handles it. *)
Theorem registerParser_keeps_priority (parsers : list ILanguageParser)
    (parser : ILanguageParser) (file : string) :
  getParserForFile (registerParser parsers parser) file
  = match getParserForFile parsers file with
    | Some earlier => Some earlier
    | None => if canHandle parser file then Some parser else None
    end.
Proof.
  unfold getParserForFile, registerParser. rewrite find_app. simpl.
  destruct (List.find _ parsers); [reflexivity|]. now destruct (canHandle parser file).
Qed.

Ltac case_chars :=
  repeat first
    [ match goal with
      | |- context [Ascii.eqb ?c ?v] =>
          is_var v; destruct (Ascii.eqb_spec c v); [subst v|]
      end
    | match goal with
      | |- context [Ascii.eqb ?c ?d] =>
          let r := eval vm_compute in (Ascii.eqb c d) in
          change (Ascii.eqb c d) with r
      end
    | progress cbn [andb orb negb] ].

Lemma isPrefixOf_nil (l : list ascii) : isPrefixOf [] l = true.
Proof. reflexivity. Qed.

Lemma extension_classes_disjoint (file : string) :
  let ts := endsWith file ".ts" || endsWith file ".tsx" in
  let js := endsWith file ".js" || endsWith file ".jsx" in
  let yaml := endsWith file ".yml" || endsWith file ".yaml" in
  (ts && js = false) /\ (ts && yaml = false) /\ (js && yaml = false).
Proof.
  unfold endsWith. simpl rev.
  destruct (rev (list_ascii_of_string file)) as [|a [|b [|c [|d [|e l]]]]];
    rewrite ?isPrefixOf_cons, ?isPrefixOf_nil_r, ?isPrefixOf_nil;
    case_chars; rewrite ?andb_false_r; cbn [andb orb]; repeat split; reflexivity.
Qed.

Lemma find_some_unique {A : Type} (f : A -> bool) (l l' : list A) :
  (forall x y, In x l -> In y l -> f x = true -> f y = true -> x = y) ->
  Permutation l l' -> List.find f l' = List.find f l.
Proof.
  intros Huniq Hperm.
  destruct (List.find f l) as [x|] eqn:E; destruct (List.find f l') as [y|] eqn:E'.
  - apply find_some in E as [Hx Hfx]. apply find_some in E' as [Hy Hfy].
    f_equal. apply Huniq; auto. eapply Permutation_in; [symmetry; eassumption | exact Hy].
  - apply find_some in E as [Hx Hfx].
    eapply find_none in E'; [|eapply Permutation_in; eassumption]. congruence.
  - apply find_some in E' as [Hy Hfy].
    eapply find_none in E; [|eapply Permutation_in; [symmetry; eassumption | exact Hy]].
    congruence.
  - reflexivity.
Qed.

(** X2: The three parsers of the initial registry handle disjoint sets of
    paths, so that the parser chosen for a file does not depend on the order
    in which they stand in the registry. *)
Theorem default_dispatch_order_irrelevant
    (tsParseFile babelParseFile : string -> outcome ParseResult)
    (yamlLoad : string -> outcome unit)
    (parsers : list ILanguageParser) (file : string) :
  Permutation (defaultParsers tsParseFile babelParseFile yamlLoad) parsers ->
  getParserForFile parsers file
  = getParserForFile (defaultParsers tsParseFile babelParseFile yamlLoad) file.
Proof.
  intros Hperm. unfold getParserForFile. apply find_some_unique; [|exact Hperm].
  pose proof (extension_classes_disjoint file) as (Htj & Hty & Hjy).
  cbv zeta in Htj, Hty, Hjy.
  intros p q Hp Hq Hfp Hfq. unfold defaultParsers in Hp, Hq. simpl in Hp, Hq.
  destruct Hp as [<-|[<-|[<-|[]]]]; destruct Hq as [<-|[<-|[<-|[]]]];
    try reflexivity; simpl in Hfp, Hfq; rewrite Hfp, Hfq in *; discriminate.
Qed.

Lemma default_dispatch_order_irrelevant_witness :
  getParserForFile [YAMLParser loadsFine; BabelParser parseFoo; TypeScriptParser parseFoo]
                   "/p/app.jsx"
  = getParserForFile (defaultParsers parseFoo parseFoo loadsFine) "/p/app.jsx".
Proof.
  apply default_dispatch_order_irrelevant.
  unfold defaultParsers. apply Permutation_rev.
Defined.

(** ** White space around paths and comments *)

Lemma trimStart_allWhiteSpace (ws : string) :
  allWhiteSpace ws = true -> trimStart ws = EmptyString.
Proof.
  induction ws as [|c ws IH]; [reflexivity|]. simpl.
  intros H. apply andb_true_iff in H as [-> H]. auto.
Qed.

Lemma trimEnd_allWhiteSpace (ws : string) :
  allWhiteSpace ws = true -> trimEnd ws = EmptyString.
Proof.
  induction ws as [|c ws IH]; [reflexivity|]. simpl.
  intros H. apply andb_true_iff in H as [-> H]. now rewrite IH.
Qed.

Lemma trimStart_padding (ws s : string) :
  allWhiteSpace ws = true -> trimStart (ws +:+ s) = trimStart s.
Proof.
  induction ws as [|c ws IH]; [reflexivity|]. simpl.
  intros H. apply andb_true_iff in H as [Hc H].
  rewrite ?append_String. simpl. rewrite Hc. auto.
Qed.

Lemma trimEnd_padding (s ws : string) :
  allWhiteSpace ws = true -> trimEnd (s +:+ ws) = trimEnd s.
Proof.
  intros H. induction s as [|c s IH].
  - rewrite append_Empty. now apply trimEnd_allWhiteSpace.
  - rewrite ?append_String. simpl. now rewrite IH.
Qed.

Lemma trim_padding_end (s ws : string) :
  allWhiteSpace ws = true -> trim (s +:+ ws) = trim s.
Proof.
  intros H. unfold trim. induction s as [|c s IH].
  - rewrite append_Empty. now rewrite trimStart_allWhiteSpace.
  - rewrite ?append_String. simpl. destruct (isWhiteSpace c); [exact IH|].
    change (String c (s +:+ ws)) with (String c s +:+ ws).
    now rewrite trimEnd_padding.
Qed.

Lemma trim_padding (ws1 s ws2 : string) :
  allWhiteSpace ws1 = true -> allWhiteSpace ws2 = true ->
  trim (ws1 +:+ s +:+ ws2) = trim s.
Proof.
  intros H1 H2. rewrite <- (trim_padding_end s ws2 H2).
  unfold trim. now rewrite trimStart_padding.
Qed.

Lemma trimEnd_last (s : string) (c : ascii) :
  lastChar (trimEnd s) = Some c -> isWhiteSpace c = false.
Proof.
  revert c. induction s as [|d s IH]; intros c; [discriminate|]. simpl.
  destruct (trimEnd s) as [|e kept] eqn:E.
  - destruct (isWhiteSpace d) eqn:Hd; [discriminate|]. simpl. now intros [= <-].
  - change (lastChar (String d (String e kept)))
      with (match lastChar (String e kept) with None => Some d | Some x => Some x end).
    destruct (lastChar (String e kept)) as [x|] eqn:El; [|simpl in El; now destruct (lastChar kept)].
    intros [= <-]. now apply IH.
Qed.

Lemma trimStart_first (s : string) (c : ascii) :
  firstChar (trimStart s) = Some c -> isWhiteSpace c = false.
Proof.
  induction s as [|d s IH]; [discriminate|]. simpl.
  destruct (isWhiteSpace d) eqn:Hd; [exact IH|]. simpl. now intros [= <-].
Qed.

Lemma trimEnd_first (s : string) (c : ascii) :
  firstChar (trimEnd s) = Some c -> firstChar s = Some c.
Proof.
  destruct s as [|d s]; [discriminate|]. simpl.
  destruct (trimEnd s); [destruct (isWhiteSpace d)|]; simpl; auto. discriminate.
Qed.

Lemma trim_trimmed (s : string) : trimmed (trim s).
Proof.
  split; intros c H.
  - apply trimEnd_first in H. now apply trimStart_first in H.
  - now apply trimEnd_last in H.
Qed.

(** X3: The outcome and the log of [analyzeProject] do not depend on white
    space before or after the folder path. *)
Theorem analyzeProject_ignores_padding (path_normalize : string -> string)
    (disk : string -> option node) (parsers : list ILanguageParser)
    (before folder after : string) :
  allWhiteSpace before = true ->
  allWhiteSpace after = true ->
  analyzeProject path_normalize disk parsers (before +:+ folder +:+ after)
  = analyzeProject path_normalize disk parsers folder.
Proof.
  intros H1 H2. unfold analyzeProject. now rewrite trim_padding.
Qed.

Lemma analyzeProject_ignores_padding_witness :
  analyzeProject same_path (sample_disk (Dir broken_entries))
                 (defaultParsers parseFoo parseFoo loadsFine)
                 ("  " +:+ "/p" +:+ " ")
  = analyzeProject same_path (sample_disk (Dir broken_entries))
                   (defaultParsers parseFoo parseFoo loadsFine) "/p".
Proof.
  apply analyzeProject_ignores_padding; reflexivity.
Defined.

(** X4: Only the leading comment closest to the node counts: the result is
    its trimmed text when it is a block comment and the empty string when
    it is a line comment, whatever comments stand before it; the result
    neither starts nor ends with white space. *)
Theorem extractDocumentation_last_comment (earlier : list Comment) (closest : Comment) :
  extractDocumentation (Some (earlier ++ [closest]))
  = (if isCommentBlock closest then trim (comment_value closest) else EmptyString)
  /\ forall leadingComments, trimmed (extractDocumentation leadingComments).
Proof.
  split.
  - unfold extractDocumentation. now rewrite last_snoc.
  - intros [comments|]; unfold extractDocumentation.
    + destruct (last comments) as [docBlock|].
      * destruct (isCommentBlock docBlock); [apply trim_trimmed|].
        split; discriminate.
      * split; discriminate.
    + split; discriminate.
Qed.

(** ** The file listing *)











Lemma codeFiles_app (l1 l2 : list string) :
  codeFiles (l1 ++ l2) = codeFiles l1 ++ codeFiles l2.
Proof. apply List.filter_app. Qed.

(** X6: Analysing a list of files gives the analyses of its parts, one after
    the other: functions, classes and log entries come in file order, and
    a file's outcome does not depend on the files around it. *)
Theorem analyzeFiles_app (parsers : list ILanguageParser) (files1 files2 : list string) :
  let whole := analyzeFiles parsers (files1 ++ files2) in
  let part1 := analyzeFiles parsers files1 in
  let part2 := analyzeFiles parsers files2 in
  functions whole.1 = functions part1.1 ++ functions part2.1
  /\ classes whole.1 = classes part1.1 ++ classes part2.1
  /\ whole.2 = part1.2 ++ part2.2.
Proof.
  cbv zeta. rewrite !analyzeFiles_spec, codeFiles_app. simpl.
  now rewrite !flat_map_app.
Qed.

(** ** Shape of the chunks *)

Section GreedyShape.
Context {A : Type}.
Variable tokens : A -> Z.
Variable decompose : A -> list A.
Variable maxChunkSize : Z.

Lemma greedyStep_closed_nonempty (st : packing A) (x : A) :
  Forall (fun chunk => chunk <> []) (closed st) ->
  Forall (fun chunk => chunk <> []) (closed (greedyStep tokens decompose maxChunkSize st x)).
Proof.
  intros H. unfold greedyStep. destruct (tokens x >? maxChunkSize); [exact H|].
  destruct (currentSize st + tokens x >? maxChunkSize); simpl; [|exact H].
  destruct (currentChunk st) as [|y cur] eqn:E; simpl; [exact H|].
  apply Forall_app. split; [exact H|]. repeat constructor. discriminate.
Qed.

Lemma greedy_flush_nonempty (l : list A) :
  Forall (fun chunk => chunk <> [])
         (flush (fold_left (greedyStep tokens decompose maxChunkSize) l emptyPacking)).
Proof.
  assert (H : Forall (fun chunk => chunk <> [])
                     (closed (fold_left (greedyStep tokens decompose maxChunkSize) l
                                        emptyPacking))).
  { assert (H0 : Forall (fun chunk : list A => chunk <> []) (closed (@emptyPacking A)))
      by constructor.
    revert H0. generalize (@emptyPacking A).
    induction l as [|x l IH]; intros st Hst; simpl; [exact Hst|].
    apply IH. now apply greedyStep_closed_nonempty. }
  unfold flush. destruct (currentChunk _) as [|y cur] eqn:E; simpl; [exact H|].
  apply Forall_app. split; [exact H|]. repeat constructor. discriminate.
Qed.

(** When the whole list fits the budget, nothing is closed before the end. *)
Lemma greedy_fold_fits (l : list A) :
  forall done,
    Forall (fun x => 0 <= tokens x) (done ++ l) ->
    totalTokens tokens (done ++ l) <= maxChunkSize ->
    fold_left (greedyStep tokens decompose maxChunkSize) l
              (mkPacking [] done (totalTokens tokens done))
    = mkPacking [] (done ++ l) (totalTokens tokens (done ++ l)).
Proof.
  induction l as [|x l IH]; intros done Hpos Hfit; simpl.
  - now rewrite app_nil_r.
  - assert (Hl : 0 <= totalTokens tokens l).
    { apply Forall_app in Hpos as [_ Hpos]. apply Forall_cons in Hpos as [_ Hpos].
      clear -Hpos. induction Hpos; simpl; lia. }
    assert (Hd : 0 <= totalTokens tokens done).
    { apply Forall_app in Hpos as [Hpos _].
      clear -Hpos. induction Hpos; simpl; lia. }
    assert (Hx : 0 <= tokens x).
    { apply Forall_app in Hpos as [_ Hpos]. now apply Forall_cons in Hpos as [Hx _]. }
    rewrite totalTokens_app in Hfit. simpl in Hfit.
    unfold greedyStep at 2.
    destruct (Z.gtb_spec (tokens x) maxChunkSize); [lia|]. simpl.
    destruct (Z.gtb_spec (totalTokens tokens done + tokens x) maxChunkSize); [lia|].
    simpl.
    replace (totalTokens tokens done + tokens x)
      with (totalTokens tokens (done ++ [x]))
      by (rewrite totalTokens_app; simpl; lia).
    replace (done ++ x :: l) with ((done ++ [x]) ++ l) by now rewrite <- app_assoc.
    apply IH.
    + now rewrite <- app_assoc.
    + rewrite <- app_assoc. simpl. rewrite totalTokens_app. simpl. lia.
Qed.

Lemma greedy_flush_fits (l : list A) :
  l <> [] ->
  Forall (fun x => 0 <= tokens x) l ->
  totalTokens tokens l <= maxChunkSize ->
  flush (fold_left (greedyStep tokens decompose maxChunkSize) l emptyPacking) = [l].
Proof.
  intros Hne Hpos Hfit.
  change (@emptyPacking A) with (mkPacking (@nil (list A)) (@nil A) (totalTokens tokens [])).
  rewrite greedy_fold_fits; [|exact Hpos|exact Hfit]. simpl.
  unfold flush. simpl. destruct l; [contradiction | reflexivity].
Qed.

(** When every element is oversized, nothing is closed and nothing is
    counted. *)
Lemma greedy_fold_all_oversized (l : list A) :
  forall st,
    Forall (fun x => tokens x > maxChunkSize) l ->
    fold_left (greedyStep tokens decompose maxChunkSize) l st
    = mkPacking (closed st) (currentChunk st ++ flat_map decompose l) (currentSize st).
Proof.
  induction l as [|x l IH]; intros st Hbig; simpl.
  - rewrite app_nil_r. now destruct st.
  - apply Forall_cons in Hbig as [Hx Hbig]. rewrite IH; [|exact Hbig].
    unfold greedyStep. destruct (Z.gtb_spec (tokens x) maxChunkSize); [|lia].
    simpl. now rewrite <- app_assoc.
Qed.
End GreedyShape.

Lemma length_concat_nonempty {A : Type} (ls : list (list A)) :
  Forall (fun l => l <> []) ls -> (length ls <= length (concat ls))%nat.
Proof.
  induction 1 as [|l ls Hl _ IH]; simpl; [lia|].
  rewrite length_app. destruct l; [contradiction | simpl; lia].
Qed.

(** X7: No pass emits a chunk whose packed list is empty, and the function pass
    emits at most one chunk per function. *)
Theorem chunks_are_never_empty (context : AnalysisResult) (maxChunkSize : Z) :
  Forall (fun chunk => functions chunk <> []) (functionPass context maxChunkSize)
  /\ Forall (fun chunk => classes chunk <> []) (classPass context maxChunkSize)
  /\ (length (functionPass context maxChunkSize) <= length (functions context))%nat.
Proof.
  assert (Hf : Forall (fun chunk => chunk <> [])
                      (functionChunks maxChunkSize (functions context))).
  { unfold functionChunks. rewrite packFunction_greedy. apply greedy_flush_nonempty. }
  split; [|split].
  - unfold functionPass. apply Forall_map. exact Hf.
  - unfold classPass. apply Forall_map. simpl.
    unfold classChunks. rewrite packClass_greedy. apply greedy_flush_nonempty.
  - unfold functionPass. rewrite length_map.
    apply length_concat_nonempty in Hf.
    rewrite functionChunks_concat, length_map in Hf. exact Hf.
Qed.

Lemma funcTokens_nonneg (func : FunctionAnalysis) : 0 <= funcTokens func.
Proof. apply estimateTokens_nonneg. Qed.

Lemma clsTokens_nonneg (cls : ClassAnalysis) : 0 <= clsTokens cls.
Proof. apply estimateTokens_nonneg. Qed.

Lemma functionChunks_fitting (maxChunkSize : Z) (funcs : list FunctionAnalysis) :
  funcs <> [] ->
  totalTokens funcTokens funcs <= maxChunkSize ->
  functionChunks maxChunkSize funcs = [funcs].
Proof.
  intros Hf Hfit. unfold functionChunks. rewrite packFunction_greedy.
  apply greedy_flush_fits; [exact Hf | | exact Hfit].
  apply Forall_forall. intros f _. apply funcTokens_nonneg.
Qed.

Lemma classChunks_fitting (maxChunkSize : Z) (clss : list ClassAnalysis) :
  clss <> [] ->
  totalTokens clsTokens clss <= maxChunkSize ->
  classChunks maxChunkSize clss = [clss].
Proof.
  intros Hc Hfit. unfold classChunks. rewrite packClass_greedy.
  apply greedy_flush_fits; [exact Hc | | exact Hfit].
  apply Forall_forall. intros c _. apply clsTokens_nonneg.
Qed.

(** X8: A context whose functions together, and whose classes together, fit
    the budget is not split: each pass emits the whole context once, so a
    context with functions and classes comes out as two equal chunks. *)
Theorem small_context_is_emitted_whole (context : AnalysisResult) (maxChunkSize : Z) :
  functions context <> [] ->
  classes context <> [] ->
  totalTokens funcTokens (functions context) <= maxChunkSize ->
  totalTokens clsTokens (classes context) <= maxChunkSize ->
  chunkCodebase context maxChunkSize = [context; context].
Proof.
  intros Hf Hc Hfit Hcfit.
  unfold chunkCodebase, functionPass, classPass.
  rewrite (functionChunks_fitting _ _ Hf Hfit), (classChunks_fitting _ _ Hc Hcfit).
  simpl. now destruct context.
Qed.

Lemma small_context_is_emitted_whole_witness :
  chunkCodebase sample_result defaultMaxChunkSize = [sample_result; sample_result].
Proof.
  apply small_context_is_emitted_whole;
    [discriminate | discriminate | vm_compute; discriminate | vm_compute; discriminate].
Defined.
Lemma string_length_app (a b : string) :
  String.length (a +:+ b) = (String.length a + String.length b)%nat.
Proof.
  induction a as [|c a IH]; [reflexivity|].
  rewrite append_String. simpl. now rewrite IH.
Qed.

Lemma join_comma_length (l : list string) :
  String.length (join_comma l) = (totalLength l + pred (length l))%nat.
Proof.
  induction l as [|x [|y l] IH]; [reflexivity | simpl; lia |].
  change (join_comma (x :: y :: l)) with (x +:+ "," +:+ join_comma (y :: l)).
  rewrite !string_length_app, IH. simpl. lia.
Qed.

Lemma totalLength_app (l1 l2 : list string) :
  totalLength (l1 ++ l2) = (totalLength l1 + totalLength l2)%nat.
Proof. induction l1 as [|x l1 IH]; simpl; [reflexivity | rewrite IH; lia]. Qed.

Lemma json_object_length (fields : list (string * option string)) :
  String.length (json_object fields)
  = (2 + String.length
           (join_comma
              (omap (fun kv => match kv.2 with
                               | Some v => Some (json_string kv.1 +:+ ":" +:+ v)
                               | None => None
                               end) fields)))%nat.
Proof.
  unfold json_object. rewrite !string_length_app. simpl. lia.
Qed.

Lemma funcTokens_positive (func : FunctionAnalysis) : 1 <= funcTokens func.
Proof.
  unfold funcTokens, estimateTokens, stringify_function.
  rewrite json_object_length.
  apply Z.div_le_lower_bound; lia.
Qed.

(** X9: With a budget below one token every function is oversized: the
    function pass emits a single chunk holding the body-less copy of every
    function. *)
Theorem no_budget_truncates_everything (maxChunkSize : Z)
    (funcs : list FunctionAnalysis) :
  maxChunkSize <= 0 ->
  funcs <> [] ->
  functionChunks maxChunkSize funcs = [map funcWithoutBody funcs].
Proof.
  intros Hmax Hne. unfold functionChunks.
  rewrite packFunction_greedy, greedy_fold_all_oversized.
  - simpl. rewrite flat_map_singleton. unfold flush. simpl.
    destruct funcs; [contradiction | reflexivity].
  - apply Forall_forall. intros f _. pose proof (funcTokens_positive f). lia.
Qed.

Lemma no_budget_truncates_everything_witness :
  functionChunks 0 [sample_function; big_function]
  = [map funcWithoutBody [sample_function; big_function]].
Proof.
  apply no_budget_truncates_everything; [lia | discriminate].
Defined.

Lemma packMethod_closed_grows (maxChunkSize : Z) (methods : list ClassMethod) :
  forall st,
  exists more,
    closed (fold_left (packMethod maxChunkSize) methods st) = closed st ++ more.
Proof.
  induction methods as [|m methods IH]; intros st; simpl.
  - exists []. now rewrite app_nil_r.
  - destruct (IH (packMethod maxChunkSize st m)) as [more ->].
    unfold packMethod. destruct (_ >? _); simpl.
    + exists ([currentChunk st] ++ more). now rewrite <- app_assoc.
    + now exists more.
Qed.

(** X10: When the first method of a large class exceeds the budget on its own,
    the first partial record of the class holds no method at all, and the
    methods follow in the later records. *)
Theorem oversized_first_method_gives_empty_part (maxChunkSize : Z)
    (cls : ClassAnalysis) (first : ClassMethod) (others : list ClassMethod) :
  c_methods cls = first :: others ->
  methodTokens first > maxChunkSize ->
  exists part rest,
    partialClasses maxChunkSize cls = part :: rest
    /\ c_methods part = []
    /\ c_note part = Some (partNote 0 (S (length rest)))
    /\ concat (map c_methods rest) = first :: others.
Proof.
  intros Hm Hbig.
  assert (Hgroups : exists groups,
             methodChunks maxChunkSize (c_methods cls) = [] :: groups).
  { rewrite Hm. unfold methodChunks. simpl.
    unfold packMethod at 2. simpl.
    destruct (Z.gtb_spec (0 + methodTokens first) maxChunkSize); [|lia]. simpl.
    destruct (packMethod_closed_grows maxChunkSize others
                (mkPacking [[]] [first] (0 + methodTokens first))) as [more Hmore].
    unfold flush. rewrite Hmore. simpl.
    destruct (0 <? _)%nat; eauto. }
  destruct Hgroups as [groups Hgroups].
  pose proof (partialClasses_methods maxChunkSize cls) as Hpm.
  pose proof (methodChunks_concat maxChunkSize (c_methods cls)) as Hcat.
  unfold partialClasses in *. rewrite Hgroups in *.
  rewrite imap_cons in *. injection Hpm as Hpm.
  eexists _, _. split; [reflexivity|]. split; [reflexivity|]. split.
  - simpl. now rewrite length_imap.
  - rewrite <- Hm, <- Hcat. simpl concat. f_equal. exact Hpm.
Qed.

Lemma oversized_first_method_gives_empty_part_witness :
  exists part rest,
    partialClasses 10 sample_class = part :: rest
    /\ c_methods part = []
    /\ c_note part = Some (partNote 0 (S (length rest)))
    /\ concat (map c_methods rest) = [sample_method; sample_method; sample_method].
Proof.
  apply (oversized_first_method_gives_empty_part 10 sample_class sample_method
           [sample_method; sample_method]); [reflexivity | vm_compute; reflexivity].
Defined.

Lemma estimateTokens_longer (a b : string) :
  (String.length a + 40 <= String.length b)%nat ->
  estimateTokens a + 10 <= estimateTokens b.
Proof.
  intros H. unfold estimateTokens.
  assert (Z.of_nat (String.length a) + 40 <= Z.of_nat (String.length b)) by lia.
  Z.to_euclidean_division_equations. lia.
Qed.

(** X11: For a function without a [body] key, as the Babel parser builds them,
    the copy that stands for it when it is oversized is 41 characters
    longer than the function itself: its estimate is larger by at least 10
    tokens, so it is still over the budget. *)
Theorem truncation_enlarges_bodyless_function (func : FunctionAnalysis) :
  f_body func = None ->
  String.length (stringify_function (funcWithoutBody func))
  = (String.length (stringify_function func) + 41)%nat
  /\ funcTokens func + 10 <= funcTokens (funcWithoutBody func)
  /\ forall maxChunkSize,
       funcTokens func > maxChunkSize ->
       funcTokens (funcWithoutBody func) > maxChunkSize.
Proof.
  intros Hbody.
  assert (E : String.length (stringify_function (funcWithoutBody func))
              = (String.length (stringify_function func) + 41)%nat).
  { unfold stringify_function. rewrite !json_object_length. simpl f_name.
    simpl f_type. simpl f_parameters. simpl f_returnType. simpl f_body.
    simpl f_codeSnippet. simpl f_documentation. simpl f_location.
    rewrite Hbody.
    match goal with
    | |- context [omap ?g [?a; ?b; ?c; ?d; ?e; ?x; ?y; ?z]] =>
        change [a; b; c; d; e; x; y; z] with ([a; b; c; d] ++ [e] ++ [x; y; z])
    end.
    match goal with
    | |- context [(_ + String.length (join_comma (omap ?g [?a; ?b; ?c; ?d; ?e; ?x; ?y; ?z])) + 41)%nat] =>
        change [a; b; c; d; e; x; y; z] with ([a; b; c; d] ++ [e] ++ [x; y; z])
    end.
    rewrite !omap_app, !join_comma_length, !totalLength_app, !length_app.
    set (pre := omap _ [_; _; _; _]). set (post := omap _ [_; _; _]).
    assert (Hpre : (1 <= length pre)%nat) by (subst pre; simpl; lia).
    clearbody pre post.
    simpl omap. simpl length.
    assert (Hpart : totalLength [json_string "body" +:+ ":" +:+ json_string truncated_body]
                    = 40%nat) by (vm_compute; reflexivity).
    rewrite Hpart. simpl totalLength. lia. }
  split; [exact E|].
  assert (Htok : funcTokens func + 10 <= funcTokens (funcWithoutBody func)).
  { unfold funcTokens. apply estimateTokens_longer. lia. }
  split; [exact Htok|]. intros maxChunkSize Hbig. lia.
Qed.

Lemma truncation_enlarges_bodyless_function_witness :
  funcTokens babel_function + 10 <= funcTokens (funcWithoutBody babel_function).
Proof.
  apply (truncation_enlarges_bodyless_function babel_function). reflexivity.
Defined.

(** ** The array returned by the store-level chunker *)

Lemma framed_chunkCodebase_fresh (n : nat) (context : Store.value) (maxChunkSize : Z) :
  framed n (Store.chunkCodebase context maxChunkSize) (fresh n).
Proof.
  unfold Store.chunkCodebase.
  eapply framed_bind; [apply framed_alloc | intros chunks Hchunks].
  eapply framed_bind.
  { apply framed_pass; [|exact Hchunks].
    intros chunkList st x. apply framed_packFunction. }
  intros _ _.
  eapply framed_bind.
  { apply framed_pass; [|exact Hchunks].
    intros chunkList st x. apply framed_packClass. }
  intros _ _.
  eapply framed_bind;
    [apply framed_readonly, readonly_iterate | intros chunkList _].
  eapply framed_bind.
  { apply (framed_forEach _ _ _ (fun _ => True)); [|trivial].
    intros [] chunk _.
    eapply framed_bind;
      [apply framed_readonly, readonly_stringifyTokens | intros ? _].
    now apply framed_ret. }
  intros _ _.
  destruct (0 <? _)%nat; [now apply framed_ret | apply framed_alloc].
Qed.

(** X12: The array that [chunkCodebase] returns is always one that it has
    created, at a location that held no object before the call, also when
    its only element is the caller's context. *)
Theorem chunkCodebase_returns_new_array (s : Store.store) (context : Store.value)
    (maxChunkSize : Z) (result : Store.value) :
  (Store.chunkCodebase context maxChunkSize s).1 = Returned result ->
  exists l, result = Store.VRef l /\ s !! l = None.
Proof.
  intros Hrun.
  destruct (framed_chunkCodebase_fresh (length s) context maxChunkSize s (le_n _))
    as [_ Hfresh].
  destruct (Hfresh result Hrun) as (l & -> & Hl).
  exists l. split; [reflexivity|]. now apply lookup_ge_None.
Qed.

Lemma chunkCodebase_returns_new_array_witness :
  exists l,
    Store.VRef 2%nat = Store.VRef l
    /\ [Store.ORecord []] !! l = None.
Proof.
  apply (chunkCodebase_returns_new_array [Store.ORecord []] (Store.VRef 0%nat) 10).
  vm_compute. reflexivity.
Defined.


(** ** Answers of the text-generation service *)

Lemma checkContent_Some (validate : json -> bool) (v : option json) (found : bool) :
  checkContent validate v = Some found ->
  contentOk validate v /\ (found = true <-> nonEmptyArray v).
Proof.
  unfold checkContent, contentOk, nonEmptyArray.
  destruct (isTruthy v) eqn:Ht.
  - destruct v as [[| | | |items|]|]; try discriminate.
    destruct (forallb validate items) eqn:Hall; [|discriminate].
    intros [= <-]. split; [right; eauto|].
    destruct items as [|item items]; simpl.
    + split; [discriminate | intros (? & ? & H); discriminate].
    + split; eauto.
  - intros [= <-]. split; [now left|].
    split; [discriminate|]. intros (item & items & ->). discriminate.
Qed.

Lemma checkContent_None (validate : json -> bool) (v : option json) :
  checkContent validate v = None -> ~ contentOk validate v.
Proof.
  unfold checkContent, contentOk.
  destruct (isTruthy v) eqn:Ht; [|discriminate].
  intros Hnone [H|(items & -> & Hall)]; [discriminate|].
  now rewrite Hall in Hnone.
Qed.

Lemma analysis_blocks_spec (analysis : json) :
  match checkContent validateFunction (property analysis "functions") with
  | None => false
  | Some hasFunctions =>
      match checkContent validateClass (property analysis "classes") with
      | None => false
      | Some hasClasses =>
          match checkContent validateModule (property analysis "modules") with
          | None => false
          | Some hasModules => hasFunctions || hasClasses || hasModules
          end
      end
  end = true
  <-> contentOk validateFunction (property analysis "functions")
      /\ contentOk validateClass (property analysis "classes")
      /\ contentOk validateModule (property analysis "modules")
      /\ (nonEmptyArray (property analysis "functions")
          \/ nonEmptyArray (property analysis "classes")
          \/ nonEmptyArray (property analysis "modules")).
Proof.
  destruct (checkContent validateFunction _) as [hf|] eqn:Hf;
    [apply checkContent_Some in Hf as [Hf1 Hf2]
    |apply checkContent_None in Hf; split; [discriminate | tauto]].
  destruct (checkContent validateClass _) as [hc|] eqn:Hc;
    [apply checkContent_Some in Hc as [Hc1 Hc2]
    |apply checkContent_None in Hc; split; [discriminate | tauto]].
  destruct (checkContent validateModule _) as [hm|] eqn:Hm;
    [apply checkContent_Some in Hm as [Hm1 Hm2]
    |apply checkContent_None in Hm; split; [discriminate | tauto]].
  rewrite !orb_true_iff. tauto.
Qed.

(** X13: Without a response format, a response is accepted exactly when it is an
    object or array and either its [components] are an array of valid
    components (possibly none, [analysis] being then ignored), or its
    [components] are no array and its [analysis] is an object or array
    whose [functions], [classes] and [modules] are each falsy or an array of
    valid items, one of them at least being a non-empty array. *)
Theorem validateResponseStructure_accepts (response : json) :
  validateResponseStructure response None = true
  <-> objectLike response = true
      /\ ((exists components,
             property response "components" = Some (JArray components)
             /\ forallb validateComponent components = true)
          \/ (isJsonArray (property response "components") = false
              /\ exists analysis,
                   property response "analysis" = Some analysis
                   /\ objectLike analysis = true
                   /\ contentOk validateFunction (property analysis "functions")
                   /\ contentOk validateClass (property analysis "classes")
                   /\ contentOk validateModule (property analysis "modules")
                   /\ (nonEmptyArray (property analysis "functions")
                       \/ nonEmptyArray (property analysis "classes")
                       \/ nonEmptyArray (property analysis "modules")))).
Proof.
  unfold validateResponseStructure.
  destruct (objectLike response) eqn:Hobj; cbn [negb];
    [|split; [discriminate | intros [H _]; discriminate]].
  change (isTruthy None) with false. cbn iota.
  destruct (isJsonArray (property response "components")) eqn:Harr.
  - destruct (property response "components") as [[| | | |components|]|];
      try discriminate. cbn [isTruthy andb]. split.
    + intros H. split; [reflexivity|]. left. eauto.
    + intros [_ [(components' & [= <-] & H)|[H _]]]; [exact H | discriminate].
  - rewrite andb_false_r.
    assert (Hno : forall components,
               property response "components" <> Some (JArray components)).
    { intros components E. rewrite E in Harr. discriminate. }
    destruct (property response "analysis") as [analysis|].
    + fold (objectLike analysis).
      destruct (objectLike analysis) eqn:Hao.
      * pose proof (analysis_blocks_spec analysis) as Hspec. split.
        -- intros H. apply Hspec in H. split; [reflexivity|]. right.
           split; [reflexivity|]. exists analysis. tauto.
        -- intros [_ [(components & E & _)|(_ & analysis' & [= <-] & _ & H)]];
             [now apply Hno in E | now apply Hspec].
      * split; [discriminate|].
        intros [_ [(components & E & _)|(_ & analysis' & [= <-] & H & _)]];
          [now apply Hno in E | congruence].
    + split; [discriminate|].
      intros [_ [(components & E & _)|(_ & analysis' & H & _)]];
        [now apply Hno in E | discriminate].
Qed.
Lemma accepted_cases (response : json) :
  validateResponseStructure response None = true ->
  (exists components,
     property response "components" = Some (JArray components)
     /\ forallb validateComponent components = true)
  \/ (isJsonArray (property response "components") = false
      /\ exists fields, property response "analysis" = Some (JObject fields)).
Proof.
  unfold validateResponseStructure.
  destruct (objectLike response); cbn [negb]; [|discriminate].
  change (isTruthy None) with false. cbn iota.
  destruct (isJsonArray (property response "components")) eqn:Harr.
  - destruct (property response "components") as [[| | | |components|]|];
      try discriminate. cbn [isTruthy andb]. intros H. left. eauto.
  - rewrite andb_false_r. intros H. right. split; [reflexivity|].
    destruct (property response "analysis") as [[| | | |elems|fields]|];
      [..|eauto|discriminate];
      cbn [typeofObject] in H; rewrite ?andb_false_r in H; discriminate.
Qed.

Lemma objectLike_truthy (v : json) : objectLike v = true -> isTruthy (Some v) = true.
Proof. unfold objectLike. now intros [H _]%andb_true_iff. Qed.

(** X14: What [sendQuery] makes of the service's answer: a returned value is
    never [undefined] nor falsy, and every error is either the missing
    response or carries the prefix of a JSON parse failure, the rejection of
    the structure of a well-formed answer included. *)
Theorem interpretResponse_outcomes (JSON_parse : string -> outcome json)
    (content : option string) (responseFormat : option json) :
  (forall value,
     interpretResponse JSON_parse content responseFormat = Returned value ->
     isTruthy value = true)
  /\ (forall message,
        interpretResponse JSON_parse content responseFormat = Thrown message ->
        message = "No response received from OpenAI"
        \/ exists detail,
             message = "Failed to parse OpenAI response as JSON: " +:+ detail)
  /\ (forall response parsed,
        content = Some response ->
        response <> EmptyString ->
        JSON_parse (extractJson response) = Returned parsed ->
        validateResponseStructure parsed responseFormat = false ->
        interpretResponse JSON_parse content responseFormat
        = Thrown "Failed to parse OpenAI response as JSON: Invalid response structure").
Proof.
  unfold interpretResponse. split; [|split].
  - intros value. destruct content as [response|]; [|discriminate].
    destruct (String.eqb response EmptyString); [discriminate|].
    destruct (JSON_parse (extractJson response)) as [parsed|message]; [|discriminate].
    destruct (validateResponseStructure parsed responseFormat) eqn:Hvalid;
      cbn [negb]; [|discriminate].
    destruct (isTruthy responseFormat) eqn:Hfmt.
    + intros [= <-]. apply objectLike_truthy.
      unfold validateResponseStructure in Hvalid.
      destruct (objectLike parsed); [reflexivity | discriminate].
    + assert (Hnone : validateResponseStructure parsed None = true).
      { unfold validateResponseStructure in *. rewrite Hfmt in Hvalid. exact Hvalid. }
      destruct (isTruthy (property parsed "analysis")) eqn:Ha;
        intros [= <-]; [exact Ha|].
      apply accepted_cases in Hnone as [(components & -> & _)|(_ & fields & Hsome)];
        [reflexivity|].
      rewrite Hsome in Ha. discriminate.
  - intros message. destruct content as [response|]; [|intros [= <-]; now left].
    destruct (String.eqb response EmptyString); [intros [= <-]; now left|].
    destruct (JSON_parse (extractJson response)) as [parsed|detail];
      [|intros [= <-]; right; eauto].
    destruct (validateResponseStructure parsed responseFormat); cbn [negb];
      [|intros [= <-]; right; eauto].
    destruct (isTruthy responseFormat); [discriminate|].
    destruct (isTruthy (property parsed "analysis")); discriminate.
  - intros response parsed -> Hne Hparse Hinvalid.
    destruct (String.eqb_spec response EmptyString); [contradiction|].
    rewrite Hparse, Hinvalid. reflexivity.
Qed.

(** X15: When the [components] of an answer are an array of valid components,
    the answer is accepted on their account, yet what [sendQuery] returns
    is its [analysis] whenever that is truthy, whatever it holds. *)
Theorem analysis_returned_without_validation (JSON_parse : string -> outcome json)
    (response : string) (parsed : json) (components : list json) (analysis : json) :
  response <> EmptyString ->
  JSON_parse (extractJson response) = Returned parsed ->
  objectLike parsed = true ->
  property parsed "components" = Some (JArray components) ->
  forallb validateComponent components = true ->
  property parsed "analysis" = Some analysis ->
  isTruthy (Some analysis) = true ->
  interpretResponse JSON_parse (Some response) None = Returned (Some analysis).
Proof.
  intros Hne Hparse Hobj Hcomp Hvalid Hana Htruthy.
  unfold interpretResponse.
  destruct (String.eqb_spec response EmptyString); [contradiction|].
  rewrite Hparse.
  assert (Hacc : validateResponseStructure parsed None = true).
  { unfold validateResponseStructure. rewrite Hobj, Hcomp. exact Hvalid. }
  rewrite Hacc. cbn [negb isTruthy]. rewrite Hana, Htruthy. reflexivity.
Qed.

Lemma analysis_returned_without_validation_witness :
  interpretResponse (fun _ => Returned mixed_answer) (Some "{}") None
  = Returned (Some (JString "see components")).
Proof.
  apply (analysis_returned_without_validation _ "{}" mixed_answer
           [JObject [("type", JString "class"); ("name", JString "C");
                     ("description", JString "a class")]]
           (JString "see components"));
    first [reflexivity | discriminate].
Defined.

Lemma substring_all (s : string) : String.substring 0 (String.length s) s = s.
Proof. induction s as [|c s IH]; simpl; [reflexivity | now rewrite IH]. Qed.

Lemma substring_prefix (a b : string) :
  String.substring 0 (String.length a) (a +:+ b) = a.
Proof.
  induction a as [|c a IH]; rewrite ?append_String, ?append_Empty; simpl.
  - now destruct b.
  - now rewrite IH.
Qed.

Lemma substring_skip (a b : string) (n : nat) :
  String.substring (String.length a) n (a +:+ b) = String.substring 0 n b.
Proof.
  induction a as [|c a IH]; rewrite ?append_String, ?append_Empty; simpl; auto.
Qed.

Lemma indexOf_app_absent (c : ascii) (a b : string) :
  indexOf c a = None ->
  indexOf c (a +:+ String c b) = Some (String.length a).
Proof.
  induction a as [|d a IH]; rewrite ?append_String, ?append_Empty; simpl.
  - now rewrite Ascii.eqb_refl.
  - destruct (Ascii.eqb d c); [discriminate|].
    destruct (indexOf c a); [discriminate|]. intros _. now rewrite IH.
Qed.

Lemma lastIndexOf_app_absent (c : ascii) (a b : string) :
  lastIndexOf c b = None ->
  lastIndexOf c (a +:+ String c b) = Some (String.length a).
Proof.
  intros Hb. induction a as [|d a IH]; rewrite ?append_String, ?append_Empty; simpl.
  - now rewrite Hb, Ascii.eqb_refl.
  - now rewrite IH.
Qed.

(** X16: When the answer holds an opening brace before a closing brace, the text
    handed to [JSON.parse] runs from the first opening brace to the last
    closing brace, whatever stands before and after. *)
Theorem extractJson_between_braces (before inside after : string) :
  indexOf "{" before = None ->
  lastIndexOf "}" after = None ->
  extractJson (before +:+ "{" +:+ inside +:+ "}" +:+ after)
  = "{" +:+ inside +:+ "}".
Proof.
  intros Hbefore Hafter. unfold extractJson.
  change ("{" +:+ inside +:+ "}" +:+ after)
    with (String "{" (inside +:+ String "}" after)).
  rewrite (indexOf_app_absent "{" before _ Hbefore).
  replace (before +:+ String "{" (inside +:+ String "}" after))
    with ((before +:+ String "{" inside) +:+ String "}" after)
    by (now rewrite string_app_assoc, append_String).
  rewrite (lastIndexOf_app_absent "}" _ after Hafter).
  unfold slice, indexOrMinusOne.
  rewrite !string_length_app. simpl String.length.
  set (m := String.length before). set (k := String.length inside).
  set (p := String.length after).
  replace (Z.of_nat m <? 0) with false by (symmetry; apply Z.ltb_ge; lia).
  replace (Z.of_nat (m + S k) + 1 <? 0) with false by (symmetry; apply Z.ltb_ge; lia).
  rewrite Z.min_l by lia. rewrite Z.min_l by lia.
  replace (Z.to_nat (Z.max (Z.of_nat (m + S k) + 1 - Z.of_nat m) 0))
    with (String.length (String "{" (inside +:+ "}"))).
  2: { simpl. rewrite string_length_app. simpl. fold k. lia. }
  rewrite Nat2Z.id.
  replace ((before +:+ String "{" inside) +:+ String "}" after)
    with (before +:+ (String "{" (inside +:+ "}") +:+ after)).
  2: { rewrite (string_app_assoc before), !append_String.
       do 2 f_equal. now rewrite string_app_assoc, append_String, append_Empty. }
  subst m. rewrite substring_skip. apply substring_prefix.
Qed.

Lemma extractJson_between_braces_witness :
  extractJson ("Here you go: " +:+ "{" +:+ "x" +:+ "}" +:+ " Thanks.") = "{" +:+ "x" +:+ "}".
Proof.
  apply (extractJson_between_braces "Here you go: " "x" " Thanks."); reflexivity.
Defined.

Lemma substring_length_le (n m : nat) (s : string) :
  (String.length (String.substring n m s) <= m)%nat.
Proof.
  revert n m. induction s as [|c rest IH]; intros [|n] [|m]; simpl;
    try lia.
  - specialize (IH 0%nat m). lia.
  - apply IH.
  - apply IH.
Qed.

Lemma lastIndexOf_lt (c : ascii) (s : string) (i : nat) :
  lastIndexOf c s = Some i -> (i < String.length s)%nat.
Proof.
  revert i. induction s as [|d rest IH]; intros i; simpl; [discriminate|].
  destruct (lastIndexOf c rest) as [j|].
  - intros [= <-]. specialize (IH j eq_refl). lia.
  - destruct (Ascii.eqb d c); [intros [= <-]; lia | discriminate].
Qed.

(** X17: An answer without an opening brace is cut down to its last character
    at most, since the search for the brace yields -1, which [slice] counts
    from the end: an answer that is a bare JSON array never reaches
    [JSON.parse] whole. *)
Theorem extractJson_without_opening_brace (response : string) :
  indexOf "{" response = None ->
  (String.length (extractJson response) <= 1)%nat.
Proof.
  intros Hnone. unfold extractJson, slice. rewrite Hnone.
  cbn [indexOrMinusOne]. change (-1 <? 0) with true. cbv iota.
  etransitivity; [apply substring_length_le|].
  set (len := Z.of_nat (String.length response)).
  assert (Hend : 0 <= indexOrMinusOne (lastIndexOf "}" response) + 1 <= len).
  { destruct (lastIndexOf "}" response) as [i|] eqn:Hlast; cbn [indexOrMinusOne].
    - apply lastIndexOf_lt in Hlast. lia.
    - lia. }
  destruct (Z.ltb_spec (indexOrMinusOne (lastIndexOf "}" response) + 1) 0); lia.
Qed.

Lemma extractJson_without_opening_brace_witness :
  (String.length (extractJson "[1, 2, 3]") <= 1)%nat.
Proof.
  apply (extractJson_without_opening_brace "[1, 2, 3]"). reflexivity.
Defined.


(** ** The code sent to the service *)

Lemma removeMatches_length (matchLength : string -> option nat) (s : string) :
  forall skip,
    (String.length (removeMatches matchLength skip s) <= String.length s)%nat.
Proof.
  induction s as [|c rest IH]; intros skip; simpl; [lia|].
  destruct skip as [|k].
  - destruct (matchLength (String c rest)) as [[|k]|]; simpl.
    + specialize (IH 0%nat). lia.
    + specialize (IH k). lia.
    + specialize (IH 0%nat). lia.
  - specialize (IH k). lia.
Qed.

Lemma normalizeWhitespace_length (s : string) :
  forall inRun,
    (String.length (normalizeWhitespace inRun s) <= String.length s)%nat.
Proof.
  induction s as [|c rest IH]; intros inRun; simpl; [lia|].
  destruct (isWhiteSpace c); [destruct inRun|]; simpl.
  - specialize (IH true). lia.
  - specialize (IH true). lia.
  - specialize (IH false). lia.
Qed.

Lemma trimStart_length (s : string) :
  (String.length (trimStart s) <= String.length s)%nat.
Proof.
  induction s as [|c rest IH]; simpl; [lia|].
  destruct (isWhiteSpace c); simpl; lia.
Qed.

Lemma trimEnd_length (s : string) :
  (String.length (trimEnd s) <= String.length s)%nat.
Proof.
  induction s as [|c rest IH]; simpl; [lia|].
  destruct (trimEnd rest); [destruct (isWhiteSpace c)|]; simpl in *; lia.
Qed.

Lemma trim_length (s : string) : (String.length (trim s) <= String.length s)%nat.
Proof.
  unfold trim. pose proof (trimEnd_length (trimStart s)).
  pose proof (trimStart_length s). lia.
Qed.

(** X18: The cleaned code is never longer than the code. *)
Theorem optimizeCode_never_longer (code : string) :
  (String.length (optimizeCode code) <= String.length code)%nat.
Proof.
  unfold optimizeCode. destruct (String.eqb code EmptyString); [simpl; lia|].
  etransitivity; [apply trim_length|].
  etransitivity; [apply normalizeWhitespace_length|].
  etransitivity; [apply removeMatches_length|].
  etransitivity; [apply removeMatches_length|].
  apply removeMatches_length.
Qed.

Lemma occurs_normalizeWhitespace (c : ascii) (s : string) :
  forall inRun,
    occurs c (normalizeWhitespace inRun s) -> isWhiteSpace c = true -> c = " "%char.
Proof.
  induction s as [|d rest IH]; intros inRun; simpl; [tauto|].
  destruct (isWhiteSpace d) eqn:Hd; [destruct inRun|]; simpl.
  - apply IH.
  - intros [<-|Hin] Hc; [reflexivity | eapply IH; eauto].
  - intros [<-|Hin] Hc; [congruence | eapply IH; eauto].
Qed.

Lemma occurs_trimStart (c : ascii) (s : string) : occurs c (trimStart s) -> occurs c s.
Proof.
  induction s as [|d rest IH]; simpl; [tauto|].
  destruct (isWhiteSpace d); simpl; tauto.
Qed.

Lemma occurs_trimEnd (c : ascii) (s : string) : occurs c (trimEnd s) -> occurs c s.
Proof.
  induction s as [|d rest IH]; simpl; [tauto|].
  destruct (trimEnd rest); [destruct (isWhiteSpace d)|]; simpl in *; tauto.
Qed.

Lemma singleSpaced_normalizeWhitespace (s : string) :
  forall inRun,
    singleSpaced (normalizeWhitespace inRun s)
    /\ (inRun = true ->
        forall c, firstChar (normalizeWhitespace inRun s) = Some c ->
                  isWhiteSpace c = false).
Proof.
  induction s as [|d rest IH]; intros inRun; simpl; [split; [exact I | discriminate]|].
  destruct (isWhiteSpace d) eqn:Hd; [destruct inRun|].
  - apply IH.
  - destruct (IH true) as [Hsingle Hfirst]. split; [|discriminate].
    simpl. split; [|exact Hsingle].
    destruct (normalizeWhitespace true rest) as [|e tail] eqn:Hrest; [exact I|].
    intros [_ He]. rewrite (Hfirst eq_refl e eq_refl) in He. discriminate.
  - destruct (IH false) as [Hsingle _]. split.
    + simpl. split; [|exact Hsingle].
      destruct (normalizeWhitespace false rest); [exact I|].
      intros [Hd' _]. congruence.
    + intros _ c [= <-]. exact Hd.
Qed.

Lemma singleSpaced_trimStart (s : string) : singleSpaced s -> singleSpaced (trimStart s).
Proof.
  induction s as [|d rest IH]; [simpl; tauto|].
  intros Hsingle. cbn [trimStart].
  destruct (isWhiteSpace d); [apply IH, Hsingle | exact Hsingle].
Qed.

Lemma singleSpaced_trimEnd (s : string) : singleSpaced s -> singleSpaced (trimEnd s).
Proof.
  induction s as [|d rest IH]; simpl; [tauto|].
  intros [Hhead Htail]. specialize (IH Htail).
  destruct (trimEnd rest) as [|e kept] eqn:Hkept.
  - destruct (isWhiteSpace d); simpl; auto.
  - simpl. split; [|exact IH].
    destruct rest as [|e' rest']; [discriminate|].
    assert (e' = e) as ->; [|exact Hhead].
    simpl in Hkept. destruct (trimEnd rest'); [destruct (isWhiteSpace e')|];
      congruence.
Qed.

Lemma optimizeCode_white_space (code : string) (c : ascii) :
  occurs c (optimizeCode code) -> isWhiteSpace c = true -> c = " "%char.
Proof.
  unfold optimizeCode. destruct (String.eqb code EmptyString); [simpl; tauto|].
  intros Hin. apply occurs_trimEnd, occurs_trimStart in Hin.
  eapply occurs_normalizeWhitespace; eauto.
Qed.

(** X19: The cleaned code starts and ends with no white space, holds no white
    space but the space, and no two spaces in a row: no line break is left
    in it. *)
Theorem optimizeCode_normal_form (code : string) :
  trimmed (optimizeCode code)
  /\ singleSpaced (optimizeCode code)
  /\ (forall c, occurs c (optimizeCode code) -> isWhiteSpace c = true -> c = " "%char).
Proof.
  split; [|split; [|intros c; apply optimizeCode_white_space]];
    unfold optimizeCode; destruct (String.eqb code EmptyString).
  - split; discriminate.
  - apply trim_trimmed.
  - exact I.
  - apply singleSpaced_trimEnd, singleSpaced_trimStart,
      singleSpaced_normalizeWhitespace.
Qed.

Lemma split_absent (sep : ascii) (s : string) : ~ occurs sep s -> split sep s = [s].
Proof.
  induction s as [|c rest IH]; simpl; [reflexivity|].
  intros Hno. destruct (Ascii.eqb_spec c sep) as [->|Hne]; [tauto|].
  rewrite IH by tauto. reflexivity.
Qed.

(** X20: A body whose cleaned code is longer than 500 characters is sent as two
    copies of the whole cleaned code around the mark of the left-out
    implementation. *)
Theorem extractEssentialCode_repeats_long_code (body : string) :
  (500 < String.length (optimizeCode body))%nat ->
  extractEssentialCode body
  = optimizeCode body +:+ implementationMark +:+ optimizeCode body.
Proof.
  intros Hlong. unfold extractEssentialCode.
  destruct (Nat.ltb_spec 500 (String.length (optimizeCode body))); [|lia].
  rewrite split_absent; [reflexivity|].
  intros Hin. pose proof (optimizeCode_white_space body _ Hin eq_refl) as Hws.
  discriminate.
Qed.

Lemma extractEssentialCode_repeats_long_code_witness :
  extractEssentialCode (letters 501)
  = optimizeCode (letters 501) +:+ implementationMark +:+ optimizeCode (letters 501).
Proof.
  apply (extractEssentialCode_repeats_long_code (letters 501)).
  vm_compute. lia.
Defined.

Lemma removeMatches_skip_all (matchLength : string -> option nat) (s : string) :
  forall skip, (String.length s <= skip)%nat ->
    removeMatches matchLength skip s = EmptyString.
Proof.
  induction s as [|c rest IH]; intros skip Hlen; simpl in *; [reflexivity|].
  destruct skip as [|k]; [lia|]. apply IH. lia.
Qed.

Lemma indexOfText_String (t : string) (c : ascii) (rest : string) :
  indexOfText t (String c rest)
  = match stripPrefix t (String c rest) with
    | Some _ => Some 0%nat
    | None => S <$> indexOfText t rest
    end.
Proof. reflexivity. Qed.

Lemma stripPrefix_close (c : ascii) (rest : string) :
  stripPrefix "*/" (String c rest)
  = if Ascii.eqb "*" c then
      match rest with
      | String d rest' => if Ascii.eqb "/" d then Some rest' else None
      | EmptyString => None
      end
    else None.
Proof. destruct rest; reflexivity. Qed.

Lemma indexOfText_close (inside : string) :
  indexOfText "*/" inside = None ->
  indexOfText "*/" (inside +:+ "*/") = Some (String.length inside).
Proof.
  induction inside as [|c rest IH]; rewrite ?append_String, ?append_Empty.
  - reflexivity.
  - rewrite !indexOfText_String, !stripPrefix_close. intros Hnone.
    assert (Hrest : indexOfText "*/" rest = None).
    { destruct (indexOfText "*/" rest); [|reflexivity].
      destruct (Ascii.eqb "*" c); [destruct rest as [|d rest']|];
        try destruct (Ascii.eqb "/" d); discriminate. }
    rewrite (IH Hrest).
    destruct (Ascii.eqb "*" c); [|reflexivity].
    destruct rest as [|d rest']; rewrite ?append_String, ?append_Empty;
      [reflexivity|].
    destruct (Ascii.eqb "/" d); [discriminate | reflexivity].
Qed.

Lemma optimizeCode_sole_block_comment (inside : string) :
  indexOfText "*/" inside = None ->
  optimizeCode ("/*" +:+ inside +:+ "*/") = EmptyString.
Proof.
  intros Hnone. unfold optimizeCode.
  change ("/*" +:+ inside +:+ "*/") with (String "/" (String "*" (inside +:+ "*/"))).
  cbn [String.eqb].
  assert (removeMatches blockCommentLength 0
            (String "/" (String "*" (inside +:+ "*/"))) = EmptyString) as ->;
    [|reflexivity].
  cbn [removeMatches].
  assert (blockCommentLength (String "/" (String "*" (inside +:+ "*/")))
          = Some (S (S (String.length inside + 2)))) as ->.
  { unfold blockCommentLength.
    change (stripPrefix "/*" (String "/" (String "*" (inside +:+ "*/"))))
      with (Some (inside +:+ "*/")).
    cbn iota beta. rewrite (indexOfText_close inside Hnone). reflexivity. }
  apply removeMatches_skip_all. simpl. rewrite string_length_app. simpl. lia.
Qed.

(** X21: A body that is one block comment is sent as the empty text: so is the
    placeholder that the chunker writes in place of a body too large. *)
Theorem sole_block_comment_is_erased (inside : string) :
  indexOfText "*/" inside = None ->
  extractEssentialCode ("/*" +:+ inside +:+ "*/") = EmptyString.
Proof.
  intros Hnone. unfold extractEssentialCode.
  rewrite (optimizeCode_sole_block_comment inside Hnone). reflexivity.
Qed.

Lemma sole_block_comment_is_erased_witness :
  extractEssentialCode truncated_body = EmptyString.
Proof.
  apply (sole_block_comment_is_erased " Body too large, truncated ").
  vm_compute. reflexivity.
Defined.


(** ** The chunked analysis *)

Section ChunkedRun.
Variable JSON_parse : string -> outcome json.
Variable complete : nat -> Query -> outcome (option string).
Variables overviewSchema dependencySchema : list (string * json).

Lemma analyzeChunks_run (chunks : list AnalysisResult) :
  forall componentAnalyses sent,
    match analyzeChunks JSON_parse complete chunks componentAnalyses sent with
    | (Returned result, sent') =>
        sent' = sent ++ map componentQuery chunks
        /\ exists answers,
             result = componentAnalyses ++ answers
             /\ length answers = length chunks
             /\ forall i chunk value,
                  chunks !! i = Some chunk ->
                  answers !! i = Some value ->
                  answer JSON_parse complete (length sent + i)%nat (componentQuery chunk)
                  = Returned value
    | (Thrown message, sent') =>
        exists k chunk,
          chunks !! k = Some chunk
          /\ sent' = sent ++ map componentQuery (take (S k) chunks)
          /\ answer JSON_parse complete (length sent + k)%nat (componentQuery chunk)
             = Thrown message
          /\ forall i chunk', (i < k)%nat -> chunks !! i = Some chunk' ->
               exists value,
                 answer JSON_parse complete (length sent + i)%nat (componentQuery chunk')
                 = Returned value
    end.
Proof.
  induction chunks as [|chunk rest IH]; intros componentAnalyses sent.
  - simpl. split; [now rewrite app_nil_r|]. exists []. split; [now rewrite app_nil_r|].
    split; [reflexivity|]. intros i chunk value Hi. discriminate.
  - cbn [analyzeChunks sendQuery].
    destruct (answer JSON_parse complete (length sent) (componentQuery chunk))
      as [value|message] eqn:Hanswer.
    + specialize (IH (componentAnalyses ++ [value]) (sent ++ [componentQuery chunk])).
      destruct (analyzeChunks JSON_parse complete rest (componentAnalyses ++ [value])
                  (sent ++ [componentQuery chunk])) as [[result|message] sent'].
      * destruct IH as [-> (answers & -> & Hlen & Hall)]. split.
        { now rewrite <- app_assoc. }
        exists (value :: answers). split; [now rewrite <- app_assoc|].
        split; [simpl; now rewrite Hlen|].
        intros [|i] chunk' value'; simpl.
        { intros [= <-] [= <-]. now rewrite Nat.add_0_r. }
        intros Hi Hv. specialize (Hall i chunk' value' Hi Hv).
        rewrite length_app in Hall. simpl in Hall.
        now replace (length sent + S i)%nat with (length sent + 1 + i)%nat by lia.
      * destruct IH as (k & chunk' & Hk & -> & Hfail & Hbefore).
        rewrite length_app in Hfail, Hbefore. simpl in Hfail, Hbefore.
        exists (S k), chunk'. split; [exact Hk|]. split.
        { now rewrite <- app_assoc. }
        split.
        { now replace (length sent + S k)%nat with (length sent + 1 + k)%nat by lia. }
        intros [|i] chunk'' Hlt; simpl.
        { intros [= <-]. exists value. now rewrite Nat.add_0_r. }
        intros Hi. destruct (Hbefore i chunk'' ltac:(lia) Hi) as [value' Hvalue'].
        exists value'.
        now replace (length sent + S i)%nat with (length sent + 1 + i)%nat by lia.
    + exists 0%nat, chunk. split; [reflexivity|]. split; [reflexivity|].
      split; [now rewrite Nat.add_0_r|]. intros i chunk' Hlt. lia.
Qed.

(** X22: A run of the chunked analysis sends the overview query, one query for
    each chunk in order, and the dependency query; it returns when all of
    them are answered, and the first call that fails ends the run with its
    error, no later query being sent and nothing of the earlier answers
    being returned. *)
Theorem chunked_analysis_stops_at_first_failure (context : AnalysisResult) :
  let queries := allQueries overviewSchema dependencySchema context in
  match analyzeChunkedCodebase JSON_parse complete overviewSchema dependencySchema
          context with
  | (Returned result, sent) =>
      sent = queries
      /\ forall i query, queries !! i = Some query ->
           exists value, answer JSON_parse complete i query = Returned value
  | (Thrown message, sent) =>
      exists k query,
        queries !! k = Some query
        /\ sent = take (S k) queries
        /\ answer JSON_parse complete k query = Thrown message
        /\ forall i query', (i < k)%nat -> queries !! i = Some query' ->
             exists value, answer JSON_parse complete i query' = Returned value
  end.
Proof.
  intros queries. subst queries.
  unfold analyzeChunkedCodebase, allQueries. cbn [sendQuery length app].
  set (chunks := chunkCodebase context defaultMaxChunkSize).
  set (overviewQ := overviewQuery overviewSchema context).
  set (dependencyQ := dependencyQuery dependencySchema context).
  destruct (answer JSON_parse complete 0 overviewQ) as [overviewValue|message]
    eqn:Hoverview.
  2: { exists 0%nat, overviewQ. split; [reflexivity|]. split; [reflexivity|].
       split; [exact Hoverview|]. intros i query' Hlt. lia. }
  pose proof (analyzeChunks_run chunks [] [overviewQ]) as Hrun.
  destruct (analyzeChunks JSON_parse complete chunks [] [overviewQ])
    as [[componentAnalyses|message] sent].
  - destruct Hrun as [-> (answers & -> & Hlen & Hall)].
    assert (Hchunk : forall i query,
               (map componentQuery chunks ++ [dependencyQ]) !! i = Some query ->
               (i < length chunks)%nat ->
               exists value, answer JSON_parse complete (S i) query = Returned value).
    { intros i query Hi Hlt.
      rewrite lookup_app_l in Hi by (now rewrite length_map).
      rewrite list_lookup_fmap in Hi.
      destruct (chunks !! i) as [chunk|] eqn:Hchunk; [|discriminate].
      injection Hi as <-.
      destruct (lookup_lt_is_Some_2 answers i ltac:(lia)) as [value Hvalue].
      exists value. exact (Hall i chunk value Hchunk Hvalue). }
    rewrite length_app, length_map. cbn [length].
    replace (1 + length chunks)%nat with (S (length chunks)) by lia.
    destruct (answer JSON_parse complete (S (length chunks)) dependencyQ)
      as [dependencyValue|message] eqn:Hdependency.
    + split; [now rewrite <- app_assoc|].
      intros [|i] query; simpl.
      { intros [= <-]. eauto. }
      intros Hi. destruct (decide (i < length chunks)%nat) as [Hlt|Hge];
        [exact (Hchunk i query Hi Hlt)|].
      rewrite lookup_app_r in Hi by (rewrite length_map; lia).
      rewrite length_map in Hi.
      destruct (i - length chunks)%nat as [|j] eqn:Hj; [|destruct j; discriminate].
      injection Hi as <-. replace i with (length chunks) by lia. eauto.
    + exists (S (length chunks)), dependencyQ. split.
      { simpl. rewrite lookup_app_r by (now rewrite length_map).
        rewrite length_map, Nat.sub_diag. reflexivity. }
      split.
      { rewrite firstn_all2; [now rewrite <- app_assoc|].
        simpl. rewrite length_app, length_map. simpl. lia. }
      split; [exact Hdependency|].
      intros [|i] query' Hlt; simpl.
      { intros [= <-]. eauto. }
      intros Hi. apply (Hchunk i query' Hi). lia.
  - destruct Hrun as (k & chunk & Hk & -> & Hfail & Hbefore).
    cbn [length Nat.add] in Hfail, Hbefore.
    exists (S k), (componentQuery chunk). split.
    { simpl. rewrite lookup_app_l.
      - now rewrite list_lookup_fmap, Hk.
      - rewrite length_map. now apply lookup_lt_Some in Hk. }
    split.
    { cbn [take app]. f_equal. rewrite take_app_le.
      - now rewrite <- fmap_take.
      - rewrite length_map. apply lookup_lt_Some in Hk. lia. }
    split; [exact Hfail|].
    intros [|i] query' Hlt; simpl.
    { intros [= <-]. eauto. }
    intros Hi. apply lookup_lt_Some in Hk.
    rewrite lookup_app_l in Hi by (rewrite length_map; lia).
    rewrite list_lookup_fmap in Hi.
    destruct (chunks !! i) as [chunk'|] eqn:Hchunk'; [|discriminate].
    injection Hi as <-. apply (Hbefore i chunk'); [lia | exact Hchunk'].
Qed.

(** X23: A context whose functions together, and whose classes together, fit
    the default budget is sent to the service four times in full by a run
    that returns: for the overview, twice as a chunk, and for the
    dependencies. *)
Theorem fitting_context_is_sent_four_times (context : AnalysisResult)
    (result : ChunkedAnalysis) :
  functions context <> [] ->
  classes context <> [] ->
  totalTokens funcTokens (functions context) <= defaultMaxChunkSize ->
  totalTokens clsTokens (classes context) <= defaultMaxChunkSize ->
  (analyzeChunkedCodebase JSON_parse complete overviewSchema dependencySchema
     context).1 = Returned result ->
  (analyzeChunkedCodebase JSON_parse complete overviewSchema dependencySchema
     context).2
  = [overviewQuery overviewSchema context; componentQuery context;
     componentQuery context; dependencyQuery dependencySchema context].
Proof.
  intros Hf Hc Hfit Hcfit.
  assert (Hchunks : chunkCodebase context defaultMaxChunkSize = [context; context]).
  { unfold chunkCodebase, functionPass, classPass.
    rewrite (functionChunks_fitting _ _ Hf Hfit), (classChunks_fitting _ _ Hc Hcfit).
    simpl. now destruct context. }
  unfold analyzeChunkedCodebase. rewrite Hchunks.
  cbn [sendQuery analyzeChunks length app].
  repeat match goal with
         | |- context [answer JSON_parse complete ?n ?q] =>
             destruct (answer JSON_parse complete n q); cbn [length app fst snd];
             [|discriminate]
         end.
  reflexivity.
Qed.

(** X24: When the answer to every chunk is an object without an array of
    [components], the [components] of the result are no components: there
    is one entry for each chunk, in the order of the chunks, and the entry
    of a chunk is the [analysis] of the answer to that chunk, an object. *)
Theorem analysis_answers_give_one_entry_per_chunk (context : AnalysisResult)
    (result : ChunkedAnalysis) :
  (forall i chunk,
     chunkCodebase context defaultMaxChunkSize !! i = Some chunk ->
     exists response parsed,
       complete (S i) (componentQuery chunk) = Returned (Some response)
       /\ JSON_parse (extractJson response) = Returned parsed
       /\ isJsonArray (property parsed "components") = false) ->
  (analyzeChunkedCodebase JSON_parse complete overviewSchema dependencySchema
     context).1 = Returned result ->
  length (components result) = length (chunkCodebase context defaultMaxChunkSize)
  /\ forall i chunk response parsed,
       chunkCodebase context defaultMaxChunkSize !! i = Some chunk ->
       complete (S i) (componentQuery chunk) = Returned (Some response) ->
       JSON_parse (extractJson response) = Returned parsed ->
       components result !! i = Some (property parsed "analysis")
       /\ exists fields, property parsed "analysis" = Some (JObject fields).
Proof.
  intros Hanswers. unfold analyzeChunkedCodebase. cbn [sendQuery length app].
  set (chunks := chunkCodebase context defaultMaxChunkSize) in *.
  destruct (answer JSON_parse complete 0 _) as [overviewValue|]; [|discriminate].
  pose proof (analyzeChunks_run chunks [] [overviewQuery overviewSchema context])
    as Hrun.
  destruct (analyzeChunks JSON_parse complete chunks [] _)
    as [[componentAnalyses|message] sent']; [|discriminate].
  destruct Hrun as [-> (answers & -> & Hlen & Hall)]. cbn [app] in *.
  destruct (answer JSON_parse complete _ (dependencyQuery _ _))
    as [dependencyValue|]; [|discriminate].
  intros [= <-]. cbn [components].
  assert (Hentry : forall i chunk response parsed chunkAnalysis,
             chunks !! i = Some chunk ->
             answers !! i = Some chunkAnalysis ->
             complete (S i) (componentQuery chunk) = Returned (Some response) ->
             JSON_parse (extractJson response) = Returned parsed ->
             chunkAnalysis = property parsed "analysis"
             /\ exists fields, property parsed "analysis" = Some (JObject fields)).
  { intros i chunk response parsed chunkAnalysis Hchunk Hvalue Hcomplete Hparse.
    specialize (Hall i chunk chunkAnalysis Hchunk Hvalue). cbn [length Nat.add] in Hall.
    destruct (Hanswers i chunk Hchunk)
      as (response' & parsed' & Hcomplete' & Hparse' & Harr).
    rewrite Hcomplete in Hcomplete'. injection Hcomplete' as <-.
    rewrite Hparse in Hparse'. injection Hparse' as <-.
    unfold answer in Hall. rewrite Hcomplete in Hall.
    cbn [q_responseFormat componentQuery] in Hall.
    unfold interpretResponse in Hall.
    destruct (String.eqb response EmptyString); [discriminate|].
    rewrite Hparse in Hall.
    destruct (validateResponseStructure parsed None) eqn:Hvalid; cbn [negb] in Hall;
      [|discriminate].
    apply accepted_cases in Hvalid as [(elems & Hsome & _)|(_ & fields & Hsome)].
    { rewrite Hsome in Harr. discriminate. }
    change (isTruthy None) with false in Hall. cbv iota in Hall.
    rewrite Hsome in Hall. cbn [isTruthy] in Hall. injection Hall as <-.
    rewrite Hsome. eauto. }
  assert (Hobjects : Forall (fun component =>
                               exists fields, component = Some (JObject fields))
                            answers).
  { apply Forall_lookup_2. intros i chunkAnalysis Hvalue.
    destruct (lookup_lt_is_Some_2 chunks i) as [chunk Hchunk];
      [apply lookup_lt_Some in Hvalue; lia|].
    destruct (Hanswers i chunk Hchunk) as (response & parsed & Hcomplete & Hparse & _).
    destruct (Hentry i chunk response parsed chunkAnalysis Hchunk Hvalue Hcomplete Hparse)
      as [-> Hobject]. exact Hobject. }
  assert (Hflat : flat answers = answers).
  { clear -Hobjects. induction Hobjects as [|item rest [fields ->] _ IH];
      [reflexivity|].
    unfold flat in *. cbn [map concat]. now rewrite IH. }
  rewrite Hflat. split; [exact Hlen|].
  intros i chunk response parsed Hchunk Hcomplete Hparse.
  destruct (lookup_lt_is_Some_2 answers i) as [chunkAnalysis Hvalue];
    [apply lookup_lt_Some in Hchunk; lia|].
  destruct (Hentry i chunk response parsed chunkAnalysis Hchunk Hvalue Hcomplete Hparse)
    as [-> Hobject].
  split; [exact Hvalue | exact Hobject].
Qed.

End ChunkedRun.

Lemma fitting_context_is_sent_four_times_witness :
  (analyzeChunkedCodebase (parseAs analysis_answer) (constantService "{}") [] []
     sample_result).2
  = [overviewQuery [] sample_result; componentQuery sample_result;
     componentQuery sample_result; dependencyQuery [] sample_result].
Proof.
  apply (fitting_context_is_sent_four_times (parseAs analysis_answer)
           (constantService "{}") [] [] sample_result sample_analysis);
    [discriminate | discriminate | vm_compute; discriminate
    | vm_compute; discriminate | vm_compute; reflexivity].
Defined.

Lemma analysis_answers_give_one_entry_per_chunk_witness :
  length (components sample_analysis)
  = length (chunkCodebase sample_result defaultMaxChunkSize)
  /\ forall i chunk response parsed,
       chunkCodebase sample_result defaultMaxChunkSize !! i = Some chunk ->
       constantService "{}" (S i) (componentQuery chunk) = Returned (Some response) ->
       parseAs analysis_answer (extractJson response) = Returned parsed ->
       components sample_analysis !! i = Some (property parsed "analysis")
       /\ exists fields, property parsed "analysis" = Some (JObject fields).
Proof.
  apply (analysis_answers_give_one_entry_per_chunk (parseAs analysis_answer)
           (constantService "{}") [] [] sample_result sample_analysis).
  - intros i chunk _. exists "{}", analysis_answer.
    split; [reflexivity|]. split; reflexivity.
  - vm_compute. reflexivity.
Defined.


(** ** The context sent to the service *)

Section SentContext.
Variable path_basename : string -> string.

(** X25: The note that numbers the parts of a large class is not sent: what is
    sent of a part does not depend on its number nor on the number of
    parts, and the part that holds all the methods is sent as the class
    itself is, so that the service cannot tell a part from a class. *)
Theorem part_note_is_not_sent (cls : ClassAnalysis) (total idx total' idx' : nat)
    (methods : list ClassMethod) :
  optimizeClass path_basename (partialClass cls total idx methods)
  = optimizeClass path_basename (partialClass cls total' idx' methods)
  /\ optimizeClass path_basename (partialClass cls total idx (c_methods cls))
     = optimizeClass path_basename cls.
Proof. split; reflexivity. Qed.

(** X26: A function whose body the chunker replaced is sent with an empty body:
    the placeholder is a comment, which the clean-up erases. *)
Theorem truncated_function_is_sent_without_body (func : FunctionAnalysis) :
  of_body (optimizeFunction path_basename (funcWithoutBody func)) = EmptyString.
Proof.
  cbn [optimizeFunction of_body funcWithoutBody f_body bodyOrEmpty].
  unfold extractEssentialCode.
  change truncated_body with ("/*" +:+ " Body too large, truncated " +:+ "*/").
  rewrite (optimizeCode_sole_block_comment " Body too large, truncated ");
    reflexivity.
Qed.

(** X27: No code of a function found by [BabelParser] reaches the service: its
    text is stored under [codeSnippet], of which nothing is sent, and the
    body sent is empty. *)
Theorem babel_function_is_sent_without_code (filePath name : string)
    (params : list (option string)) (startLine endLine : Z)
    (documentation codeSnippet codeSnippet' : string) :
  of_body (optimizeFunction path_basename
             (functionDeclaration filePath name params startLine endLine
                documentation codeSnippet)) = EmptyString
  /\ optimizeFunction path_basename
       (functionDeclaration filePath name params startLine endLine
          documentation codeSnippet)
     = optimizeFunction path_basename
         (functionDeclaration filePath name params startLine endLine
            documentation codeSnippet').
Proof. split; reflexivity. Qed.
End SentContext.


(** ** Oversized classes without methods *)

Lemma packClass_without_methods (maxChunkSize : Z) (st : packing ClassAnalysis)
    (cls : ClassAnalysis) :
  clsTokens cls > maxChunkSize ->
  c_methods cls = [] ->
  packClass maxChunkSize st cls = st.
Proof.
  intros Hbig Hnone. unfold packClass.
  destruct (Z.gtb_spec (clsTokens cls) maxChunkSize) as [_|Hfit]; [|lia].
  unfold partialClasses. rewrite Hnone. cbn. rewrite app_nil_r. now destruct st.
Qed.

(** X28: An oversized class that has no method leaves no record at all: the
    method loop forms no group, so that no partial record is pushed, and
    the class pass packs the list as if the class were not in it; an
    oversized function, by contrast, is kept as its body-less copy. *)
Theorem oversized_class_without_methods_leaves_no_record (maxChunkSize : Z)
    (before after : list ClassAnalysis) (cls : ClassAnalysis) :
  clsTokens cls > maxChunkSize ->
  c_methods cls = [] ->
  classChunks maxChunkSize (before ++ cls :: after)
  = classChunks maxChunkSize (before ++ after)
  /\ forall funcs,
       classPass (mkAnalysisResult funcs (before ++ cls :: after)) maxChunkSize
       = classPass (mkAnalysisResult funcs (before ++ after)) maxChunkSize.
Proof.
  intros Hbig Hnone.
  assert (E : classChunks maxChunkSize (before ++ cls :: after)
              = classChunks maxChunkSize (before ++ after)).
  { unfold classChunks. rewrite !fold_left_app. cbn [fold_left].
    now rewrite packClass_without_methods. }
  split; [exact E|]. intros funcs. unfold classPass. cbn [classes functions].
  now rewrite E.
Qed.

Lemma oversized_class_without_methods_leaves_no_record_witness :
  classChunks 10 ([sample_class] ++ bare_class :: [sample_class])
  = classChunks 10 ([sample_class] ++ [sample_class])
  /\ forall funcs,
       classPass (mkAnalysisResult funcs ([sample_class] ++ bare_class :: [sample_class])) 10
       = classPass (mkAnalysisResult funcs ([sample_class] ++ [sample_class])) 10.
Proof.
  apply (oversized_class_without_methods_leaves_no_record 10
           [sample_class] [sample_class] bare_class);
    [vm_compute; reflexivity | reflexivity].
Defined.
